(** * sd3-ui: the job store and the polling loop of [src/app/page.tsx]

    A shallow embedding of the client state of the [Home] component
    (the [images] store, the [pendingJobs] working set, the polling
    interval, the [localStorage] mirror) together with the platform
    functions it calls ([JSON.stringify], [JSON.parse], [String.trim],
    [slice], [replace], [toLowerCase]).

    Strings are sequences of code units; the embedding uses [string],
    i.e. code units below 256.  Numbers held by the store are the
    integral millisecond stamps of [Date.now()], embedded as [Z]; the
    properties that depend on the text or on the arithmetic of a number
    are stated for the safe integers, which a double holds exactly. *)

From Stdlib Require Import String Ascii List ZArith Bool Arith Lia.
From Stdlib Require Import DecimalFacts DecimalPos DecimalZ.
Import ListNotations.

Local Open Scope list_scope.

(* ================================================================= *)
(** ** JSON values and text *)

#[warnings="-register-all"]
Inductive json : Type :=
| JNull
| JBool (b : bool)
| JNum (n : Z)                 (* an integer; a double when it is safe *)
| JStr (s : string)
| JArr (elems : list json)
| JObj (members : list (string * json)).

Definition dquote : ascii := "034"%char.
Definition bslash : ascii := "092"%char.

Definition chars (s : string) : list ascii := list_ascii_of_string s.

(** *** [JSON.stringify] *)

Definition hex_digit (n : N) : ascii :=
  if (n <? 10)%N then ascii_of_N (48 + n) else ascii_of_N (87 + n).

(** QuoteJSONString, one code unit. *)
Definition quote_unit (c : ascii) : list ascii :=
  let n := N_of_ascii c in
  if (n =? 8)%N then [bslash; "b"%char]
  else if (n =? 9)%N then [bslash; "t"%char]
  else if (n =? 10)%N then [bslash; "n"%char]
  else if (n =? 12)%N then [bslash; "f"%char]
  else if (n =? 13)%N then [bslash; "r"%char]
  else if (n =? 34)%N then [bslash; dquote]
  else if (n =? 92)%N then [bslash; bslash]
  else if (n <? 32)%N then
    [bslash; "u"%char; "0"%char; "0"%char; hex_digit (n / 16); hex_digit (n mod 16)]
  else [c].

Fixpoint quote_units (s : string) : list ascii :=
  match s with
  | EmptyString => []
  | String c r => quote_unit c ++ quote_units r
  end.

Definition quote_string (s : string) : list ascii :=
  dquote :: quote_units s ++ [dquote].

Fixpoint print_uint (d : Decimal.uint) : list ascii :=
  match d with
  | Decimal.Nil => []
  | Decimal.D0 d => "0"%char :: print_uint d
  | Decimal.D1 d => "1"%char :: print_uint d
  | Decimal.D2 d => "2"%char :: print_uint d
  | Decimal.D3 d => "3"%char :: print_uint d
  | Decimal.D4 d => "4"%char :: print_uint d
  | Decimal.D5 d => "5"%char :: print_uint d
  | Decimal.D6 d => "6"%char :: print_uint d
  | Decimal.D7 d => "7"%char :: print_uint d
  | Decimal.D8 d => "8"%char :: print_uint d
  | Decimal.D9 d => "9"%char :: print_uint d
  end.

(** [Number::toString] of an integer below 10^21, digit by digit; the
    safe integers are among them. *)
Definition print_number (n : Z) : list ascii :=
  match Z.to_int n with
  | Decimal.Pos d => print_uint d
  | Decimal.Neg d => "-"%char :: print_uint d
  end.

Fixpoint print (v : json) : list ascii :=
  match v with
  | JNull => chars "null"
  | JBool true => chars "true"
  | JBool false => chars "false"
  | JNum n => print_number n
  | JStr s => quote_string s
  | JArr elems =>
      "["%char ::
      (match elems with
       | [] => []
       | e :: es =>
           print e ++
           (fix tail (l : list json) : list ascii :=
              match l with
              | [] => []
              | x :: l' => ","%char :: print x ++ tail l'
              end) es
       end) ++ ["]"%char]
  | JObj members =>
      "{"%char ::
      (match members with
       | [] => []
       | (k, e) :: ms =>
           quote_string k ++ ":"%char :: print e ++
           (fix tail (l : list (string * json)) : list ascii :=
              match l with
              | [] => []
              | (k', x) :: l' =>
                  ","%char :: quote_string k' ++ ":"%char :: print x ++ tail l'
              end) ms
       end) ++ ["}"%char]
  end.

(** The two inner loops of [print], by name. *)
Fixpoint print_rest (l : list json) : list ascii :=
  match l with
  | [] => []
  | x :: l' => ","%char :: print x ++ print_rest l'
  end.

Fixpoint print_members_rest (l : list (string * json)) : list ascii :=
  match l with
  | [] => []
  | (k, x) :: l' =>
      ","%char :: quote_string k ++ ":"%char :: print x ++ print_members_rest l'
  end.

Definition JSON_stringify (v : json) : string :=
  string_of_list_ascii (print v).

(** *** The values that the embedding holds

    A number of the program is a double.  The embedding holds the
    integers from -(2^53 - 1) to 2^53 - 1, which a double holds exactly
    and which [Number::toString] prints digit by digit; sums, differences,
    [Math.floor] of a quotient and [%] are those of [Z] as long as the
    operands and the result stay in that range.  An object lists the
    keys that are array indices first, in numeric order, and has no two
    members with one key. *)

(** [Number.MAX_SAFE_INTEGER]. *)
Definition MAX_SAFE_INTEGER : Z := 9007199254740991.

(** [Number.isSafeInteger] on an integer. *)
Definition isSafeInteger (n : Z) : bool := (Z.abs n <=? MAX_SAFE_INTEGER)%Z.

Definition isDigit (c : ascii) : bool :=
  let n := N_of_ascii c in ((48 <=? n) && (n <=? 57))%N.

(** A key made of digits may be an array index. *)
Definition isIndexKey (k : string) : bool :=
  match k with
  | EmptyString => false
  | String _ _ => forallb isDigit (chars k)
  end.

Fixpoint distinct (l : list string) : bool :=
  match l with
  | [] => true
  | x :: r => negb (existsb (String.eqb x) r) && distinct r
  end.

(** The keys of an object whose members are listed in the order of
    their creation. *)
Definition keysOk (ks : list string) : bool :=
  distinct ks && forallb (fun k => negb (isIndexKey k)) ks.

(** The values of [json] that are values of the program. *)
Fixpoint jsValue (v : json) : bool :=
  match v with
  | JNull | JBool _ | JStr _ => true
  | JNum n => isSafeInteger n
  | JArr elems => forallb jsValue elems
  | JObj members =>
      keysOk (map fst members)
      && forallb (fun m => match m with (_, x) => jsValue x end) members
  end.

(** *** [JSON.parse] *)

(** What [JSON.parse] does with a text, as far as the embedding follows
    it.  [SyntaxError]: the text is not JSON, [JSON.parse] throws.
    [Unmodelled]: the reading stops at a number with a fraction or an
    exponent, at an integer that is not safe, at a negative zero, at the
    escape of a code unit from 256 on, at an object with a repeated key
    or a key that may be an array index; the text may well be JSON, of a
    value that [json] does not hold, and nothing is said of it.  The text
    is read from left to right and the reading stops at the first of
    these, so [SyntaxError] is only given for a text that is not JSON. *)
Inductive parsed (A : Type) :=
| Parsed (a : A)
| SyntaxError
| Unmodelled.
Arguments Parsed {A} a.
Arguments SyntaxError {A}.
Arguments Unmodelled {A}.

Definition andThen {A B : Type} (x : parsed A) (f : A -> parsed B) : parsed B :=
  match x with
  | Parsed a => f a
  | SyntaxError => SyntaxError
  | Unmodelled => Unmodelled
  end.

Definition is_ws (c : ascii) : bool :=
  let n := N_of_ascii c in
  ((n =? 32) || (n =? 9) || (n =? 10) || (n =? 13))%N.

Fixpoint skip_ws (s : list ascii) : list ascii :=
  match s with
  | c :: r => if is_ws c then skip_ws r else s
  | [] => []
  end.

Definition digit_of (c : ascii) : option (Decimal.uint -> Decimal.uint) :=
  let n := N_of_ascii c in
  if (n =? 48)%N then Some Decimal.D0
  else if (n =? 49)%N then Some Decimal.D1
  else if (n =? 50)%N then Some Decimal.D2
  else if (n =? 51)%N then Some Decimal.D3
  else if (n =? 52)%N then Some Decimal.D4
  else if (n =? 53)%N then Some Decimal.D5
  else if (n =? 54)%N then Some Decimal.D6
  else if (n =? 55)%N then Some Decimal.D7
  else if (n =? 56)%N then Some Decimal.D8
  else if (n =? 57)%N then Some Decimal.D9
  else None.

Fixpoint scan_digits (s : list ascii) : Decimal.uint * list ascii :=
  match s with
  | c :: r =>
      match digit_of c with
      | Some D => let (d, r') := scan_digits r in (D d, r')
      | None => (Decimal.Nil, s)
      end
  | [] => (Decimal.Nil, [])
  end.

(** The characters that may follow an integer literal; a point or an
    exponent mark would start a fraction or an exponent. *)
Definition ends_number (s : list ascii) : bool :=
  match s with
  | [] => true
  | c :: _ =>
      let n := N_of_ascii c in
      negb ((n =? 46) || (n =? 69) || (n =? 101))%N
  end.

(** The integer part of a number: [0], or digits without a leading
    zero.  No digit, or a zero before another digit, is no JSON. *)
Definition parse_uint (s : list ascii) : parsed (Decimal.uint * list ascii) :=
  match scan_digits s with
  | (Decimal.Nil, _) => SyntaxError
  | (Decimal.D0 Decimal.Nil, r) =>
      if ends_number r then Parsed (Decimal.D0 Decimal.Nil, r) else Unmodelled
  | (Decimal.D0 _, _) => SyntaxError
  | (d, r) => if ends_number r then Parsed (d, r) else Unmodelled
  end.

(** The value of an integer literal, [neg] for one after a minus sign. *)
Definition number_value (neg : bool) (d : Decimal.uint) : parsed json :=
  let n := Z.of_int (if neg then Decimal.Neg d else Decimal.Pos d) in
  if neg && (n =? 0)%Z then Unmodelled
  else if isSafeInteger n then Parsed (JNum n) else Unmodelled.

Definition hex_value (c : ascii) : option N :=
  let n := N_of_ascii c in
  if ((48 <=? n) && (n <=? 57))%N then Some (n - 48)%N
  else if ((97 <=? n) && (n <=? 102))%N then Some (n - 87)%N
  else if ((65 <=? n) && (n <=? 70))%N then Some (n - 55)%N
  else None.

(** The code unit of [\uXXXX]. *)
Definition parse_hex4 (s : list ascii) : parsed (ascii * list ascii) :=
  match s with
  | a :: b :: c :: d :: r =>
      match hex_value a, hex_value b, hex_value c, hex_value d with
      | Some x3, Some x2, Some x1, Some x0 =>
          let n := (((x3 * 16 + x2) * 16 + x1) * 16 + x0)%N in
          if (n <? 256)%N then Parsed (ascii_of_N n, r) else Unmodelled
      | _, _, _, _ => SyntaxError
      end
  | _ => SyntaxError
  end.

Definition parse_escape (s : list ascii) : parsed (ascii * list ascii) :=
  match s with
  | c :: r =>
      let n := N_of_ascii c in
      if (n =? 34)%N then Parsed (dquote, r)
      else if (n =? 92)%N then Parsed (bslash, r)
      else if (n =? 47)%N then Parsed ("/"%char, r)
      else if (n =? 98)%N then Parsed ("008"%char, r)
      else if (n =? 102)%N then Parsed ("012"%char, r)
      else if (n =? 110)%N then Parsed ("010"%char, r)
      else if (n =? 114)%N then Parsed ("013"%char, r)
      else if (n =? 116)%N then Parsed ("009"%char, r)
      else if (n =? 117)%N then parse_hex4 r
      else SyntaxError
  | [] => SyntaxError
  end.

(** The body of a string literal, after the opening quote.  The fuel
    is the length of the text, which is never used up. *)
Fixpoint parse_units (fuel : nat) (s : list ascii) : parsed (string * list ascii) :=
  match fuel with
  | O => Unmodelled
  | S fuel =>
      match s with
      | [] => SyntaxError
      | c :: r =>
          let n := N_of_ascii c in
          if (n =? 34)%N then Parsed (EmptyString, r)
          else if (n =? 92)%N then
            andThen (parse_escape r) (fun ur =>
            andThen (parse_units fuel (snd ur)) (fun sr =>
            Parsed (String (fst ur) (fst sr), snd sr)))
          else if (n <? 32)%N then SyntaxError
          else
            andThen (parse_units fuel r) (fun sr =>
            Parsed (String c (fst sr), snd sr))
      end
  end.

Definition parse_string (s : list ascii) : parsed (string * list ascii) :=
  match s with
  | c :: r => if (N_of_ascii c =? 34)%N then parse_units (S (length r)) r else SyntaxError
  | [] => SyntaxError
  end.

Fixpoint strip_prefix (l s : list ascii) : option (list ascii) :=
  match l with
  | [] => Some s
  | c :: l' =>
      match s with
      | c' :: s' => if Ascii.eqb c c' then strip_prefix l' s' else None
      | [] => None
      end
  end.

Definition parse_literal (lit : string) (v : json) (s : list ascii)
  : parsed (json * list ascii) :=
  match strip_prefix (chars lit) s with
  | Some r => Parsed (v, r)
  | None => SyntaxError
  end.

Fixpoint parse_value (fuel : nat) (s : list ascii) : parsed (json * list ascii) :=
  match fuel with
  | O => Unmodelled
  | S fuel =>
      match s with
      | [] => SyntaxError
      | c :: r =>
          let n := N_of_ascii c in
          if (n =? 110)%N then parse_literal "null" JNull s
          else if (n =? 116)%N then parse_literal "true" (JBool true) s
          else if (n =? 102)%N then parse_literal "false" (JBool false) s
          else if (n =? 34)%N then
            andThen (parse_string s) (fun sr => Parsed (JStr (fst sr), snd sr))
          else if (n =? 45)%N then
            andThen (parse_uint r) (fun dr =>
            andThen (number_value true (fst dr)) (fun v => Parsed (v, snd dr)))
          else if (n =? 91)%N then
            match skip_ws r with
            | c' :: r' =>
                if (N_of_ascii c' =? 93)%N then Parsed (JArr [], r')
                else
                  andThen (parse_elements fuel (c' :: r')) (fun vr =>
                  Parsed (JArr (fst vr), snd vr))
            | [] => SyntaxError
            end
          else if (n =? 123)%N then
            match skip_ws r with
            | c' :: r' =>
                if (N_of_ascii c' =? 125)%N then Parsed (JObj [], r')
                else
                  andThen (parse_members fuel (c' :: r')) (fun mr =>
                  if keysOk (map fst (fst mr)) then Parsed (JObj (fst mr), snd mr)
                  else Unmodelled)
            | [] => SyntaxError
            end
          else
            andThen (parse_uint s) (fun dr =>
            andThen (number_value false (fst dr)) (fun v => Parsed (v, snd dr)))
      end
  end

(** Elements of a non-empty array, up to and including the closing
    bracket; the input starts at the first character of an element. *)
with parse_elements (fuel : nat) (s : list ascii) : parsed (list json * list ascii) :=
  match fuel with
  | O => Unmodelled
  | S fuel =>
      andThen (parse_value fuel s) (fun vr =>
      match skip_ws (snd vr) with
      | c :: r' =>
          if (N_of_ascii c =? 44)%N then
            andThen (parse_elements fuel (skip_ws r')) (fun vsr =>
            Parsed (fst vr :: fst vsr, snd vsr))
          else if (N_of_ascii c =? 93)%N then Parsed ([fst vr], r')
          else SyntaxError
      | [] => SyntaxError
      end)
  end

(** Members of a non-empty object, up to and including the closing
    brace; the input starts at the quote of the first key. *)
with parse_members (fuel : nat) (s : list ascii)
  : parsed (list (string * json) * list ascii) :=
  match fuel with
  | O => Unmodelled
  | S fuel =>
      andThen (parse_string s) (fun kr =>
      match skip_ws (snd kr) with
      | c :: r1 =>
          if (N_of_ascii c =? 58)%N then
            andThen (parse_value fuel (skip_ws r1)) (fun vr =>
            match skip_ws (snd vr) with
            | c' :: r3 =>
                if (N_of_ascii c' =? 44)%N then
                  andThen (parse_members fuel (skip_ws r3)) (fun msr =>
                  Parsed ((fst kr, fst vr) :: fst msr, snd msr))
                else if (N_of_ascii c' =? 125)%N then Parsed ([(fst kr, fst vr)], r3)
                else SyntaxError
            | [] => SyntaxError
            end)
          else SyntaxError
      | [] => SyntaxError
      end)
  end.

(** What comes after a value inside a text: nothing, a comma, or a
    closing bracket or brace. *)
Definition follows (s : list ascii) : bool :=
  match s with
  | [] => true
  | c :: _ =>
      let n := N_of_ascii c in
      ((n =? 44) || (n =? 93) || (n =? 125))%N
  end.

(** The digits of a number: not empty, and [0] alone or no leading zero. *)
Definition canonical (d : Decimal.uint) : Prop :=
  d <> Decimal.Nil /\ (forall d', d = Decimal.D0 d' -> d' = Decimal.Nil).

(** The first character of a value. *)
Definition starts_value (s : list ascii) : bool :=
  match s with
  | c :: _ =>
      let n := N_of_ascii c in
      (negb (is_ws c) && negb (n =? 93) && negb (n =? 125))%N
  | [] => false
  end.

(** [JSON.parse text]. *)
Definition JSON_parse (text : string) : parsed json :=
  let s := chars text in
  andThen (parse_value (S (length s)) (skip_ws s)) (fun vr =>
  match skip_ws (snd vr) with
  | [] => Parsed (fst vr)
  | _ :: _ => SyntaxError
  end).

(* ================================================================= *)
(** ** String primitives used by [page.tsx] *)

(** ToBoolean on a string: only the empty string is falsy. *)
Definition truthy (s : string) : bool :=
  match s with
  | EmptyString => false
  | String _ _ => true
  end.

(** WhiteSpace and LineTerminator code units (those below 256). *)
Definition isWhiteSpace (c : ascii) : bool :=
  let n := N_of_ascii c in
  (((9 <=? n) && (n <=? 13)) || (n =? 32) || (n =? 160))%N.

Fixpoint trimStart (s : string) : string :=
  match s with
  | String c r => if isWhiteSpace c then trimStart r else s
  | EmptyString => EmptyString
  end.

(** Drops the trailing white space: a unit is kept when it is not white
    space or when something is kept after it. *)
Fixpoint trimEnd (s : string) : string :=
  match s with
  | String c r =>
      match trimEnd r with
      | EmptyString => if isWhiteSpace c then EmptyString else String c EmptyString
      | r' => String c r'
      end
  | EmptyString => EmptyString
  end.

Definition trim (s : string) : string := trimEnd (trimStart s).

(** [s.slice(from, to)] for indices that are not negative. *)
Definition slice (from to : nat) (s : string) : string :=
  substring from (to - from) s.

Definition isAlnum (c : ascii) : bool :=
  let n := N_of_ascii c in
  (((48 <=? n) && (n <=? 57)) || ((65 <=? n) && (n <=? 90))
   || ((97 <=? n) && (n <=? 122)))%N.

(** [s.replace(/[^a-z0-9]/gi, '_')]: without the [u] flag a unit of 128
    or above never matches an ASCII class case-insensitively. *)
Fixpoint replaceNonAlnum (s : string) : string :=
  match s with
  | String c r => String (if isAlnum c then c else "_"%char) (replaceNonAlnum r)
  | EmptyString => EmptyString
  end.

Definition lowerUnit (c : ascii) : ascii :=
  let n := N_of_ascii c in
  if (((65 <=? n) && (n <=? 90))
      || ((192 <=? n) && (n <=? 222) && negb (n =? 215)))%N
  then ascii_of_N (n + 32) else c.

Fixpoint toLowerCase (s : string) : string :=
  match s with
  | String c r => String (lowerUnit c) (toLowerCase r)
  | EmptyString => EmptyString
  end.

(** [Array.prototype.includes] on an array of strings. *)
Definition includes (l : list string) (x : string) : bool :=
  existsb (String.eqb x) l.

(* ================================================================= *)
(** ** Job records *)

Inductive Status := Loading | Complete | Error.

(** The interface of page.tsx 9-17 and, in [keys], the own properties
    of the object in the order of their creation: a spread copies them
    in that order and [JSON.stringify] writes them in that order.  A
    property set to [undefined] has its key and no value. *)
Module GeneratedImage.
Record t := mk {
  id : string;
  prompt : string;
  status : Status;
  url : option string;
  error : option string;
  startTime : Z;
  completionTime : option Z;
  keys : list string }.
End GeneratedImage.

Definition Image : Type := GeneratedImage.t.

Definition statusName (st : Status) : string :=
  match st with
  | Loading => "loading"
  | Complete => "complete"
  | Error => "error"
  end.

Definition statusOfName (s : string) : option Status :=
  if String.eqb s "loading" then Some Loading
  else if String.eqb s "complete" then Some Complete
  else if String.eqb s "error" then Some Error
  else None.

(** The property names of the interface. *)
Definition interfaceKeys : list string :=
  ["id"; "prompt"; "status"; "url"; "error"; "startTime"; "completionTime"]%string.

(** [{ ...obj, k: v }] on the keys: a key that is there keeps its
    place, a new key goes to the end. *)
Definition setKey (ks : list string) (k : string) : list string :=
  if includes ks k then ks else ks ++ [k].

Definition setKeys (ks new : list string) : list string :=
  fold_left setKey new ks.
Arguments setKeys : simpl never.

(** *** The store as a JSON value *)

(** The value of property [k], [None] for [undefined]. *)
Definition member (img : Image) (k : string) : option json :=
  if String.eqb k "id" then Some (JStr (GeneratedImage.id img))
  else if String.eqb k "prompt" then Some (JStr (GeneratedImage.prompt img))
  else if String.eqb k "status" then
    Some (JStr (statusName (GeneratedImage.status img)))
  else if String.eqb k "url" then option_map JStr (GeneratedImage.url img)
  else if String.eqb k "error" then option_map JStr (GeneratedImage.error img)
  else if String.eqb k "startTime" then Some (JNum (GeneratedImage.startTime img))
  else if String.eqb k "completionTime" then
    option_map JNum (GeneratedImage.completionTime img)
  else None.

Definition optMember (k : string) (v : option json) : list (string * json) :=
  match v with
  | Some j => [(k, j)]
  | None => []
  end.

(** [JSON.stringify] writes the own properties in their order and
    leaves out those whose value is [undefined]. *)
Definition jsonOfImage (img : Image) : json :=
  JObj (flat_map (fun k => optMember k (member img k)) (GeneratedImage.keys img)).

Definition jsonOfImages (imgs : list Image) : json :=
  JArr (map jsonOfImage imgs).

(** Property read [obj[k]] on a parsed object: of two members with one
    key, [JSON.parse] keeps the later. *)
Fixpoint getMember (k : string) (ms : list (string * json)) : option json :=
  match ms with
  | [] => None
  | (k', v) :: r =>
      match getMember k r with
      | Some v' => Some v'
      | None => if String.eqb k k' then Some v else None
      end
  end.

Definition optString (v : option json) : option (option string) :=
  match v with
  | None => Some None
  | Some (JStr s) => Some (Some s)
  | Some _ => None
  end.

(** A number of the embedding is a safe integer; [JSON_parse] gives no
    other. *)
Definition optNumber (v : option json) : option (option Z) :=
  match v with
  | None => Some None
  | Some (JNum n) => if isSafeInteger n then Some (Some n) else None
  | Some _ => None
  end.

(** The reading of a parsed value at the declared type
    [GeneratedImage]: an object whose properties are those of the
    interface, each of its declared type, the four that are not optional
    all there.  [None] when the value is anything else (the program
    takes it all the same, the embedding does not follow it). *)
Definition imageOfJson (v : json) : option Image :=
  match v with
  | JObj ms =>
      let ks := map fst ms in
      if distinct ks && forallb (includes interfaceKeys) ks then
        match getMember "id" ms, getMember "prompt" ms,
              getMember "status" ms, getMember "startTime" ms with
        | Some (JStr i), Some (JStr p), Some (JStr st), Some (JNum t) =>
            match statusOfName st, optString (getMember "url" ms),
                  optString (getMember "error" ms),
                  optNumber (getMember "completionTime" ms) with
            | Some st', Some u, Some e, Some c =>
                if isSafeInteger t then Some (GeneratedImage.mk i p st' u e t c ks)
                else None
            | _, _, _, _ => None
            end
        | _, _, _, _ => None
        end
      else None
  | _ => None
  end.

Fixpoint imagesOfElems (l : list json) : option (list Image) :=
  match l with
  | [] => Some []
  | v :: r =>
      match imageOfJson v, imagesOfElems r with
      | Some img, Some imgs => Some (img :: imgs)
      | _, _ => None
      end
  end.

Definition imagesOfJson (v : json) : option (list Image) :=
  match v with
  | JArr l => imagesOfElems l
  | _ => None
  end.

(** *** The [useState] initializer of [images] (page.tsx 42-48) *)

(** [NotFollowed]: the text in storage is one that [JSON_parse] leaves
    [Unmodelled]. *)
Inductive Outcome (A : Type) :=
| Returns (a : A)
| Throws
| NotFollowed.
Arguments Returns {A} a.
Arguments Throws {A}.
Arguments NotFollowed {A}.

(** [hasWindow] is [typeof window !== 'undefined']; [saved] is
    [localStorage.getItem('generated-images')], [None] for [null]. *)
Definition initialImages (hasWindow : bool) (saved : option string) : Outcome json :=
  if hasWindow then
    match saved with
    | Some text =>
        if truthy text then
          match JSON_parse text with
          | Parsed v => Returns v
          | SyntaxError => Throws
          | Unmodelled => NotFollowed
          end
        else Returns (JArr [])
    | None => Returns (JArr [])
    end
  else Returns (JArr []).

(** The text written by the persistence effect (page.tsx 51-53). *)
Definition persisted (imgs : list Image) : string :=
  JSON_stringify (jsonOfImages imgs).

(* ================================================================= *)
(** ** The [Home] component *)

(** What [fetch] followed by [response.json()] can give. *)
Inductive Response (A : Type) :=
| FetchThrows            (* fetch rejects: the request did not complete *)
| NotOk                  (* [response.ok] is false *)
| JsonThrows             (* the body is not JSON *)
| Ok (data : A).
Arguments FetchThrows {A}.
Arguments NotOk {A}.
Arguments JsonThrows {A}.
Arguments Ok {A} data.

(** The body of [/api/results/:jobId], as the polling loop reads it. *)
Inductive PollData :=
| SUCCESS (url : option string)        (* status "SUCCESS", [data.url] *)
| ERROR (message : option string)      (* status "ERROR", [data.message] *)
| OTHER.                               (* any other status *)

Inductive Request :=
| POST_generate (text : string)
| GET_results (jobId : string)
| GET_url (url : string).

(** An interval callback that is suspended at an [await]: [todo] starts
    with the job whose answer is awaited, [completedJobs] is the local
    array of the callback; [rid] names the call. *)
Record Round := mkRound {
  rid : nat;
  todo : list string;
  completedJobs : list string }.

Record Home := mkHome {
  (* React state *)
  prompt : string;
  images : list Image;
  pendingJobs : list string;
  (* the browser *)
  localStorage : option string;            (* item 'generated-images' *)
  intervals : list (nat * list string);    (* live setInterval timers with
                                              the [pendingJobs] they closed over *)
  nextIntervalId : nat;
  pollCleanup : option nat;                (* interval the effect cleanup clears *)
  (* suspended async calls *)
  rounds : list Round;
  nextRoundId : nat;
  submissions : list string;               (* prompts of generateImage calls
                                              awaiting the gateway *)
  (* what the session did to the outside *)
  requests : list Request;
  alerts : list string;
  console : list string;
  downloads : list string }.

Definition withImages (f : list Image -> list Image) (s : Home) : Home :=
  mkHome (prompt s) (f (images s)) (pendingJobs s) (localStorage s)
         (intervals s) (nextIntervalId s) (pollCleanup s) (rounds s) (nextRoundId s)
         (submissions s) (requests s) (alerts s) (console s) (downloads s).

Definition withPendingJobs (f : list string -> list string) (s : Home) : Home :=
  mkHome (prompt s) (images s) (f (pendingJobs s)) (localStorage s)
         (intervals s) (nextIntervalId s) (pollCleanup s) (rounds s) (nextRoundId s)
         (submissions s) (requests s) (alerts s) (console s) (downloads s).

Definition withPrompt (p : string) (s : Home) : Home :=
  mkHome p (images s) (pendingJobs s) (localStorage s)
         (intervals s) (nextIntervalId s) (pollCleanup s) (rounds s) (nextRoundId s)
         (submissions s) (requests s) (alerts s) (console s) (downloads s).

Definition withStorage (t : option string) (s : Home) : Home :=
  mkHome (prompt s) (images s) (pendingJobs s) t
         (intervals s) (nextIntervalId s) (pollCleanup s) (rounds s) (nextRoundId s)
         (submissions s) (requests s) (alerts s) (console s) (downloads s).

Definition withTimers (ts : list (nat * list string)) (next : nat)
                      (cl : option nat) (s : Home) : Home :=
  mkHome (prompt s) (images s) (pendingJobs s) (localStorage s)
         ts next cl (rounds s) (nextRoundId s)
         (submissions s) (requests s) (alerts s) (console s) (downloads s).

Definition withRounds (rs : list Round) (next : nat) (s : Home) : Home :=
  mkHome (prompt s) (images s) (pendingJobs s) (localStorage s)
         (intervals s) (nextIntervalId s) (pollCleanup s) rs next
         (submissions s) (requests s) (alerts s) (console s) (downloads s).

Definition withSubmissions (l : list string) (s : Home) : Home :=
  mkHome (prompt s) (images s) (pendingJobs s) (localStorage s)
         (intervals s) (nextIntervalId s) (pollCleanup s) (rounds s) (nextRoundId s)
         l (requests s) (alerts s) (console s) (downloads s).

Definition request (r : Request) (s : Home) : Home :=
  mkHome (prompt s) (images s) (pendingJobs s) (localStorage s)
         (intervals s) (nextIntervalId s) (pollCleanup s) (rounds s) (nextRoundId s)
         (submissions s) (requests s ++ [r]) (alerts s) (console s) (downloads s).

Definition alert (msg : string) (s : Home) : Home :=
  mkHome (prompt s) (images s) (pendingJobs s) (localStorage s)
         (intervals s) (nextIntervalId s) (pollCleanup s) (rounds s) (nextRoundId s)
         (submissions s) (requests s) (alerts s ++ [msg]) (console s) (downloads s).

Definition consoleError (msg : string) (s : Home) : Home :=
  mkHome (prompt s) (images s) (pendingJobs s) (localStorage s)
         (intervals s) (nextIntervalId s) (pollCleanup s) (rounds s) (nextRoundId s)
         (submissions s) (requests s) (alerts s) (console s ++ [msg]) (downloads s).

Definition download (name : string) (s : Home) : Home :=
  mkHome (prompt s) (images s) (pendingJobs s) (localStorage s)
         (intervals s) (nextIntervalId s) (pollCleanup s) (rounds s) (nextRoundId s)
         (submissions s) (requests s) (alerts s) (console s) (downloads s ++ [name]).

(** *** Effects *)

(** page.tsx 51-53, run after a render that changed [images]. *)
Definition persistEffect (s : Home) : Home :=
  withStorage (Some (persisted (images s))) s.

Definition clearInterval (i : nat) (ts : list (nat * list string))
  : list (nat * list string) :=
  filter (fun t => negb (Nat.eqb (fst t) i)) ts.

(** page.tsx 55-118, run after a render that changed [pendingJobs]:
    first the cleanup returned by the previous run, then the effect. *)
Definition pollingEffect (s : Home) : Home :=
  let ts := match pollCleanup s with
            | Some i => clearInterval i (intervals s)
            | None => intervals s
            end in
  if Nat.eqb (length (pendingJobs s)) 0
  then withTimers ts (nextIntervalId s) None s
  else withTimers (ts ++ [(nextIntervalId s, pendingJobs s)])
                  (S (nextIntervalId s)) (Some (nextIntervalId s)) s.

(** A state setter called with an updater: the updater is applied to
    the latest state, the component renders, the effect of the changed
    state runs. *)
Definition setImages (f : list Image -> list Image) (s : Home) : Home :=
  persistEffect (withImages f s).

Definition setPendingJobs (f : list string -> list string) (s : Home) : Home :=
  pollingEffect (withPendingJobs f s).

(** *** The interval callback (page.tsx 58-115) *)

(** The guard of line 62. *)
Definition malformed (jobId : string) : bool :=
  negb (truthy jobId) || String.eqb jobId "undefined".

Definition markComplete (jobId : string) (u : option string) (now : Z)
  : list Image -> list Image :=
  map (fun img =>
         if String.eqb (GeneratedImage.id img) jobId
         then GeneratedImage.mk (GeneratedImage.id img) (GeneratedImage.prompt img)
                Complete u (GeneratedImage.error img)
                (GeneratedImage.startTime img) (Some now)
                (setKeys (GeneratedImage.keys img)
                         ["status"; "url"; "completionTime"]%string)
         else img).

Definition markError (jobId : string) (m : option string) (now : Z)
  : list Image -> list Image :=
  map (fun img =>
         if String.eqb (GeneratedImage.id img) jobId
         then GeneratedImage.mk (GeneratedImage.id img) (GeneratedImage.prompt img)
                Error (GeneratedImage.url img) m
                (GeneratedImage.startTime img) (Some now)
                (setKeys (GeneratedImage.keys img)
                         ["status"; "error"; "completionTime"]%string)
         else img).

(** Lines 110-114, at the end of the loop. *)
Definition finishRound (completed : list string) (s : Home) : Home :=
  if Nat.ltb 0 (length completed)
  then setPendingJobs (filter (fun jobId => negb (includes completed jobId))) s
  else s.

(** The loop from the job at the head of [jobs] up to its next [await]:
    malformed ids are pushed to [completedJobs] without a query, the
    first other id is queried and the call [r] is suspended. *)
Fixpoint runLoop (r : nat) (jobs : list string) (completed : list string)
                 (s : Home) : Home :=
  match jobs with
  | [] => finishRound completed s
  | jobId :: rest =>
      if malformed jobId then runLoop r rest (completed ++ [jobId]) s
      else withRounds (rounds s ++ [mkRound r jobs completed]) (nextRoundId s)
                      (request (GET_results jobId) s)
  end.

(** Lines 67-107 for the awaited job, once the answer is there. *)
Definition reconcile (jobId : string) (a : Response PollData) (now : Z)
                     (completed : list string) (s : Home) : list string * Home :=
  match a with
  | Ok (SUCCESS u) =>
      (completed ++ [jobId], setImages (markComplete jobId u now) s)
  | Ok (ERROR m) =>
      (completed ++ [jobId], setImages (markError jobId m now) s)
  | Ok OTHER => (completed, s)
  | _ => (completed, consoleError ("Error checking status for job " ++ jobId) s)
  end.

Definition findRound (r : nat) (rs : list Round) : option Round :=
  find (fun x => Nat.eqb (rid x) r) rs.

Definition dropRound (r : nat) (rs : list Round) : list Round :=
  filter (fun x => negb (Nat.eqb (rid x) r)) rs.

Definition findInterval (i : nat) (ts : list (nat * list string))
  : option (nat * list string) :=
  find (fun t => Nat.eqb (fst t) i) ts.

(** The interval fires: a new call of the callback, from line 59. *)
Definition intervalFires (jobs : list string) (s : Home) : Home :=
  runLoop (nextRoundId s) jobs [] (withRounds (rounds s) (S (nextRoundId s)) s).

(** The awaited answer arrives: the call resumes after line 68. *)
Definition roundResumes (x : Round) (a : Response PollData) (now : Z)
                        (s : Home) : Home :=
  match todo x with
  | jobId :: rest =>
      let (completed', s') :=
        reconcile jobId a now (completedJobs x)
                  (withRounds (dropRound (rid x) (rounds s)) (nextRoundId s) s) in
      runLoop (rid x) rest completed' s'
  | [] => s
  end.

Fixpoint removeNth {A : Type} (k : nat) (l : list A) : list A :=
  match k, l with
  | _, [] => []
  | O, _ :: r => r
  | S k', x :: r => x :: removeNth k' r
  end.

(** *** [generateImage] (page.tsx 120-156) *)

Definition newImage (jobId text : string) (now : Z) : Image :=
  GeneratedImage.mk jobId text Loading None None now None
                    ["id"; "prompt"; "status"; "startTime"]%string.

Definition failureNotice : string := "Failed to generate image. Please try again.".

(** The call up to [await fetch]. *)
Definition generateImage (s : Home) : Home :=
  if negb (truthy (trim (prompt s))) then s
  else withSubmissions (submissions s ++ [prompt s])
                       (request (POST_generate (prompt s)) s).

(** The rest of the call; [text] is the prompt the call closed over,
    the data of the answer is [data["job-id"]], [None] for [undefined]. *)
Definition generateImageResume (text : string) (a : Response (option string))
                               (now : Z) (s : Home) : Home :=
  match a with
  | Ok (Some jobId) =>
      if truthy jobId then
        withPrompt ""
          (setPendingJobs (fun prev => prev ++ [jobId])
             (setImages (fun prev => newImage jobId text now :: prev) s))
      else alert failureNotice (consoleError "Error generating image:" s)
  | _ => alert failureNotice (consoleError "Error generating image:" s)
  end.

(** *** [deleteImage] (page.tsx 158-160) *)

Definition deleteImage (jobId : string) (s : Home) : Home :=
  setImages (filter (fun img => negb (String.eqb (GeneratedImage.id img) jobId))) s.

(** *** [downloadImage] (page.tsx 162-180) *)

Definition downloadName (text : string) : string :=
  (toLowerCase (replaceNonAlnum (slice 0 30 text)) ++ ".jpg")%string.

Definition downloadImage (u text : string) (fetched : bool) (s : Home) : Home :=
  let s := request (GET_url u) s in
  if fetched then download (downloadName text) s
  else alert "Failed to download image"
         (consoleError "Error downloading image:" s).

(** *** Events of a session *)

Inductive Event :=
| Type_ (text : string)                 (* onChange of the input *)
| Generate                              (* the button or Enter *)
| Generated (k : nat) (a : Response (option string)) (now : Z)
                                        (* the gateway answers submission k *)
| Delete (jobId : string)
| Download (u text : string) (fetched : bool)
| Tick (i : nat)                        (* interval i fires *)
| Polled (r : nat) (a : Response PollData) (now : Z).
                                        (* the query of call r is answered *)

Definition step (e : Event) (s : Home) : Home :=
  match e with
  | Type_ text => withPrompt text s
  | Generate => generateImage s
  | Generated k a now =>
      match nth_error (submissions s) k with
      | Some text =>
          generateImageResume text a now
            (withSubmissions (removeNth k (submissions s)) s)
      | None => s
      end
  | Delete jobId => deleteImage jobId s
  | Download u text fetched => downloadImage u text fetched s
  | Tick i =>
      match findInterval i (intervals s) with
      | Some (_, jobs) => intervalFires jobs s
      | None => s
      end
  | Polled r a now =>
      match findRound r (rounds s) with
      | Some x => roundResumes x a now s
      | None => s
      end
  end.

Fixpoint run (tr : list Event) (s : Home) : Home :=
  match tr with
  | [] => s
  | e :: tr' => run tr' (step e s)
  end.

(** *** Mounting *)

Inductive Mount :=
| Mounted (s : Home)
| MountThrows                 (* the initializer threw *)
| MountUntyped (v : json)     (* the parsed value is no [GeneratedImage[]] *)
| MountNotFollowed.           (* the text is one the embedding does not read *)

(** First render in the browser with [saved] in storage, followed by
    the two effects. *)
Definition mount (saved : option string) : Mount :=
  match initialImages true saved with
  | Throws => MountThrows
  | NotFollowed => MountNotFollowed
  | Returns v =>
      match imagesOfJson v with
      | Some imgs =>
          Mounted (pollingEffect (persistEffect
            (mkHome "" imgs [] saved [] 0 None [] 0 [] [] [] [] [])))
      | None => MountUntyped v
      end
  end.

Definition reachable (s : Home) : Prop :=
  exists saved s0 tr, mount saved = Mounted s0 /\ s = run tr s0.

(** The session that starts with nothing in storage. *)
Definition fresh : Home :=
  pollingEffect (persistEffect (mkHome "" [] [] None [] 0 None [] 0 [] [] [] [] [])).

(* ================================================================= *)
(** ** Vocabulary of the properties *)

Definition hasId (j : string) (img : Image) : bool :=
  String.eqb (GeneratedImage.id img) j.

(** The records of job [j], in store order. *)
Definition recordsOf (j : string) (imgs : list Image) : list Image :=
  filter (hasId j) imgs.

Definition ids (imgs : list Image) : list string :=
  map GeneratedImage.id imgs.

Definition isLoading (img : Image) : bool :=
  match GeneratedImage.status img with
  | Loading => true
  | _ => false
  end.


(** The gateway hands out [j] in [e]. *)
Definition submitsId (j : string) (e : Event) : bool :=
  match e with
  | Generated _ (Ok (Some j')) _ => String.eqb j' j
  | _ => false
  end.

Definition deletesId (j : string) (e : Event) : bool :=
  match e with
  | Delete j' => String.eqb j' j
  | _ => false
  end.

(** A query that did not complete. *)
Definition queryFails {A : Type} (a : Response A) : bool :=
  match a with
  | Ok _ => false
  | _ => true
  end.

(** A submission that gives no job id. *)
Definition submitFails (a : Response (option string)) : bool :=
  match a with
  | Ok (Some jobId) => negb (truthy jobId)
  | _ => true
  end.

Definition whitespaceOnly (s : string) : bool :=
  forallb isWhiteSpace (chars s).

Definition awaits (j : string) (x : Round) : bool :=
  match todo x with
  | j' :: _ => String.eqb j' j
  | [] => false
  end.

(** [e] answers a query for [j] in state [s]. *)
Definition answersFor (j : string) (e : Event) (s : Home) : bool :=
  match e with
  | Polled r _ _ =>
      match findRound r (rounds s) with
      | Some x => awaits j x
      | None => false
      end
  | _ => false
  end.

Definition answerFails (e : Event) : bool :=
  match e with
  | Polled _ a _ => queryFails a
  | _ => false
  end.


(** Each id the gateway hands out along [tr] is new to the store. *)
Fixpoint gatewayIdsNew (tr : list Event) (s : Home) : bool :=
  match tr with
  | [] => true
  | e :: tr' =>
      (match e with
       | Generated k (Ok (Some j)) _ =>
           match nth_error (submissions s) k with
           | Some _ => negb (truthy j && existsb (hasId j) (images s))
           | None => true
           end
       | _ => true
       end) && gatewayIdsNew tr' (step e s)
  end.


Definition isRetired (j : string) (s : Home) : Prop :=
  ~ In j (pendingJobs s) /\
  (forall t, In t (intervals s) -> ~ In j (snd t)) /\
  (forall x, In x (rounds s) -> ~ In j (todo x)).

(** The seven properties of the interface. *)
Definition fields (img : Image)
  : string * string * Status * option string * option string * Z * option Z :=
  (GeneratedImage.id img, GeneratedImage.prompt img, GeneratedImage.status img,
   GeneratedImage.url img, GeneratedImage.error img,
   GeneratedImage.startTime img, GeneratedImage.completionTime img).

Definition present (img : Image) (k : string) : bool :=
  match member img k with
  | Some _ => true
  | None => false
  end.

(** The record as [JSON.parse] gives it back from the text of
    [JSON.stringify]: the keys that had no value are gone. *)
Definition normalise (img : Image) : Image :=
  GeneratedImage.mk (GeneratedImage.id img) (GeneratedImage.prompt img)
    (GeneratedImage.status img) (GeneratedImage.url img) (GeneratedImage.error img)
    (GeneratedImage.startTime img) (GeneratedImage.completionTime img)
    (filter (present img) (GeneratedImage.keys img)).

(** The keys of a record are an account of an object: no key twice,
    keys of the interface only, and a key for every property that has a
    value. *)
Definition ownKeysOk (img : Image) : bool :=
  distinct (GeneratedImage.keys img)
  && forallb (includes interfaceKeys) (GeneratedImage.keys img)
  && forallb (fun k => implb (present img k) (includes (GeneratedImage.keys img) k))
             interfaceKeys.

(** A record of the program: its keys account for an object and its
    stamps are safe integers, as those of [Date.now()] are. *)
Definition storable (img : Image) : bool :=
  ownKeysOk img
  && isSafeInteger (GeneratedImage.startTime img)
  && match GeneratedImage.completionTime img with
     | Some c => isSafeInteger c
     | None => true
     end.

(** Status, result reference and error detail of a record. *)
Definition outcome (img : Image) : Status * option string * option string :=
  (GeneratedImage.status img, GeneratedImage.url img, GeneratedImage.error img).

Definition roundLive (r : nat) (s : Home) : bool :=
  existsb (fun x => Nat.eqb (rid x) r) (rounds s).

(** The file name as the specification words it: non-alphanumerics
    stripped, cut to 30, lower-cased, fixed extension. *)
Fixpoint stripNonAlnum (s : string) : string :=
  match s with
  | String c r => if isAlnum c then String c (stripNonAlnum r) else stripNonAlnum r
  | EmptyString => EmptyString
  end.

Definition downloadName_spec (text : string) : string :=
  (toLowerCase (slice 0 30 (stripNonAlnum text)) ++ ".jpg")%string.

Fixpoint mapUnits (f : ascii -> ascii) (s : string) : string :=
  match s with
  | String c r => String (f c) (mapUnits f r)
  | EmptyString => EmptyString
  end.

Definition isNameUnit (c : ascii) : bool :=
  let n := N_of_ascii c in
  (((48 <=? n) && (n <=? 57)) || ((97 <=? n) && (n <=? 122)) || (n =? 95))%N.

(** The timers a render leaves behind: none without pending jobs,
    else the one interval of the last run of the polling effect. *)
Definition timersOk (s : Home) : Prop :=
  match pendingJobs s with
  | [] => intervals s = [] /\ pollCleanup s = None
  | _ :: _ => exists i, intervals s = [(i, pendingJobs s)] /\ pollCleanup s = Some i
  end.


(** The calls in flight of a session: named below [nextRoundId] and
    suspended at the query of an id that passed the guard. *)
Definition roundsOk (s : Home) : Prop :=
  forall x, In x (rounds s) ->
    rid x < nextRoundId s /\
    exists j rest, todo x = j :: rest /\ malformed j = false.

(** No query was sent for an id that the guard of line 62 stops. *)
Definition noMalformedQuery (s : Home) : Prop :=
  forall j, malformed j = true -> ~ In (GET_results j) (requests s).

(** The call [r] and the malformed id [j] of its closure: while the
    call is in flight [j] is ahead in the loop or already pushed to
    [completedJobs]; once the call is over [j] is out of [pendingJobs]. *)
Definition tracks (r : nat) (j : string) (s : Home) : Prop :=
  r < nextRoundId s /\
  (forall x, In x (rounds s) -> rid x = r ->
     In j (todo x) \/ In j (completedJobs x)) /\
  (roundLive r s = false -> ~ In j (pendingJobs s)).

Definition wellFormed (jobId : string) : bool := negb (malformed jobId).

(** The events that answer, one after the other, the queries of call [r]. *)
Definition answersOf (r : nat) (answers : list (Response PollData * Z)) : list Event :=
  map (fun a => Polled r (fst a) (snd a)) answers.

(** The queries of a call whose closure is [jobs]. *)
Definition queries (jobs : list string) : list Request :=
  map GET_results (filter wellFormed jobs).

(** Interval [i] fires and the call it starts is answered at each of
    its queries, with nothing in between. *)
Definition nextRound (i : nat) (answers : list (Response PollData * Z))
                     (s : Home) : Home :=
  run (Tick i :: answersOf (nextRoundId s) answers) s.

(** ** Scenarios *)

(** One job submitted and answered by the gateway with id abc123. *)
Definition submitted : Home :=
  run [Type_ "a red fox"; Generate;
       Generated 0 (Ok (Some "abc123"%string)) 100] fresh.

(** The same, with the first query for abc123 out. *)
Definition polling : Home := step (Tick 0) submitted.


Definition staleSuccess : list Event :=
  [Polled 0 (Ok (SUCCESS (Some "https://x/img.jpg"%string))) 200].


(** The job is complete and retired. *)
Definition finished : Home := run staleSuccess polling.

Definition laterJob : list Event :=
  [Type_ "a blue heron"; Generate; Generated 0 (Ok (Some "def456"%string)) 400;
   Tick 1; Polled 1 (Ok (SUCCESS (Some "https://x/heron.jpg"%string))) 500].

(** The gateway answered one submission with the string undefined as
    job id, and a second with abc123. *)
Definition corrupted : Home :=
  run [Type_ "a green frog"; Generate; Generated 0 (Ok (Some "undefined"%string)) 90;
       Type_ "a red fox"; Generate; Generated 0 (Ok (Some "abc123"%string)) 100]
      fresh.

Definition stillRunning : list Event := [Polled 0 (Ok OTHER) 200].

(** The gateway answered two submissions with one id. *)
Definition duplicated : Home :=
  run [Type_ "a blue heron"; Generate; Generated 0 (Ok (Some "abc123"%string)) 400]
      submitted.


(** A prompt of blanks is typed and sent. *)
Definition blankPrompt : Home := step (Type_ "   ") fresh.

(** A submission is out. *)
Definition submitting : Home := run [Type_ "a red fox"; Generate] fresh.

(** The session after a reload that finds a pending record in storage. *)
Definition reloaded : Home :=
  match mount (localStorage submitted) with
  | Mounted s => s
  | _ => fresh
  end.

(* ================================================================= *)
(** ** The rest of [page.tsx] *)

(** *** [formatDuration] and the [Timer] (page.tsx 19-38) *)

(** [Number::toString] of a safe integer. *)
Definition numberToString (n : Z) : string :=
  string_of_list_ascii (print_number n).

(** On a safe integer the arithmetic of the doubles is exact:
    [Math.floor] of the quotient is [Z.div] (the quotient is rounded by
    less than a thousandth, so not across an integer), [%] keeps the
    sign of the dividend, as [Z.rem], and [Number::toString] prints the
    digits.  Beyond the safe integers the program rounds and prints
    exponents; the properties of [formatDuration] are stated for safe
    integers. *)
Definition formatDuration (ms : Z) : string :=
  let seconds := (ms / 1000)%Z in
  let minutes := (seconds / 60)%Z in
  let remainingSeconds := Z.rem seconds 60 in
  ((if (0 <? minutes)%Z then numberToString minutes ++ "m " else "")
   ++ numberToString remainingSeconds ++ "s")%string.

(** The text of a [Timer] for [startTime] after its interval fired at
    the times [ticks] ([Date.now()] at each): [elapsed] starts at 0 and
    each tick sets it. *)
Definition timerElapsed (startTime : Z) (ticks : list Z) : Z :=
  fold_left (fun _ now => (now - startTime)%Z) ticks 0%Z.

Definition timerText (startTime : Z) (ticks : list Z) : string :=
  formatDuration (timerElapsed startTime ticks).

(** *** The cards (page.tsx 222-287) *)

Definition isComplete (img : Image) : bool :=
  match GeneratedImage.status img with
  | Complete => true
  | _ => false
  end.

(** What a card shows: the chain of conditionals of lines 235-272. *)
Inductive Card :=
| LoadingCard (startTime : Z)             (* spinner and [Timer] *)
| ErrorCard (message : option string)     (* the text Error: message *)
| ImageCard (src : option string) (alt : string).
                                          (* picture, Download and Delete *)

Definition card (img : Image) : Card :=
  match GeneratedImage.status img with
  | Loading => LoadingCard (GeneratedImage.startTime img)
  | Error => ErrorCard (GeneratedImage.error img)
  | Complete => ImageCard (GeneratedImage.url img) (GeneratedImage.prompt img)
  end.

(** Lines 278-282: [image.completionTime && <p>...</p>]; a stamp of 0
    is falsy and React prints the number itself. *)
Inductive Caption :=
| NoCaption
| ZeroCaption
| GeneratedIn (duration : string).

Definition caption (img : Image) : Caption :=
  match GeneratedImage.completionTime img with
  | None => NoCaption
  | Some t =>
      if (t =? 0)%Z then ZeroCaption
      else GeneratedIn (formatDuration (t - GeneratedImage.startTime img))
  end.

Definition optionEqb (a b : option string) : bool :=
  match a, b with
  | Some x, Some y => String.eqb x y
  | None, None => true
  | _, _ => false
  end.

(** The events that the rendered page lets happen in [s]: the Delete
    and Download buttons exist on the cards of complete records only;
    typing, the Generate button, the interval and the network are
    always there. *)
Definition offers (s : Home) (e : Event) : bool :=
  match e with
  | Delete j => existsb (fun img => isComplete img && hasId j img) (images s)
  | Download u text _ =>
      existsb (fun img => isComplete img
                          && optionEqb (GeneratedImage.url img) (Some u)
                          && String.eqb (GeneratedImage.prompt img) text)
              (images s)
  | _ => true
  end.

Fixpoint uiDriven (tr : list Event) (s : Home) : bool :=
  match tr with
  | [] => true
  | e :: tr' => offers s e && uiDriven tr' (step e s)
  end.

(* ================================================================= *)
(** ** The two routes *)

(** Line 3 of both route files: [process.env.BACKEND_URL || default]. *)
Definition BACKEND_URL (env : option string) : string :=
  match env with
  | Some u => if truthy u then u else "http://localhost:9080"
  | None => "http://localhost:9080"
  end.

(** What the [fetch] of a route to the backend gives: it rejects, or
    there is an answer, ok or not, whose body is JSON ([Some], the
    parsed value) or is not ([None], [response.json()] rejects).  A body
    that is JSON of a value that [json] does not hold, one with a
    fraction say, is no [BackendAnswer]: the embedding is silent on
    it. *)
Inductive BackendAnswer :=
| BackendDown
| BackendSays (ok : bool) (body : option json).

Record RouteResponse := mkRouteResponse {
  httpStatus : nat;
  body : string }.

(** [NextResponse.json(data, { status })]. *)
Definition NextResponse_json (data : json) (st : nat) : RouteResponse :=
  mkRouteResponse st (JSON_stringify data).

Definition errorBody (msg : string) : json := JObj [("error"%string, JStr msg)].

(** [GET] of results/[jobId]/route.ts (lines 9-39); [jobId] is [None]
    when the parameter is not a string. *)
Definition resultsGET (jobId : option string) (backend : BackendAnswer)
  : RouteResponse :=
  match jobId with
  | None => NextResponse_json (errorBody "Invalid job ID format") 400
  | Some _ =>
      match backend with
      | BackendSays true (Some data) => NextResponse_json data 200
      | _ => NextResponse_json (errorBody "Failed to fetch results") 500
      end
  end.

(** [await request.formData()] and [formData.get("text")]. *)
Inductive FormRead :=
| FormThrows
| Form (text : option string).

(** application/x-www-form-urlencoded, as [url.searchParams.append]
    writes a value: the bytes of its UTF-8 encoding, a space as a plus,
    letters, digits and the four characters * - . _ as they are, any
    other byte as a percent and two upper-case hexadecimal digits. *)
Definition hexUpper (n : N) : ascii :=
  if (n <? 10)%N then ascii_of_N (48 + n) else ascii_of_N (55 + n).

Definition percentByte (n : N) : list ascii :=
  ["%"%char; hexUpper (n / 16); hexUpper (n mod 16)].

Definition isFormSafe (c : ascii) : bool :=
  let n := N_of_ascii c in
  (isAlnum c || (n =? 42) || (n =? 45) || (n =? 46) || (n =? 95))%N.

Definition formEncodeUnit (c : ascii) : list ascii :=
  let n := N_of_ascii c in
  if (n =? 32)%N then ["+"%char]
  else if isFormSafe c then [c]
  else if (n <? 128)%N then percentByte n
  else percentByte (192 + n / 64) ++ percentByte (128 + n mod 64).

Fixpoint formEncodeUnits (s : string) : list ascii :=
  match s with
  | String c r => formEncodeUnit c ++ formEncodeUnits r
  | EmptyString => []
  end.

Definition formEncode (s : string) : string :=
  string_of_list_ascii (formEncodeUnits s).

(** The query of the request to the backend (generate/route.ts 8-11):
    a missing field is [null], written as the text null. *)
Definition generateQuery (text : option string) : string :=
  ("text=" ++ formEncode (match text with
                          | Some t => t
                          | None => "null"
                          end))%string.

(** [POST] of generate/route.ts (lines 5-30). *)
Definition generatePOST (form : FormRead) (backend : BackendAnswer)
  : RouteResponse :=
  match form with
  | FormThrows => NextResponse_json (errorBody "Failed to generate image") 500
  | Form _ =>
      match backend with
      | BackendSays true (Some data) => NextResponse_json data 200
      | _ => NextResponse_json (errorBody "Failed to generate image") 500
      end
  end.

(** *** The page reading the answer of a route *)

Definition responseOk (r : RouteResponse) : bool :=
  Nat.leb 200 (httpStatus r) && Nat.leb (httpStatus r) 299.

(** [response.ok] and [await response.json()] (page.tsx 70-74, 132-136);
    [None] for a body that [JSON_parse] leaves [Unmodelled]. *)
Definition received (r : RouteResponse) : option (Response json) :=
  if responseOk r then
    match JSON_parse (body r) with
    | Parsed data => Some (Ok data)
    | SyntaxError => Some JsonThrows
    | Unmodelled => None
    end
  else Some NotOk.

(** Lines 76-104 on the parsed body.  Reading [status] of [null]
    throws, into the same [catch] as an unreadable body; any value that
    is no object has no [status].  [None]: the value read as [url] or
    [message] is no string, and the record would leave its type. *)
Definition readPoll (data : json) : option (Response PollData) :=
  match data with
  | JNull => Some JsonThrows
  | JObj ms =>
      match getMember "status" ms with
      | Some (JStr st) =>
          if String.eqb st "SUCCESS" then
            match optString (getMember "url" ms) with
            | Some u => Some (Ok (SUCCESS u))
            | None => None
            end
          else if String.eqb st "ERROR" then
            match optString (getMember "message" ms) with
            | Some m => Some (Ok (ERROR m))
            | None => None
            end
          else Some (Ok OTHER)
      | _ => Some (Ok OTHER)
      end
  | _ => Some (Ok OTHER)
  end.

(** ToBoolean on a parsed value. *)
Definition jsTruthy (v : json) : bool :=
  match v with
  | JNull => false
  | JBool b => b
  | JNum n => negb (n =? 0)%Z
  | JStr s => truthy s
  | JArr _ | JObj _ => true
  end.

(** Lines 136-140 on the parsed body: [data["job-id"]] and the test
    [!data["job-id"]].  Reading a property of [null] throws; a value
    that is no object has no such property.  [None]: the value is truthy
    and no string; the program goes on with it as the id of a record,
    which the embedding, whose ids are strings, does not follow. *)
Definition readJobId (data : json) : option (Response (option string)) :=
  match data with
  | JNull => Some JsonThrows
  | JObj ms =>
      match getMember "job-id" ms with
      | None => Some (Ok None)
      | Some (JStr j) => Some (Ok (Some j))
      | Some v => if jsTruthy v then None else Some (Ok None)
      end
  | _ => Some (Ok None)
  end.

Definition throughRoute {A : Type} (read : json -> option (Response A))
                        (r : RouteResponse) : option (Response A) :=
  match received r with
  | Some (Ok data) => read data
  | Some NotOk => Some NotOk
  | Some JsonThrows => Some JsonThrows
  | Some FetchThrows => Some FetchThrows
  | None => None
  end.

(** The answer the polling loop sees for [jobId] when the backend
    answers [backend] to the route. *)
Definition pollAnswer (jobId : string) (backend : BackendAnswer)
  : option (Response PollData) :=
  throughRoute readPoll (resultsGET (Some jobId) backend).

(** The answer [generateImage] sees for the prompt [text]. *)
Definition submitAnswer (text : string) (backend : BackendAnswer)
  : option (Response (option string)) :=
  throughRoute readJobId (generatePOST (Form (Some text)) backend).

Definition backendOk (backend : BackendAnswer) : bool :=
  match backend with
  | BackendSays true (Some _) => true
  | _ => false
  end.

(* ================================================================= *)
(** ** Vocabulary of the further properties *)

(** Reads a duration text back to whole seconds. *)
Definition readDuration (text : string) : option Z :=
  let (d1, r1) := scan_digits (chars text) in
  match d1 with
  | Decimal.Nil => None
  | _ =>
      match r1 with
      | [c] => if Ascii.eqb c "s" then Some (Z.of_uint d1) else None
      | c1 :: c2 :: r2 =>
          if Ascii.eqb c1 "m" && Ascii.eqb c2 " " then
            let (d2, r3) := scan_digits r2 in
            match d2, r3 with
            | Decimal.Nil, _ => None
            | _, [c] =>
                if Ascii.eqb c "s"
                then Some (60 * Z.of_uint d1 + Z.of_uint d2)%Z else None
            | _, _ => None
            end
          else None
      | [] => None
      end
  end.

(** What no step changes in a record. *)
Definition core (img : Image) : string * string * Z :=
  (GeneratedImage.id img, GeneratedImage.prompt img, GeneratedImage.startTime img).

Definition isPolling (e : Event) : bool :=
  match e with
  | Tick _ | Polled _ _ _ => true
  | _ => false
  end.

Definition isTyping (e : Event) : bool :=
  match e with
  | Type_ _ => true
  | _ => false
  end.

(** A record as the page makes it: pending with no result, no error
    and no completion stamp, or terminal with a completion stamp. *)
Definition wellShaped (img : Image) : bool :=
  match GeneratedImage.status img with
  | Loading =>
      match GeneratedImage.url img, GeneratedImage.error img,
            GeneratedImage.completionTime img with
      | None, None, None => true
      | _, _, _ => false
      end
  | _ =>
      match GeneratedImage.completionTime img with
      | Some _ => true
      | None => false
      end
  end.

(** The stamps of a record against the clock [t]: started by [t], and
    completed, if at all, between its start and [t]. *)
Definition stampsBy (t : Z) (img : Image) : bool :=
  (GeneratedImage.startTime img <=? t)%Z
  && match GeneratedImage.completionTime img with
     | Some c => (GeneratedImage.startTime img <=? c)%Z && (c <=? t)%Z
     | None => true
     end.

Definition stampOf (e : Event) : option Z :=
  match e with
  | Generated _ _ now | Polled _ _ now => Some now
  | _ => None
  end.

(** The clock gives safe integers, as [Date.now()] does. *)
Definition safeClock (tr : list Event) : bool :=
  forallb (fun e => match stampOf e with
                    | Some now => isSafeInteger now
                    | None => true
                    end) tr.

(** The clock never goes back: the stamps of [tr] are in order, from
    [t] on. *)
Fixpoint clockFrom (t : Z) (tr : list Event) : bool :=
  match tr with
  | [] => true
  | e :: tr' =>
      match stampOf e with
      | Some now => (t <=? now)%Z && clockFrom now tr'
      | None => clockFrom t tr'
      end
  end.

Fixpoint lastStamp (t : Z) (tr : list Event) : Z :=
  match tr with
  | [] => t
  | e :: tr' =>
      match stampOf e with
      | Some now => lastStamp now tr'
      | None => lastStamp t tr'
      end
  end.

(** Lines 58-115 read in one go: the loop over [jobs] with the answers
    of its queries in order, giving [completedJobs] and the store. *)
Fixpoint loopAlone (jobs : list string) (answers : list (Response PollData * Z))
                   (completed : list string) (imgs : list Image)
  : list string * list Image :=
  match jobs with
  | [] => (completed, imgs)
  | jobId :: rest =>
      if malformed jobId then loopAlone rest answers (completed ++ [jobId]) imgs
      else
        match answers with
        | (Ok (SUCCESS u), now) :: answers' =>
            loopAlone rest answers' (completed ++ [jobId])
                      (markComplete jobId u now imgs)
        | (Ok (ERROR m), now) :: answers' =>
            loopAlone rest answers' (completed ++ [jobId])
                      (markError jobId m now imgs)
        | _ :: answers' => loopAlone rest answers' completed imgs
        | [] => (completed, imgs)
        end
  end.

(** The ids the polling loop can come to iterate over: the working
    set, the closures of the live intervals, what is left to do of the
    calls in flight. *)
Definition loopIds (s : Home) : list string :=
  pendingJobs s ++ flat_map snd (intervals s) ++ flat_map todo (rounds s).

(** Every id of the loop passes the first test of the guard of
    line 62. *)
Definition truthyIds (s : Home) : Prop :=
  (forall j, In j (pendingJobs s) -> truthy j = true) /\
  (forall t j, In t (intervals s) -> In j (snd t) -> truthy j = true) /\
  (forall x j, In x (rounds s) -> In j (todo x) -> truthy j = true).

(** One unit of an encoded value, read back. *)
Definition formDecodeUnit (l : list ascii) : option (ascii * list ascii) :=
  match l with
  | [] => None
  | c :: r =>
      if Ascii.eqb c "+" then Some (" "%char, r)
      else if Ascii.eqb c "%" then
        match r with
        | h1 :: h0 :: r' =>
            match hex_value h1, hex_value h0 with
            | Some x1, Some x0 =>
                let b := (x1 * 16 + x0)%N in
                if (b <? 128)%N then Some (ascii_of_N b, r')
                else
                  match r' with
                  | p :: g1 :: g0 :: r'' =>
                      match hex_value g1, hex_value g0 with
                      | Some y1, Some y0 =>
                          if Ascii.eqb p "%"
                          then Some (ascii_of_N ((b - 192) * 64 + (y1 * 16 + y0 - 128)), r'')
                          else None
                      | _, _ => None
                      end
                  | _ => None
                  end
            | _, _ => None
            end
        | _ => None
        end
      else Some (c, r)
  end.

Definition isQueryUnit (c : ascii) : bool :=
  let n := N_of_ascii c in
  (isFormSafe c || (n =? 43) || (n =? 37))%N.

(** ** Further scenarios *)

(** A record that was submitted at [start] and completed at [stop]. *)
Definition markedComplete (jobId text u : string) (start stop : Z) : Image :=
  GeneratedImage.mk jobId text Complete (Some u) None start (Some stop)
    ["id"; "prompt"; "status"; "startTime"; "url"; "completionTime"]%string.


(** Two jobs are pending, A and B. *)
Definition twoJobs : Home :=
  run [Type_ "a red fox"; Generate; Generated 0 (Ok (Some "A"%string)) 100;
       Type_ "a blue heron"; Generate; Generated 0 (Ok (Some "B"%string)) 110]
      fresh.

(** The query for A fails, the one for B succeeds. *)
Definition oneFailsOneSucceeds : list (Response PollData * Z) :=
  [(FetchThrows, 200%Z); (Ok (SUCCESS (Some "https://x/b.jpg"%string)), 210%Z)].

(** A session is reloaded with a failed job and a pending job in storage. *)
Definition stuck : Home :=
  match mount (Some (persisted
                 [GeneratedImage.mk "B" "a blue heron" Error None
                    (Some "OOM"%string) 110 (Some 300%Z)
                    ["id"; "prompt"; "status"; "startTime"; "error";
                     "completionTime"]%string;
                  newImage "A" "a red fox" 100])) with
  | Mounted s => s
  | _ => fresh
  end.

(** What the page of [stuck] lets happen: a third job is submitted,
    completes and is deleted. *)
Definition browsing : list Event :=
  [Type_ "a green frog"; Generate;
   Generated 0 (Ok (Some "C"%string)) 400; Tick 0;
   Polled 0 (Ok (SUCCESS (Some "https://x/c.jpg"%string))) 500; Delete "C"].

(* ================================================================= *)
(** * Properties *)

(** ** The store under the steps of a session *)

Lemma images_pollingEffect s : images (pollingEffect s) = images s.
Proof. unfold pollingEffect. destruct (Nat.eqb _ 0); reflexivity. Qed.

Lemma localStorage_pollingEffect s : localStorage (pollingEffect s) = localStorage s.
Proof. unfold pollingEffect. destruct (Nat.eqb _ 0); reflexivity. Qed.

Lemma pendingJobs_pollingEffect s : pendingJobs (pollingEffect s) = pendingJobs s.
Proof. unfold pollingEffect. destruct (Nat.eqb _ 0); reflexivity. Qed.

Lemma rounds_pollingEffect s : rounds (pollingEffect s) = rounds s.
Proof. unfold pollingEffect. destruct (Nat.eqb _ 0); reflexivity. Qed.

Lemma nextRoundId_pollingEffect s : nextRoundId (pollingEffect s) = nextRoundId s.
Proof. unfold pollingEffect. destruct (Nat.eqb _ 0); reflexivity. Qed.

Lemma requests_pollingEffect s : requests (pollingEffect s) = requests s.
Proof. unfold pollingEffect. destruct (Nat.eqb _ 0); reflexivity. Qed.

Lemma alerts_pollingEffect s : alerts (pollingEffect s) = alerts s.
Proof. unfold pollingEffect. destruct (Nat.eqb _ 0); reflexivity. Qed.

Lemma submissions_pollingEffect s : submissions (pollingEffect s) = submissions s.
Proof. unfold pollingEffect. destruct (Nat.eqb _ 0); reflexivity. Qed.

Create Rewrite HintDb home.

#[local] Hint Rewrite images_pollingEffect localStorage_pollingEffect
  pendingJobs_pollingEffect rounds_pollingEffect nextRoundId_pollingEffect
  requests_pollingEffect alerts_pollingEffect submissions_pollingEffect : home.

(** Runs the setters and the effects down to the fields. *)
Ltac effects :=
  unfold setPendingJobs, setImages, persistEffect;
  repeat first
    [ progress cbn [images localStorage pendingJobs rounds nextRoundId requests
        alerts submissions intervals nextIntervalId pollCleanup prompt console
        downloads withImages withPendingJobs withPrompt withStorage withTimers
        withRounds withSubmissions request alert consoleError download]
    | progress autorewrite with home ].

Ltac effects_in H :=
  unfold setPendingJobs, setImages, persistEffect in H;
  repeat first
    [ progress cbn [images localStorage pendingJobs rounds nextRoundId requests
        alerts submissions intervals nextIntervalId pollCleanup prompt console
        downloads withImages withPendingJobs withPrompt withStorage withTimers
        withRounds withSubmissions request alert consoleError download] in H
    | progress autorewrite with home in H ].

Lemma images_finishRound c s : images (finishRound c s) = images s.
Proof.
  unfold finishRound. destruct (Nat.ltb 0 (length c)); [|reflexivity].
  effects. reflexivity.
Qed.

Lemma images_runLoop r jobs : forall c s, images (runLoop r jobs c s) = images s.
Proof.
  induction jobs as [|j jobs IH]; intros c s; simpl.
  - apply images_finishRound.
  - destruct (malformed j); [apply IH | reflexivity].
Qed.

Lemma localStorage_finishRound c s : localStorage (finishRound c s) = localStorage s.
Proof.
  unfold finishRound. destruct (Nat.ltb 0 (length c)); [|reflexivity].
  effects. reflexivity.
Qed.

Lemma localStorage_runLoop r jobs : forall c s,
  localStorage (runLoop r jobs c s) = localStorage s.
Proof.
  induction jobs as [|j jobs IH]; intros c s; simpl.
  - apply localStorage_finishRound.
  - destruct (malformed j); [apply IH | reflexivity].
Qed.

Lemma images_reconcile j a now c s :
  images (snd (reconcile j a now c s)) =
  match a with
  | Ok (SUCCESS u) => markComplete j u now (images s)
  | Ok (ERROR m) => markError j m now (images s)
  | _ => images s
  end.
Proof. destruct a as [| | |[u|m|]]; reflexivity. Qed.

Lemma ids_markComplete j u now imgs : ids (markComplete j u now imgs) = ids imgs.
Proof.
  unfold ids, markComplete. rewrite map_map. apply map_ext.
  intros img. destruct (String.eqb _ j); reflexivity.
Qed.

Lemma ids_markError j m now imgs : ids (markError j m now imgs) = ids imgs.
Proof.
  unfold ids, markError. rewrite map_map. apply map_ext.
  intros img. destruct (String.eqb _ j); reflexivity.
Qed.

Lemma ids_reconcile j a now c s :
  ids (images (snd (reconcile j a now c s))) = ids (images s).
Proof.
  rewrite images_reconcile. destruct a as [| | |[u|m|]]; try reflexivity.
  - apply ids_markComplete.
  - apply ids_markError.
Qed.

Lemma images_roundResumes x a now s :
  images (roundResumes x a now s) =
  match todo x with
  | j :: _ =>
      match a with
      | Ok (SUCCESS u) => markComplete j u now (images s)
      | Ok (ERROR m) => markError j m now (images s)
      | _ => images s
      end
  | [] => images s
  end.
Proof.
  unfold roundResumes. destruct (todo x) as [|j rest]; [reflexivity|].
  destruct (reconcile _ _ _ _ _) as [c' s'] eqn:E.
  rewrite images_runLoop.
  change s' with (snd (c', s')). rewrite <- E, images_reconcile.
  destruct a as [| | |[u|m|]]; reflexivity.
Qed.

Lemma ids_roundResumes x a now s :
  ids (images (roundResumes x a now s)) = ids (images s).
Proof.
  rewrite images_roundResumes. destruct (todo x); [reflexivity|].
  destruct a as [| | |[u|m|]]; try reflexivity.
  - apply ids_markComplete.
  - apply ids_markError.
Qed.

Lemma ids_filter_incl (f : Image -> bool) imgs j :
  In j (ids (filter f imgs)) -> In j (ids imgs).
Proof.
  unfold ids. rewrite !in_map_iff. intros [img [E H]].
  apply filter_In in H. exists img. tauto.
Qed.




Lemma existsb_hasId_iff j imgs : existsb (hasId j) imgs = true <-> In j (ids imgs).
Proof.
  unfold ids. rewrite existsb_exists, in_map_iff. unfold hasId.
  split; intros [img H]; exists img.
  - destruct H as [H E]. apply String.eqb_eq in E. tauto.
  - destruct H as [E H]. split; [exact H | apply String.eqb_eq; exact E].
Qed.


(** The storage item mirrors the store after every step. *)
Lemma storage_step e s :
  localStorage s = Some (persisted (images s)) ->
  localStorage (step e s) = Some (persisted (images (step e s))).
Proof.
  destruct e as [text| |k a now|j'|u text f|i|r a now]; simpl; intros H; trivial.
  - unfold generateImage. destruct (negb _); exact H.
  - destruct (nth_error (submissions s) k) as [text|]; [|exact H].
    unfold generateImageResume.
    destruct a as [| | |[j'|]]; try exact H.
    destruct (truthy j'); [|exact H].
    effects. reflexivity.
  - unfold downloadImage. destruct f; exact H.
  - destruct (findInterval i (intervals s)) as [[i' jobs]|]; [|exact H].
    unfold intervalFires. rewrite images_runLoop, localStorage_runLoop. exact H.
  - destruct (findRound r (rounds s)) as [x|]; [|exact H].
    unfold roundResumes. destruct (todo x) as [|j rest]; [exact H|].
    destruct (reconcile _ _ _ _ _) as [c' s'] eqn:E.
    rewrite images_runLoop, localStorage_runLoop.
    destruct a as [| | |[u|m|]]; simpl in E; inversion E; subst; simpl; trivial.
Qed.

Lemma storage_run tr : forall s,
  localStorage s = Some (persisted (images s)) ->
  localStorage (run tr s) = Some (persisted (images (run tr s))).
Proof.
  induction tr as [|e tr IH]; intros s H; simpl; trivial.
  apply IH, storage_step, H.
Qed.

(** ** Deletion (page.tsx 158-160) *)

(** [deleteImage] acts on the store only: the id stays in
    [pendingJobs], and is queried, until an answer retires it. *)
Lemma deleteImage_keeps_pendingJobs j s :
  pendingJobs (step (Delete j) s) = pendingJobs s /\
  intervals (step (Delete j) s) = intervals s /\
  rounds (step (Delete j) s) = rounds s.
Proof. repeat split; reflexivity. Qed.

(** ** The polling interval (page.tsx 55-118) *)

Lemma pollingEffect_timersOk s s0 :
  timersOk s0 -> intervals s = intervals s0 -> pollCleanup s = pollCleanup s0 ->
  timersOk (pollingEffect s).
Proof.
  unfold timersOk, pollingEffect. intros H0 Ei Ec. rewrite Ei, Ec.
  assert (Hts : match pollCleanup s0 with
                | Some i => clearInterval i (intervals s0)
                | None => intervals s0
                end = []).
  { destruct (pendingJobs s0).
    - destruct H0 as [H1 H2]. rewrite H1, H2. reflexivity.
    - destruct H0 as [i [H1 H2]]. rewrite H1, H2. simpl.
      rewrite Nat.eqb_refl. reflexivity. }
  rewrite Hts. destruct (pendingJobs s) as [|j l] eqn:E; simpl.
  - rewrite E. split; reflexivity.
  - rewrite E. exists (nextIntervalId s). split; reflexivity.
Qed.

Lemma timersOk_same s s0 :
  timersOk s0 -> intervals s = intervals s0 -> pollCleanup s = pollCleanup s0 ->
  pendingJobs s = pendingJobs s0 -> timersOk s.
Proof. unfold timersOk. intros H E1 E2 E3. rewrite E1, E2, E3. exact H. Qed.

Lemma timersOk_finishRound c s : timersOk s -> timersOk (finishRound c s).
Proof.
  intros H. unfold finishRound. destruct (Nat.ltb 0 (length c)); [|exact H].
  unfold setPendingJobs. apply (pollingEffect_timersOk _ s H); reflexivity.
Qed.

Lemma timersOk_runLoop r jobs : forall c s, timersOk s -> timersOk (runLoop r jobs c s).
Proof.
  induction jobs as [|j jobs IH]; intros c s H; simpl.
  - apply timersOk_finishRound, H.
  - destruct (malformed j); [apply IH, H|].
    apply (timersOk_same _ s H); reflexivity.
Qed.

Lemma timersOk_step e s : timersOk s -> timersOk (step e s).
Proof.
  destruct e as [text| |k a now|j'|u text f|i|r a now]; simpl; intros H.
  - apply (timersOk_same _ s H); reflexivity.
  - unfold generateImage. destruct (negb _); [exact H|].
    apply (timersOk_same _ s H); reflexivity.
  - destruct (nth_error (submissions s) k) as [text|]; [|exact H].
    unfold generateImageResume.
    destruct a as [| | |[j'|]]; try (apply (timersOk_same _ s H); reflexivity).
    destruct (truthy j'); [|apply (timersOk_same _ s H); reflexivity].
    apply (timersOk_same _ (setPendingJobs (fun prev => prev ++ [j'])
             (setImages (fun prev => newImage j' text now :: prev)
                (withSubmissions (removeNth k (submissions s)) s))));
      try reflexivity.
    unfold setPendingJobs. apply (pollingEffect_timersOk _ s H); reflexivity.
  - apply (timersOk_same _ s H); reflexivity.
  - unfold downloadImage. destruct f; apply (timersOk_same _ s H); reflexivity.
  - destruct (findInterval i (intervals s)) as [[i' jobs]|]; [|exact H].
    unfold intervalFires. apply timersOk_runLoop.
    apply (timersOk_same _ s H); reflexivity.
  - destruct (findRound r (rounds s)) as [x|]; [|exact H].
    unfold roundResumes. destruct (todo x) as [|j rest]; [exact H|].
    destruct (reconcile _ _ _ _ _) as [c' s'] eqn:E.
    apply timersOk_runLoop.
    destruct a as [| | |[u|m|]]; simpl in E; inversion E; subst;
      apply (timersOk_same _ s H); reflexivity.
Qed.

Lemma timersOk_run tr : forall s, timersOk s -> timersOk (run tr s).
Proof.
  induction tr as [|e tr IH]; intros s H; simpl; [exact H|].
  apply IH, timersOk_step, H.
Qed.

Lemma timersOk_mount saved s0 : mount saved = Mounted s0 -> timersOk s0.
Proof.
  unfold mount. destruct (initialImages true saved) as [v| |]; [|discriminate|discriminate].
  destruct (imagesOfJson v) as [imgs|]; [|discriminate].
  intros E. inversion E. unfold timersOk. simpl. split; reflexivity.
Qed.

Lemma reachable_timersOk s : reachable s -> timersOk s.
Proof.
  intros [saved [s0 [tr [Hm E]]]]. subst s.
  apply timersOk_run, (timersOk_mount saved), Hm.
Qed.

Lemma reachable_run tr s : reachable s -> reachable (run tr s).
Proof.
  intros [saved [s0 [tr0 [Hm E]]]]. exists saved, s0, (tr0 ++ tr).
  split; [exact Hm|]. subst s. clear Hm. revert s0.
  induction tr0 as [|e tr0 IH]; intros s0; simpl; [reflexivity|]. apply IH.
Qed.

Lemma reachable_fresh : reachable fresh.
Proof. exists None, fresh, []. split; reflexivity. Qed.

Lemma reachable_submitted : reachable submitted.
Proof.
  exists None, fresh,
    [Type_ "a red fox"; Generate; Generated 0 (Ok (Some "abc123"%string)) 100].
  split; vm_compute; reflexivity.
Qed.

(** C2, as the code has it.  In every state of a session the polling
    interval is live if and only if [pendingJobs] is not empty; there is
    never more than one interval, and the live one closed over the
    current [pendingJobs]. *)
Theorem timer_iff_pendingJobs (s : Home) :
  reachable s ->
  (intervals s <> [] <-> pendingJobs s <> []) /\
  length (intervals s) <= 1 /\
  (forall i jobs, In (i, jobs) (intervals s) -> jobs = pendingJobs s).
Proof.
  intros H. apply reachable_timersOk in H. unfold timersOk in H.
  destruct (pendingJobs s) as [|j l].
  - destruct H as [H _]. rewrite H. simpl. repeat split; try tauto. lia.
  - destruct H as [i [H _]]. rewrite H. simpl. repeat split; try discriminate.
    + lia.
    + intros i' jobs [E|[]]. inversion E. reflexivity.
Qed.

Lemma timer_iff_pendingJobs_witness :
  intervals submitted = [(0, ["abc123"%string])] /\
  ((intervals submitted <> [] <-> pendingJobs submitted <> []) /\
   length (intervals submitted) <= 1 /\
   (forall i jobs, In (i, jobs) (intervals submitted) -> jobs = pendingJobs submitted)).
Proof.
  split; [vm_compute; reflexivity|].
  apply (timer_iff_pendingJobs submitted).
  exact reachable_submitted.
Defined.

(** C2, as stated, fails: after a reload the store holds a pending
    record and no interval is scheduled. *)
Lemma timer_not_iff_pending_record :
  ~ (forall s, reachable s ->
       (intervals s <> [] <-> existsb isLoading (images s) = true)).
Proof.
  intros H.
  assert (R : reachable reloaded).
  { exists (localStorage
              (run [Type_ "a red fox"; Generate;
                    Generated 0 (Ok (Some "abc123"%string)) 100] fresh)),
           reloaded, [].
    split; vm_compute; reflexivity. }
  destruct (H reloaded R) as [_ H2].
  apply H2; vm_compute; reflexivity.
Qed.

(** ** Which steps touch the records of a job *)

Lemma includes_In l x : includes l x = true <-> In x l.
Proof.
  unfold includes. rewrite existsb_exists. split.
  - intros [y [H E]]. apply String.eqb_eq in E. subst y. exact H.
  - intros H. exists x. split; [exact H | apply String.eqb_refl].
Qed.

Lemma includes_false l x : includes l x = false <-> ~ In x l.
Proof.
  rewrite <- includes_In. destruct (includes l x); split; intros H;
    try discriminate; try reflexivity; exfalso; apply H; reflexivity.
Qed.

Lemma recordsOf_markComplete j j' u now imgs :
  j' <> j -> recordsOf j (markComplete j' u now imgs) = recordsOf j imgs.
Proof.
  intros N. unfold recordsOf, markComplete, hasId.
  induction imgs as [|img imgs IH]; simpl; [reflexivity|].
  destruct (String.eqb_spec (GeneratedImage.id img) j') as [E|E]; simpl.
  - rewrite E. destruct (String.eqb_spec j' j) as [E'|_]; [contradiction|].
    exact IH.
  - rewrite IH. reflexivity.
Qed.

Lemma recordsOf_markError j j' m now imgs :
  j' <> j -> recordsOf j (markError j' m now imgs) = recordsOf j imgs.
Proof.
  intros N. unfold recordsOf, markError, hasId.
  induction imgs as [|img imgs IH]; simpl; [reflexivity|].
  destruct (String.eqb_spec (GeneratedImage.id img) j') as [E|E]; simpl.
  - rewrite E. destruct (String.eqb_spec j' j) as [E'|_]; [contradiction|].
    exact IH.
  - rewrite IH. reflexivity.
Qed.

Lemma recordsOf_delete_other j j' imgs :
  j' <> j ->
  recordsOf j (filter (fun img => negb (String.eqb (GeneratedImage.id img) j')) imgs)
  = recordsOf j imgs.
Proof.
  intros N. unfold recordsOf, hasId.
  induction imgs as [|img imgs IH]; simpl; [reflexivity|].
  destruct (String.eqb_spec (GeneratedImage.id img) j') as [E|E]; simpl.
  - rewrite E. destruct (String.eqb_spec j' j) as [E'|_]; [contradiction|].
    exact IH.
  - rewrite IH. reflexivity.
Qed.

Lemma findRound_Some r rs x : findRound r rs = Some x -> In x rs /\ rid x = r.
Proof.
  unfold findRound. intros H. apply find_some in H. destruct H as [H E].
  apply Nat.eqb_eq in E. tauto.
Qed.

Lemma findInterval_Some i ts t : findInterval i ts = Some t -> In t ts /\ fst t = i.
Proof.
  unfold findInterval. intros H. apply find_some in H. destruct H as [H E].
  apply Nat.eqb_eq in E. tauto.
Qed.

(** The records of [j] change only when [j] is deleted, handed out by
    the gateway, or when a query for [j] is answered with a body. *)
Lemma recordsOf_step e s j :
  submitsId j e = false -> deletesId j e = false ->
  (answersFor j e s = true -> answerFails e = true) ->
  recordsOf j (images (step e s)) = recordsOf j (images s).
Proof.
  destruct e as [text| |k a now|j'|u text f|i|r a now]; simpl;
    intros Hs Hd Ha; trivial.
  - unfold generateImage. destruct (negb _); reflexivity.
  - destruct (nth_error (submissions s) k) as [text|]; [|reflexivity].
    unfold generateImageResume.
    destruct a as [| | |[j'|]]; try reflexivity.
    destruct (truthy j'); [|reflexivity].
    effects. unfold recordsOf. simpl. unfold hasId at 1. simpl.
    rewrite Hs. reflexivity.
  - effects. apply recordsOf_delete_other.
    intros E. subst j'. rewrite String.eqb_refl in Hd. discriminate.
  - unfold downloadImage. destruct f; reflexivity.
  - destruct (findInterval i (intervals s)) as [[i' jobs]|]; [|reflexivity].
    unfold intervalFires. rewrite images_runLoop. reflexivity.
  - destruct (findRound r (rounds s)) as [x|] eqn:F; [|reflexivity].
    rewrite images_roundResumes. unfold awaits in Ha.
    destruct (todo x) as [|jh rest]; [reflexivity|].
    destruct (String.eqb_spec jh j) as [E|N].
    + specialize (Ha eq_refl). destruct a as [| | |d]; try reflexivity.
      discriminate.
    + destruct a as [| | |[u|m|]]; try reflexivity.
      * apply recordsOf_markComplete, N.
      * apply recordsOf_markError, N.
Qed.

(** ** The calls of the interval callback (page.tsx 58-115) *)

Lemma rounds_finishRound c s : rounds (finishRound c s) = rounds s.
Proof.
  unfold finishRound. destruct (Nat.ltb 0 (length c)); [|reflexivity].
  effects. reflexivity.
Qed.

Lemma requests_finishRound c s : requests (finishRound c s) = requests s.
Proof.
  unfold finishRound. destruct (Nat.ltb 0 (length c)); [|reflexivity].
  effects. reflexivity.
Qed.

Lemma nextRoundId_finishRound c s : nextRoundId (finishRound c s) = nextRoundId s.
Proof.
  unfold finishRound. destruct (Nat.ltb 0 (length c)); [|reflexivity].
  effects. reflexivity.
Qed.

Lemma nextRoundId_runLoop r jobs : forall c s,
  nextRoundId (runLoop r jobs c s) = nextRoundId s.
Proof.
  induction jobs as [|j jobs IH]; intros c s; simpl.
  - apply nextRoundId_finishRound.
  - destruct (malformed j); [apply IH | reflexivity].
Qed.

Lemma noMalformedQuery_runLoop r jobs : forall c s,
  noMalformedQuery s -> noMalformedQuery (runLoop r jobs c s).
Proof.
  induction jobs as [|j jobs IH]; intros c s H; simpl.
  - unfold noMalformedQuery. rewrite requests_finishRound. exact H.
  - destruct (malformed j) eqn:M; [apply IH, H|].
    intros j' M' Hi. simpl in Hi. apply in_app_or in Hi.
    destruct Hi as [Hi|[Hi|[]]]; [exact (H j' M' Hi)|].
    inversion Hi. subst j'. rewrite M in M'. discriminate.
Qed.

Lemma noMalformedQuery_same s s0 :
  noMalformedQuery s0 -> requests s = requests s0 -> noMalformedQuery s.
Proof. unfold noMalformedQuery. intros H E. rewrite E. exact H. Qed.

Lemma noMalformedQuery_request q s :
  noMalformedQuery s -> (forall j, q <> GET_results j) ->
  noMalformedQuery (request q s).
Proof.
  intros H N j M Hi. simpl in Hi. apply in_app_or in Hi.
  destruct Hi as [Hi|[Hi|[]]]; [exact (H j M Hi) | exact (N j Hi)].
Qed.

Lemma noMalformedQuery_step e s : noMalformedQuery s -> noMalformedQuery (step e s).
Proof.
  destruct e as [text| |k a now|j'|u text f|i|r a now]; simpl; intros H.
  - exact H.
  - unfold generateImage. destruct (negb _); [exact H|].
    apply (noMalformedQuery_same _ (request (POST_generate (prompt s)) s));
      [|reflexivity].
    apply noMalformedQuery_request; [exact H | discriminate].
  - destruct (nth_error (submissions s) k) as [text|]; [|exact H].
    unfold generateImageResume.
    destruct a as [| | |[j'|]]; try exact H.
    destruct (truthy j'); [|exact H].
    apply (noMalformedQuery_same _ s H). effects. reflexivity.
  - exact H.
  - unfold downloadImage.
    assert (R : noMalformedQuery (request (GET_url u) s))
      by (apply noMalformedQuery_request; [exact H | discriminate]).
    destruct f; apply (noMalformedQuery_same _ _ R); reflexivity.
  - destruct (findInterval i (intervals s)) as [[i' jobs]|]; [|exact H].
    unfold intervalFires. apply noMalformedQuery_runLoop. exact H.
  - destruct (findRound r (rounds s)) as [x|]; [|exact H].
    unfold roundResumes. destruct (todo x) as [|jh rest]; [exact H|].
    destruct (reconcile _ _ _ _ _) as [c' s'] eqn:E.
    apply noMalformedQuery_runLoop.
    destruct a as [| | |[u|m|]]; simpl in E; inversion E; subst; exact H.
Qed.

Lemma roundsOk_same s s0 :
  roundsOk s0 -> rounds s = rounds s0 -> nextRoundId s = nextRoundId s0 -> roundsOk s.
Proof. unfold roundsOk. intros H E1 E2. rewrite E1, E2. exact H. Qed.

Lemma roundsOk_runLoop r jobs : forall c s,
  r < nextRoundId s -> roundsOk s -> roundsOk (runLoop r jobs c s).
Proof.
  induction jobs as [|j jobs IH]; intros c s Hr H; simpl.
  - apply (roundsOk_same _ s H);
      [apply rounds_finishRound | apply nextRoundId_finishRound].
  - destruct (malformed j) eqn:M; [apply IH; assumption|].
    intros x Hx. simpl in Hx. apply in_app_or in Hx.
    destruct Hx as [Hx|[Hx|[]]]; [exact (H x Hx)|].
    subst x. simpl. split; [exact Hr|]. exists j, jobs. tauto.
Qed.

Lemma roundsOk_dropRound r s :
  roundsOk s -> roundsOk (withRounds (dropRound r (rounds s)) (nextRoundId s) s).
Proof.
  intros H x Hx. simpl in Hx. unfold dropRound in Hx. apply filter_In in Hx.
  apply H. tauto.
Qed.

Lemma roundsOk_step e s : roundsOk s -> roundsOk (step e s).
Proof.
  destruct e as [text| |k a now|j'|u text f|i|r a now]; simpl; intros H.
  - exact H.
  - unfold generateImage. destruct (negb _); exact H.
  - destruct (nth_error (submissions s) k) as [text|]; [|exact H].
    unfold generateImageResume.
    destruct a as [| | |[j'|]]; try exact H.
    destruct (truthy j'); [|exact H].
    apply (roundsOk_same _ s H); effects; reflexivity.
  - exact H.
  - unfold downloadImage. destruct f; exact H.
  - destruct (findInterval i (intervals s)) as [[i' jobs]|]; [|exact H].
    unfold intervalFires. apply roundsOk_runLoop; simpl; [lia|].
    intros x Hx. destruct (H x Hx) as [H1 H2]. split; [simpl; lia | exact H2].
  - destruct (findRound r (rounds s)) as [x|] eqn:F; [|exact H].
    apply findRound_Some in F. destruct F as [F _].
    destruct (H x F) as [Hlt _].
    unfold roundResumes. destruct (todo x) as [|jh rest]; [exact H|].
    destruct (reconcile _ _ _ _ _) as [c' s'] eqn:E.
    assert (D := roundsOk_dropRound (rid x) s H).
    destruct a as [| | |[u|m|]]; simpl in E; inversion E; subst;
      apply roundsOk_runLoop; trivial.
Qed.

Lemma reachable_invariants s : reachable s -> noMalformedQuery s /\ roundsOk s.
Proof.
  intros [saved [s0 [tr [Hm E]]]]. subst s.
  assert (H0 : noMalformedQuery s0 /\ roundsOk s0).
  { unfold mount in Hm. destruct (initialImages true saved) as [v| |]; [|discriminate|discriminate].
    destruct (imagesOfJson v) as [imgs|]; [|discriminate].
    inversion Hm. split.
    - intros j _ Hi. effects_in Hi. destruct Hi.
    - intros x Hx. effects_in Hx. destruct Hx. }
  clear Hm. revert s0 H0.
  induction tr as [|e tr IH]; intros s0 [H1 H2]; simpl; [tauto|].
  apply IH. split; [apply noMalformedQuery_step, H1 | apply roundsOk_step, H2].
Qed.

Lemma roundLive_false r s :
  roundLive r s = false <-> forall x, In x (rounds s) -> rid x <> r.
Proof.
  unfold roundLive. split.
  - intros H x Hx E. assert (T : existsb (fun y => Nat.eqb (rid y) r) (rounds s) = true).
    { apply existsb_exists. exists x. split; [exact Hx | apply Nat.eqb_eq, E]. }
    rewrite H in T. discriminate.
  - intros H. destruct (existsb _ _) eqn:E; [|reflexivity].
    apply existsb_exists in E. destruct E as [x [Hx E]].
    apply Nat.eqb_eq in E. exfalso. exact (H x Hx E).
Qed.

Lemma roundLive_dropRound_same r s next :
  roundLive r (withRounds (dropRound r (rounds s)) next s) = false.
Proof.
  apply roundLive_false. simpl. intros x Hx E. unfold dropRound in Hx.
  apply filter_In in Hx. destruct Hx as [_ Hx]. rewrite E, Nat.eqb_refl in Hx.
  discriminate.
Qed.

Lemma roundLive_dropRound_other r r0 s next :
  r <> r0 ->
  roundLive r0 (withRounds (dropRound r (rounds s)) next s) = roundLive r0 s.
Proof.
  intros N. unfold roundLive, dropRound. simpl.
  induction (rounds s) as [|x l IH]; simpl; [reflexivity|].
  destruct (Nat.eqb_spec (rid x) r) as [E|E]; simpl.
  - rewrite IH. destruct (Nat.eqb_spec (rid x) r0) as [E'|_]; [|reflexivity].
    exfalso. apply N. rewrite <- E, <- E'. reflexivity.
  - rewrite IH. reflexivity.
Qed.

(** What the handling of an answer leaves as it was. *)
Lemma reconcile_shape jh a now c s :
  exists c' s',
    reconcile jh a now c s = (c', s') /\
    (forall j, In j c -> In j c') /\
    rounds s' = rounds s /\ nextRoundId s' = nextRoundId s /\
    pendingJobs s' = pendingJobs s /\ requests s' = requests s.
Proof.
  destruct a as [| | |[u|m|]]; simpl; eexists; eexists;
    (split; [reflexivity|]); repeat split; auto;
    intros j Hj; apply in_or_app; left; exact Hj.
Qed.

Lemma findRound_app_new r rs x :
  (forall y, In y rs -> rid y <> r) -> rid x = r -> findRound r (rs ++ [x]) = Some x.
Proof.
  intros H E. unfold findRound. induction rs as [|y rs IH]; simpl.
  - rewrite E, Nat.eqb_refl. reflexivity.
  - destruct (Nat.eqb_spec (rid y) r) as [Ey|_].
    + exfalso. apply (H y); [left; reflexivity | exact Ey].
    + apply IH. intros z Hz. apply H. right. exact Hz.
Qed.

Lemma dropRound_app_new r rs x :
  (forall y, In y rs -> rid y <> r) -> rid x = r -> dropRound r (rs ++ [x]) = rs.
Proof.
  intros H E. unfold dropRound. induction rs as [|y rs IH]; simpl.
  - rewrite E, Nat.eqb_refl. reflexivity.
  - destruct (Nat.eqb_spec (rid y) r) as [Ey|_]; simpl.
    + exfalso. apply (H y); [left; reflexivity | exact Ey].
    + f_equal. apply IH. intros z Hz. apply H. right. exact Hz.
Qed.

(** A call that runs alone and is answered at each of its queries comes
    to its end, having queried the well-formed ids of its closure, in
    order, and nothing else. *)
Lemma runLoop_alone r jobs : forall c s answers,
  roundLive r s = false ->
  length answers = length (queries jobs) ->
  roundLive r (run (answersOf r answers) (runLoop r jobs c s)) = false /\
  requests (run (answersOf r answers) (runLoop r jobs c s))
  = requests s ++ queries jobs.
Proof.
  unfold queries. setoid_rewrite length_map.
  induction jobs as [|j jobs IH]; intros c s answers Hl Hn; simpl in *.
  - destruct answers; [|discriminate]. simpl.
    unfold roundLive in *. rewrite rounds_finishRound, requests_finishRound.
    rewrite List.app_nil_r. tauto.
  - unfold wellFormed in Hn |- * at 1 2. destruct (malformed j) eqn:M; simpl in Hn |- *.
    + apply IH; assumption.
    + destruct answers as [|[a now] answers]; [discriminate|]. simpl.
      assert (Hno := proj1 (roundLive_false r s) Hl).
      rewrite (findRound_app_new r (rounds s) (mkRound r (j :: jobs) c) Hno eq_refl).
      unfold roundResumes. simpl.
      rewrite (dropRound_app_new r (rounds s) (mkRound r (j :: jobs) c) Hno eq_refl).
      destruct (reconcile_shape j a now c
                  (withRounds (rounds s) (nextRoundId s)
                     (withRounds (rounds s ++ [mkRound r (j :: jobs) c]) (nextRoundId s)
                        (request (GET_results j) s))))
        as [c' [s' [E [_ [R1 [_ [_ R4]]]]]]].
      rewrite E.
      destruct (IH c' s' answers) as [H1 H2]; [|injection Hn; auto|].
      * unfold roundLive. rewrite R1. exact Hl.
      * split; [exact H1|]. rewrite H2, R4. simpl.
        rewrite <- List.app_assoc. reflexivity.
Qed.

Lemma nextRound_requests i answers s :
  roundsOk s ->
  intervals s = [(i, pendingJobs s)] ->
  length answers = length (queries (pendingJobs s)) ->
  requests (nextRound i answers s) = requests s ++ queries (pendingJobs s).
Proof.
  intros Ok Ei Hn. unfold nextRound. simpl. rewrite Ei. unfold findInterval. simpl.
  rewrite Nat.eqb_refl. unfold intervalFires.
  apply (runLoop_alone (nextRoundId s) (pendingJobs s) []
           (withRounds (rounds s) (S (nextRoundId s)) s) answers); [|exact Hn].
  apply roundLive_false. simpl. intros x Hx E. destruct (Ok x Hx) as [Hlt _]. lia.
Qed.


(** ** Failures of a query (page.tsx 67-107) *)

Lemma includes_app_single l x j :
  includes (l ++ [x]) j = includes l j || String.eqb j x.
Proof.
  unfold includes. rewrite existsb_app. simpl. rewrite orb_false_r. reflexivity.
Qed.

Section WellFormedJob.

(** A job whose id passes the guard of line 62. *)
Variable j : string.
Hypothesis Hj : malformed j = false.








End WellFormedJob.






(** ** Deletion and the working set (page.tsx 158-160, 55-118) *)




(** ** Answers for a job that is already terminal (page.tsx 76-104) *)




Lemma isRetired_pollingEffect j s : isRetired j s -> isRetired j (pollingEffect s).
Proof.
  unfold isRetired. intros [H1 [H2 H3]]. effects. repeat split; trivial.
  intros t Ht. unfold pollingEffect in Ht.
  assert (Hc : forall t', In t' match pollCleanup s with
                                 | Some i => clearInterval i (intervals s)
                                 | None => intervals s
                                 end -> ~ In j (snd t')).
  { intros t' Ht'. destruct (pollCleanup s); [|apply H2, Ht'].
    unfold clearInterval in Ht'. apply filter_In in Ht'. apply H2. tauto. }
  destruct (Nat.eqb _ 0); simpl in Ht.
  - apply Hc, Ht.
  - apply in_app_or in Ht. destruct Ht as [Ht|[Ht|[]]]; [apply Hc, Ht|].
    subst t. exact H1.
Qed.

Lemma isRetired_finishRound j c s : isRetired j s -> isRetired j (finishRound c s).
Proof.
  intros H. unfold finishRound. destruct (Nat.ltb 0 (length c)); [|exact H].
  unfold setPendingJobs. apply isRetired_pollingEffect.
  destruct H as [H1 [H2 H3]]. repeat split; trivial. simpl.
  intros Hf. apply filter_In in Hf. tauto.
Qed.

Lemma isRetired_runLoop j r jobs : forall c s,
  ~ In j jobs -> isRetired j s -> isRetired j (runLoop r jobs c s).
Proof.
  induction jobs as [|j' jobs IH]; intros c s Hn H; simpl.
  - apply isRetired_finishRound, H.
  - destruct (malformed j').
    + apply IH; [|exact H]. intros Hj. apply Hn. right. exact Hj.
    + destruct H as [H1 [H2 H3]]. repeat split; trivial. simpl.
      intros x Hx. apply in_app_or in Hx. destruct Hx as [Hx|[Hx|[]]].
      * apply H3, Hx.
      * subst x. exact Hn.
Qed.

Lemma isRetired_step e s j :
  submitsId j e = false -> isRetired j s ->
  isRetired j (step e s) /\ answersFor j e s = false.
Proof.
  intros Hs H. assert (H' := H). destruct H' as [H1 [H2 H3]].
  destruct e as [text| |k a now|j'|u text f|i|r a now]; simpl;
    (split; [|try reflexivity]).
  - exact H.
  - unfold generateImage. destruct (negb _); exact H.
  - destruct (nth_error (submissions s) k) as [text|]; [|exact H].
    unfold generateImageResume.
    destruct a as [| | |[j'|]]; try exact H.
    destruct (truthy j'); [|exact H].
    assert (R : isRetired j (setPendingJobs (fun prev => prev ++ [j'])
             (setImages (fun prev => newImage j' text now :: prev)
                (withSubmissions (removeNth k (submissions s)) s)))).
    { unfold setPendingJobs. apply isRetired_pollingEffect.
      repeat split; trivial. simpl. intros Hi. apply in_app_or in Hi.
      destruct Hi as [Hi|[Hi|[]]]; [exact (H1 Hi)|].
      subst j'. simpl in Hs. rewrite String.eqb_refl in Hs. discriminate. }
    exact R.
  - exact H.
  - unfold downloadImage. destruct f; exact H.
  - destruct (findInterval i (intervals s)) as [[i' jobs]|] eqn:F; [|exact H].
    apply findInterval_Some in F. destruct F as [F _].
    unfold intervalFires. apply isRetired_runLoop; [exact (H2 _ F) | exact H].
  - destruct (findRound r (rounds s)) as [x|] eqn:F; [|exact H].
    apply findRound_Some in F. destruct F as [F _]. specialize (H3 x F) as Hx.
    unfold roundResumes. destruct (todo x) as [|jh rest]; [exact H|].
    destruct (reconcile _ _ _ _ _) as [c' s'] eqn:E.
    apply isRetired_runLoop; [intros Hr; apply Hx; right; exact Hr|].
    assert (D : isRetired j (withRounds (dropRound (rid x) (rounds s)) (nextRoundId s) s)).
    { repeat split; trivial. simpl. intros y Hy. unfold dropRound in Hy.
      apply filter_In in Hy. apply H3. tauto. }
    destruct a as [| | |[u|m|]]; simpl in E; inversion E; subst; exact D.
  - destruct (findRound r (rounds s)) as [x|] eqn:F; [|reflexivity].
    apply findRound_Some in F. destruct F as [F _]. specialize (H3 x F) as Hx.
    unfold awaits. destruct (todo x) as [|jh rest]; [reflexivity|].
    apply String.eqb_neq. intros E. apply Hx. left. exact E.
Qed.



(** ** Malformed ids (page.tsx 61-65) *)

Lemma pendingJobs_finishRound_out c s j :
  ~ In j (pendingJobs s) -> ~ In j (pendingJobs (finishRound c s)).
Proof.
  intros H. unfold finishRound. destruct (Nat.ltb 0 (length c)); [|exact H].
  effects. intros Hf. apply filter_In in Hf. tauto.
Qed.

Lemma pendingJobs_finishRound_completed c s j :
  In j c -> ~ In j (pendingJobs (finishRound c s)).
Proof.
  intros Hc. unfold finishRound.
  assert (L : Nat.ltb 0 (length c) = true) by (destruct c; [destruct Hc | reflexivity]).
  rewrite L. effects. intros Hf. apply filter_In in Hf. destruct Hf as [_ Hf].
  apply negb_true_iff, includes_false in Hf. exact (Hf Hc).
Qed.

Section MalformedJob.

(** An id that the guard of line 62 stops. *)
Variable j : string.
Hypothesis M : malformed j = true.

(** The loop of call [r] never loses [j]: it pushes [j] when it meets
    it, and the end of the loop filters [j] out. *)
Lemma runLoop_tracks_own r jobs : forall c s,
  In j jobs \/ In j c ->
  roundLive r s = false -> r < nextRoundId s ->
  tracks r j (runLoop r jobs c s).
Proof.
  induction jobs as [|j' jobs IH]; intros c s Hj Hl Hr; simpl.
  - destruct Hj as [[]|Hc]. unfold tracks.
    rewrite nextRoundId_finishRound, rounds_finishRound.
    split; [exact Hr|]. split.
    + intros x Hx E. exfalso. exact (proj1 (roundLive_false r s) Hl x Hx E).
    + intros _. apply pendingJobs_finishRound_completed, Hc.
  - destruct (malformed j') eqn:M'.
    + apply IH; trivial. destruct Hj as [[E|Hj]|Hc].
      * right. apply in_or_app. right. left. exact E.
      * left. exact Hj.
      * right. apply in_or_app. left. exact Hc.
    + unfold tracks. simpl. split; [exact Hr|]. split.
      * intros x Hx E. apply in_app_or in Hx. destruct Hx as [Hx|[Hx|[]]].
        -- exfalso. exact (proj1 (roundLive_false r s) Hl x Hx E).
        -- subst x. simpl. exact Hj.
      * unfold roundLive. simpl. rewrite existsb_app. simpl.
        rewrite Nat.eqb_refl, orb_true_r. discriminate.
Qed.

(** The loop of another call leaves what is tracked as it is. *)
Lemma runLoop_tracks_other r r0 jobs : forall c s,
  r <> r0 ->
  r0 < nextRoundId s ->
  (forall x, In x (rounds s) -> rid x = r0 -> In j (todo x) \/ In j (completedJobs x)) ->
  (roundLive r0 s = false -> ~ In j (pendingJobs s)) ->
  tracks r0 j (runLoop r jobs c s).
Proof.
  induction jobs as [|j' jobs IH]; intros c s N Hr Hx Hp; simpl.
  - unfold tracks. rewrite nextRoundId_finishRound, rounds_finishRound.
    split; [exact Hr|]. split; [exact Hx|].
    intros Hl. apply pendingJobs_finishRound_out, Hp.
    unfold roundLive in *. rewrite rounds_finishRound in Hl. exact Hl.
  - destruct (malformed j'); [apply IH; assumption|].
    unfold tracks. simpl. split; [exact Hr|]. split.
    + intros x Hi E. apply in_app_or in Hi. destruct Hi as [Hi|[Hi|[]]].
      * exact (Hx x Hi E).
      * subst x. simpl in E. contradiction.
    + unfold roundLive. simpl. rewrite existsb_app. simpl.
      destruct (Nat.eqb_spec r r0) as [E|_]; [contradiction|].
      rewrite !orb_false_r. exact Hp.
Qed.

Lemma tracks_step r0 e s :
  submitsId j e = false ->
  roundsOk s -> tracks r0 j s -> tracks r0 j (step e s).
Proof.
  intros Hs Ok T. assert (T' := T). destruct T' as [Hr [Hx Hp]].
  destruct e as [text| |k a now|j'|u text f|i|r a now]; simpl.
  - exact T.
  - unfold generateImage. destruct (negb _); exact T.
  - destruct (nth_error (submissions s) k) as [text|]; [|exact T].
    unfold generateImageResume.
    destruct a as [| | |[j'|]]; try exact T.
    destruct (truthy j'); [|exact T].
    unfold tracks, roundLive. effects. split; [exact Hr|]. split; [exact Hx|].
    intros Hl Hi. apply in_app_or in Hi. destruct Hi as [Hi|[Hi|[]]].
    + exact (Hp Hl Hi).
    + subst j'. simpl in Hs. rewrite String.eqb_refl in Hs. discriminate.
  - exact T.
  - unfold downloadImage. destruct f; exact T.
  - destruct (findInterval i (intervals s)) as [[i' jobs]|]; [|exact T].
    unfold intervalFires. apply runLoop_tracks_other; simpl; trivial; lia.
  - destruct (findRound r (rounds s)) as [x|] eqn:F; [|exact T].
    apply findRound_Some in F. destruct F as [F Er].
    destruct (Ok x F) as [_ [jh [rest [Et Mh]]]].
    unfold roundResumes. rewrite Et.
    destruct (reconcile_shape jh a now (completedJobs x)
                (withRounds (dropRound (rid x) (rounds s)) (nextRoundId s) s))
      as [c' [s' [E [Hc [R1 [R2 [R3 _]]]]]]].
    rewrite E. destruct (Nat.eq_dec (rid x) r0) as [E0|N0].
    + rewrite E0 in R1 |- *. apply runLoop_tracks_own; trivial.
      * destruct (Hx x F E0) as [Hj|Hj].
        -- rewrite Et in Hj. destruct Hj as [Hj|Hj]; [|left; exact Hj].
           subst jh. rewrite M in Mh. discriminate.
        -- right. apply Hc, Hj.
      * unfold roundLive. rewrite R1.
        apply (roundLive_dropRound_same r0 s (nextRoundId s)).
      * rewrite R2. exact Hr.
    + apply runLoop_tracks_other; trivial.
      * rewrite R2. exact Hr.
      * rewrite R1. simpl. intros y Hy. unfold dropRound in Hy.
        apply filter_In in Hy. apply Hx. tauto.
      * rewrite R3. simpl. intros Hl. apply Hp. rewrite <- Hl.
        unfold roundLive. rewrite R1. symmetry.
        apply (roundLive_dropRound_other (rid x) r0 s (nextRoundId s)), N0.
Qed.

Lemma tracks_run r0 tr : forall s,
  forallb (fun e => negb (submitsId j e) && negb (deletesId j e)) tr = true ->
  roundsOk s -> tracks r0 j s -> tracks r0 j (run tr s).
Proof.
  induction tr as [|e tr IH]; intros s Htr Ok T; simpl in *; [exact T|].
  apply andb_prop in Htr. destruct Htr as [He Htr].
  apply andb_prop in He. destruct He as [Hs _]. apply negb_true_iff in Hs.
  apply IH; trivial.
  - apply roundsOk_step, Ok.
  - apply tracks_step; assumption.
Qed.

(** No call of a session waits for an answer about [j]. *)
Lemma malformed_not_awaited e s : roundsOk s -> answersFor j e s = false.
Proof.
  intros Ok. destruct e; simpl; try reflexivity.
  destruct (findRound r (rounds s)) as [x|] eqn:F; [|reflexivity].
  apply findRound_Some in F. destruct F as [F _].
  destruct (Ok x F) as [_ [jh [rest [Et Mh]]]]. unfold awaits. rewrite Et.
  apply String.eqb_neq. intros E. subst jh. rewrite M in Mh. discriminate.
Qed.

Lemma records_malformed_run tr : forall s,
  roundsOk s ->
  forallb (fun e => negb (submitsId j e) && negb (deletesId j e)) tr = true ->
  recordsOf j (images (run tr s)) = recordsOf j (images s).
Proof.
  induction tr as [|e tr IH]; intros s Ok Htr; simpl in *; [reflexivity|].
  apply andb_prop in Htr. destruct Htr as [He Htr].
  apply andb_prop in He. destruct He as [Hs Hd].
  apply negb_true_iff in Hs. apply negb_true_iff in Hd.
  rewrite IH; trivial; [|apply roundsOk_step, Ok].
  apply recordsOf_step; trivial.
  rewrite (malformed_not_awaited e s Ok). discriminate.
Qed.

End MalformedJob.

(** C5.  A tick whose closure holds an id that is empty or the string
    undefined: no query is ever sent for that id; polling leaves its
    records as they are (no transition to error); once the call started
    by the tick is over the id is out of [pendingJobs].  The events of
    [tr] follow the tick in any order, the job being neither deleted
    nor handed out again by the gateway meanwhile.  And the call does
    come to its end: answered at each of its queries it is over, having
    queried the well-formed ids of its closure and no other. *)
Theorem malformed_id_dropped (s : Home) (i : nat) (jobs : list string)
                             (j : string) (tr : list Event) :
  reachable s ->
  In (i, jobs) (intervals s) ->
  In j jobs ->
  malformed j = true ->
  forallb (fun e => negb (submitsId j e) && negb (deletesId j e)) tr = true ->
  ~ In (GET_results j) (requests (run (Tick i :: tr) s)) /\
  recordsOf j (images (run (Tick i :: tr) s)) = recordsOf j (images s) /\
  (roundLive (nextRoundId s) (run (Tick i :: tr) s) = false ->
   ~ In j (pendingJobs (run (Tick i :: tr) s))) /\
  (forall answers,
     length answers = length (queries jobs) ->
     roundLive (nextRoundId s) (nextRound i answers s) = false /\
     requests (nextRound i answers s) = requests s ++ queries jobs).
Proof.
  intros R Hi Hj M Htr.
  destruct (reachable_invariants s R) as [_ Ok].
  assert (F : findInterval i (intervals s) = Some (i, jobs)).
  { assert (T := reachable_timersOk s R). unfold timersOk in T.
    destruct (pendingJobs s) as [|j0 l].
    - destruct T as [T _]. rewrite T in Hi. destruct Hi.
    - destruct T as [i0 [T _]]. rewrite T in Hi |- *.
      destruct Hi as [Hi|[]]. inversion Hi. subst. unfold findInterval. simpl.
      rewrite Nat.eqb_refl. reflexivity. }
  assert (Hfresh : roundLive (nextRoundId s)
                     (withRounds (rounds s) (S (nextRoundId s)) s) = false).
  { apply roundLive_false. simpl. intros x Hx E.
    destruct (Ok x Hx) as [Hlt _]. lia. }
  split; [|split; [|split]].
  - destruct (reachable_invariants _ (reachable_run (Tick i :: tr) s R)) as [Q _].
    exact (Q j M).
  - apply (records_malformed_run j M); trivial.
  - simpl. rewrite F.
    assert (T : tracks (nextRoundId s) j (run tr (intervalFires jobs s))).
    { apply (tracks_run j M); trivial.
      - assert (Ok' := roundsOk_step (Tick i) s Ok). simpl in Ok'.
        rewrite F in Ok'. exact Ok'.
      - unfold intervalFires. apply (runLoop_tracks_own j); trivial.
        + left. exact Hj.
        + simpl. lia. }
    destruct T as [_ [_ T]]. exact T.
  - intros answers Hn. unfold nextRound. simpl. rewrite F. unfold intervalFires.
    apply (runLoop_alone (nextRoundId s) jobs []
             (withRounds (rounds s) (S (nextRoundId s)) s) answers Hfresh Hn).
Qed.

Lemma reachable_corrupted : reachable corrupted.
Proof.
  exists None, fresh,
    [Type_ "a green frog"; Generate; Generated 0 (Ok (Some "undefined"%string)) 90;
     Type_ "a red fox"; Generate; Generated 0 (Ok (Some "abc123"%string)) 100].
  split; vm_compute; reflexivity.
Qed.

(** [pendingJobs] holds undefined and abc123; the tick skips the first
    and queries the second, which is still running. *)
Lemma malformed_id_dropped_witness :
  intervals corrupted = [(1, ["undefined"%string; "abc123"%string])] /\
  pendingJobs (run (Tick 1 :: stillRunning) corrupted) = ["abc123"%string] /\
  map outcome (recordsOf "undefined" (images (run (Tick 1 :: stillRunning) corrupted)))
  = [(Loading, None, None)] /\
  requests (run (Tick 1 :: stillRunning) corrupted)
  = [POST_generate "a green frog"; POST_generate "a red fox"; GET_results "abc123"] /\
  (~ In (GET_results "undefined") (requests (run (Tick 1 :: stillRunning) corrupted)) /\
   recordsOf "undefined" (images (run (Tick 1 :: stillRunning) corrupted))
   = recordsOf "undefined" (images corrupted) /\
   (roundLive (nextRoundId corrupted) (run (Tick 1 :: stillRunning) corrupted) = false ->
    ~ In "undefined"%string (pendingJobs (run (Tick 1 :: stillRunning) corrupted))) /\
   (forall answers,
      length answers = length (queries ["undefined"%string; "abc123"%string]) ->
      roundLive (nextRoundId corrupted) (nextRound 1 answers corrupted) = false /\
      requests (nextRound 1 answers corrupted)
      = requests corrupted ++ queries ["undefined"%string; "abc123"%string])).
Proof.
  split; [vm_compute; reflexivity|].
  split; [vm_compute; reflexivity|].
  split; [vm_compute; reflexivity|].
  split; [vm_compute; reflexivity|].
  apply (malformed_id_dropped corrupted 1 ["undefined"%string; "abc123"%string]
           "undefined"%string stillRunning).
  - exact reachable_corrupted.
  - vm_compute. left. reflexivity.
  - vm_compute. left. reflexivity.
  - vm_compute; reflexivity.
  - vm_compute; reflexivity.
Defined.

(** ** Submission (page.tsx 120-156) *)

Lemma trimStart_blank s : whitespaceOnly s = true -> trimStart s = EmptyString.
Proof.
  unfold whitespaceOnly, chars. induction s as [|c s IH]; simpl; [reflexivity|].
  intros H. apply andb_prop in H. destruct H as [Hc Hs]. rewrite Hc. apply IH, Hs.
Qed.

Lemma trim_blank s : whitespaceOnly s = true -> trim s = EmptyString.
Proof. intros H. unfold trim. rewrite (trimStart_blank s H). reflexivity. Qed.

Lemma trimEnd_empty s : trimEnd s = EmptyString -> whitespaceOnly s = true.
Proof.
  unfold whitespaceOnly, chars. induction s as [|c s IH]; simpl; [reflexivity|].
  destruct (trimEnd s) as [|c' s'] eqn:E; [|discriminate].
  destruct (isWhiteSpace c); [|discriminate]. intros _. apply IH. reflexivity.
Qed.

Lemma trimStart_head s :
  trimStart s = EmptyString \/
  exists c r, trimStart s = String c r /\ isWhiteSpace c = false.
Proof.
  induction s as [|c s IH]; simpl; [left; reflexivity|].
  destruct (isWhiteSpace c) eqn:E; [exact IH|].
  right. exists c, s. tauto.
Qed.

Lemma trimStart_empty s : trimStart s = EmptyString -> whitespaceOnly s = true.
Proof.
  unfold whitespaceOnly, chars. induction s as [|c s IH]; simpl; [reflexivity|].
  destruct (isWhiteSpace c); [exact IH | discriminate].
Qed.

(** [!prompt.trim()] holds exactly for the prompts made of white space. *)
Lemma trim_falsy_iff s : truthy (trim s) = false <-> whitespaceOnly s = true.
Proof.
  split.
  - intros H. assert (E : trim s = EmptyString) by (destruct (trim s); [reflexivity | discriminate]).
    unfold trim in E. destruct (trimStart_head s) as [H0|[c [r [H0 Hc]]]].
    + apply trimStart_empty, H0.
    + rewrite H0 in E. apply trimEnd_empty in E. unfold whitespaceOnly in E.
      simpl in E. rewrite Hc in E. discriminate.
  - intros H. rewrite (trim_blank s H). reflexivity.
Qed.

(** C8.  A prompt that is empty or made of white space: [generateImage]
    returns at once, nothing is sent to the gateway and the state is
    the same.  A submission that fails (fetch throws, answer not ok,
    unreadable body, no job id in the body): the failure notice is
    shown, and the store, its storage item, the working set and the
    interval are left as they were. *)
Theorem rejected_and_failed_submissions (s : Home) :
  (whitespaceOnly (prompt s) = true -> step Generate s = s) /\
  (forall k text a now,
     nth_error (submissions s) k = Some text ->
     submitFails a = true ->
     images (step (Generated k a now) s) = images s /\
     pendingJobs (step (Generated k a now) s) = pendingJobs s /\
     localStorage (step (Generated k a now) s) = localStorage s /\
     intervals (step (Generated k a now) s) = intervals s /\
     alerts (step (Generated k a now) s) = alerts s ++ [failureNotice]).
Proof.
  split.
  - intros H. simpl. unfold generateImage.
    rewrite (proj2 (trim_falsy_iff (prompt s)) H). reflexivity.
  - intros k text a now Hk Hf. simpl. rewrite Hk. unfold generateImageResume.
    destruct a as [| | |[j|]]; try (repeat split; reflexivity).
    simpl in Hf. apply negb_true_iff in Hf. rewrite Hf. repeat split; reflexivity.
Qed.

Lemma rejected_and_failed_submissions_witness :
  requests (step Generate blankPrompt) = [] /\
  step Generate blankPrompt = blankPrompt /\
  images (step (Generated 0 NotOk 100) submitting) = [] /\
  alerts (step (Generated 0 (Ok None) 100) submitting) = [failureNotice].
Proof.
  split; [vm_compute; reflexivity|].
  split.
  - apply (proj1 (rejected_and_failed_submissions blankPrompt)).
    vm_compute; reflexivity.
  - assert (Hk : nth_error (submissions submitting) 0 = Some "a red fox"%string)
      by (vm_compute; reflexivity).
    split.
    + apply (proj2 (rejected_and_failed_submissions submitting)
               0 "a red fox"%string NotOk 100%Z Hk eq_refl).
    + apply (proj2 (rejected_and_failed_submissions submitting)
               0 "a red fox"%string (Ok None) 100%Z Hk eq_refl).
Defined.

(** ** Ids in the store (page.tsx 142-150) *)

Lemma reachable_duplicated : reachable duplicated.
Proof.
  exists None, fresh,
    [Type_ "a red fox"; Generate; Generated 0 (Ok (Some "abc123"%string)) 100;
     Type_ "a blue heron"; Generate; Generated 0 (Ok (Some "abc123"%string)) 400].
  split; vm_compute; reflexivity.
Qed.

(** C9, as stated, fails: the gateway answers two submissions with one
    id; the second record is added like the first, nothing is reported,
    and the store holds two records with that id. *)
Lemma store_holds_duplicate_ids :
  reachable duplicated /\
  ids (images duplicated) = ["abc123"%string; "abc123"%string] /\
  alerts duplicated = [] /\
  ~ NoDup (ids (images duplicated)).
Proof.
  split; [exact reachable_duplicated|].
  split; [vm_compute; reflexivity|].
  split; [vm_compute; reflexivity|].
  intros H.
  assert (E : ids (images duplicated) = ["abc123"%string; "abc123"%string])
    by (vm_compute; reflexivity).
  rewrite E in H. inversion H as [|x l Hn _]. apply Hn. left. reflexivity.
Qed.

Lemma NoDup_ids_filter (f : Image -> bool) imgs :
  NoDup (ids imgs) -> NoDup (ids (filter f imgs)).
Proof.
  unfold ids. induction imgs as [|img imgs IH]; simpl; intros H; [constructor|].
  inversion H as [|x l Hn Hd]. subst. destruct (f img); simpl.
  - constructor; [|apply IH, Hd]. intros Hi. apply Hn.
    apply (ids_filter_incl f imgs _ Hi).
  - apply IH, Hd.
Qed.

Lemma NoDup_ids_step e s :
  NoDup (ids (images s)) -> gatewayIdsNew [e] s = true ->
  NoDup (ids (images (step e s))).
Proof.
  destruct e as [text| |k a now|j'|u text f|i|r a now]; simpl; intros H Hg; trivial.
  - unfold generateImage. destruct (negb _); exact H.
  - destruct (nth_error (submissions s) k) as [text|]; [|exact H].
    unfold generateImageResume.
    destruct a as [| | |[j'|]]; try exact H.
    destruct (truthy j'); [|exact H].
    effects. simpl. constructor; [|exact H].
    rewrite andb_true_r in Hg. simpl in Hg. apply negb_true_iff in Hg.
    intros Hi. apply existsb_hasId_iff in Hi. rewrite Hi in Hg. discriminate.
  - apply NoDup_ids_filter, H.
  - unfold downloadImage. destruct f; exact H.
  - destruct (findInterval i (intervals s)) as [[i' jobs]|]; [|exact H].
    unfold intervalFires. rewrite images_runLoop. exact H.
  - destruct (findRound r (rounds s)) as [x|]; [|exact H].
    rewrite ids_roundResumes. exact H.
Qed.

(** C9, as the code has it.  A submission answered with a job id always
    adds its record in front of the store: there is no check of the id
    and no duplicate-id failure.  The ids of the store are pairwise
    distinct as long as each id the gateway hands out is new to the
    store; updates and deletions keep them distinct. *)
Theorem ids_distinct_when_gateway_ids_new (s : Home) (tr : list Event) :
  NoDup (ids (images s)) ->
  gatewayIdsNew tr s = true ->
  NoDup (ids (images (run tr s))) /\
  (forall k text j now,
     nth_error (submissions s) k = Some text -> truthy j = true ->
     images (step (Generated k (Ok (Some j)) now) s) = newImage j text now :: images s).
Proof.
  intros H Hg. split.
  - revert s H Hg. induction tr as [|e tr IH]; intros s H Hg; simpl in *; [exact H|].
    apply andb_prop in Hg. destruct Hg as [He Htr].
    apply IH; [|exact Htr]. apply NoDup_ids_step; [exact H|].
    simpl. rewrite He. reflexivity.
  - intros k text j now Hk Hj. simpl. rewrite Hk. unfold generateImageResume.
    rewrite Hj. effects. reflexivity.
Qed.

Lemma ids_distinct_when_gateway_ids_new_witness :
  ids (images (run laterJob finished)) = ["def456"%string; "abc123"%string] /\
  (NoDup (ids (images (run laterJob finished))) /\
   (forall k text j now,
      nth_error (submissions finished) k = Some text -> truthy j = true ->
      images (step (Generated k (Ok (Some j)) now) finished)
      = newImage j text now :: images finished)).
Proof.
  split; [vm_compute; reflexivity|].
  apply (ids_distinct_when_gateway_ids_new finished laterJob).
  - assert (E : ids (images finished) = ["abc123"%string]) by (vm_compute; reflexivity).
    rewrite E. constructor; [intros [] | constructor].
  - vm_compute; reflexivity.
Defined.

(** ** The name of a download (page.tsx 170) *)

(** C7, as stated, fails: blanks are not stripped, each is replaced by
    an underscore. *)
Lemma downloadName_not_stripped :
  downloadName "a red fox" = "a_red_fox.jpg"%string /\
  downloadName_spec "a red fox" = "aredfox.jpg"%string /\
  downloadName "a red fox" <> downloadName_spec "a red fox".
Proof.
  split; [vm_compute; reflexivity|].
  split; [vm_compute; reflexivity|].
  vm_compute. discriminate.
Qed.

Lemma lower_replaced c :
  lowerUnit (if isAlnum c then c else "_"%char)
  = (if isAlnum c then lowerUnit c else "_"%char).
Proof. destruct (isAlnum c); reflexivity. Qed.

Lemma toLowerCase_replaceNonAlnum s :
  toLowerCase (replaceNonAlnum s)
  = mapUnits (fun c => if isAlnum c then lowerUnit c else "_"%char) s.
Proof.
  induction s as [|c s IH]; simpl; [reflexivity|].
  rewrite lower_replaced, IH. reflexivity.
Qed.

Lemma length_mapUnits f s : String.length (mapUnits f s) = String.length s.
Proof. induction s as [|c s IH]; simpl; [reflexivity | rewrite IH; reflexivity]. Qed.

Lemma length_substring_0 n : forall s,
  String.length (substring 0 n s) = Nat.min n (String.length s).
Proof.
  induction n as [|n IH]; intros s; destruct s as [|c s]; simpl; trivial.
  rewrite IH. reflexivity.
Qed.

Lemma length_append s t :
  String.length (s ++ t)%string = String.length s + String.length t.
Proof. induction s as [|c s IH]; simpl; [reflexivity | rewrite IH; reflexivity]. Qed.

Lemma nameUnit_of_unit c :
  isNameUnit (if isAlnum c then lowerUnit c else "_"%char) = true.
Proof. destruct c as [[] [] [] [] [] [] [] []]; reflexivity. Qed.

Lemma forallb_nameUnit s :
  forallb isNameUnit
    (chars (mapUnits (fun c => if isAlnum c then lowerUnit c else "_"%char) s)) = true.
Proof.
  unfold chars. induction s as [|c s IH]; simpl; [reflexivity|].
  rewrite nameUnit_of_unit, IH. reflexivity.
Qed.

(** C7, as the code has it.  The name is made from the first 30 units
    of the prompt, unit by unit: a letter or digit is lower-cased, any
    other unit becomes an underscore; the extension .jpg follows.  So
    the name has as many units as the cut prompt plus four, all of them
    lower-case letters, digits or underscores before the extension. *)
Theorem downloadName_shape (text : string) :
  downloadName text
  = (mapUnits (fun c => if isAlnum c then lowerUnit c else "_"%char) (slice 0 30 text)
     ++ ".jpg")%string /\
  String.length (downloadName text) = Nat.min 30 (String.length text) + 4 /\
  forallb isNameUnit (chars (toLowerCase (replaceNonAlnum (slice 0 30 text)))) = true.
Proof.
  unfold downloadName. rewrite toLowerCase_replaceNonAlnum.
  split; [reflexivity|]. split.
  - rewrite length_append, length_mapUnits. unfold slice.
    rewrite length_substring_0. reflexivity.
  - apply forallb_nameUnit.
Qed.

(** ** Persistence (page.tsx 42-53) *)

(** *** Numbers *)

Lemma scan_digits_follows s :
  follows s = true -> scan_digits s = (Decimal.Nil, s) /\ ends_number s = true.
Proof.
  destruct s as [|c s]; simpl; [tauto|].
  destruct c as [[] [] [] [] [] [] [] []]; simpl; intros H;
    try discriminate; split; reflexivity.
Qed.

Lemma scan_digits_print d : forall s,
  follows s = true -> scan_digits (print_uint d ++ s) = (d, s).
Proof.
  induction d; intros s H; simpl; try (rewrite (IHd s H); reflexivity).
  apply scan_digits_follows, H.
Qed.

Lemma to_uint_unorm p : Decimal.unorm (Pos.to_uint p) = Pos.to_uint p.
Proof.
  rewrite <- (DecimalPos.Unsigned.to_of (Pos.to_uint p)).
  rewrite DecimalPos.Unsigned.of_to. reflexivity.
Qed.

Lemma to_uint_head p d : Pos.to_uint p <> Decimal.D0 d.
Proof.
  intros E. assert (U := to_uint_unorm p). rewrite E in U.
  rewrite DecimalFacts.unorm_D0 in U.
  destruct (Decimal.nzhead d) eqn:N;
    [ unfold Decimal.unorm in U; rewrite N in U; inversion U; subst d;
      exact (DecimalPos.Unsigned.to_uint_nonzero p E)
    | rewrite (DecimalFacts.unorm_nzhead d) in U by (rewrite N; discriminate);
      exact (DecimalFacts.nzhead_nonzero d d U) .. ].
Qed.

Lemma parse_uint_print d s :
  canonical d -> follows s = true -> parse_uint (print_uint d ++ s) = Parsed (d, s).
Proof.
  intros [Hn Hz] H. unfold parse_uint. rewrite (scan_digits_print d s H).
  destruct (scan_digits_follows s H) as [_ He].
  destruct d; try (rewrite He; reflexivity).
  - contradiction.
  - rewrite (Hz d eq_refl). rewrite He. reflexivity.
Qed.

Lemma canonical_to_uint p : canonical (Pos.to_uint p).
Proof.
  split.
  - apply DecimalPos.Unsigned.to_uint_nonnil.
  - intros d' E. exfalso. exact (to_uint_head p d' E).
Qed.

Lemma canonical_zero : canonical (Decimal.D0 Decimal.Nil).
Proof. split; [discriminate | intros d' E; inversion E; reflexivity]. Qed.

(** *** Strings *)

Lemma parse_units_unit c fuel tail :
  parse_units (S fuel) (quote_unit c ++ tail)
  = andThen (parse_units fuel tail) (fun sr => Parsed (String c (fst sr), snd sr)).
Proof. destruct c as [[] [] [] [] [] [] [] []]; reflexivity. Qed.

Lemma parse_units_quote s : forall fuel rest,
  String.length s < fuel ->
  parse_units fuel (quote_units s ++ dquote :: rest) = Parsed (s, rest).
Proof.
  induction s as [|c s IH]; intros fuel rest H; simpl in *.
  - destruct fuel; [lia | reflexivity].
  - destruct fuel; [lia|]. rewrite <- app_assoc, parse_units_unit.
    rewrite IH by lia. reflexivity.
Qed.

Lemma length_quote_unit c : 1 <= length (quote_unit c).
Proof. destruct c as [[] [] [] [] [] [] [] []]; simpl; lia. Qed.

Lemma length_quote_units s : String.length s <= length (quote_units s).
Proof.
  induction s as [|c s IH]; simpl; [lia|].
  rewrite length_app. assert (H := length_quote_unit c). lia.
Qed.

Lemma quote_string_app k rest :
  quote_string k ++ rest = dquote :: quote_units k ++ dquote :: rest.
Proof. unfold quote_string. simpl. rewrite <- app_assoc. reflexivity. Qed.

Lemma parse_string_quote k rest :
  parse_string (quote_string k ++ rest) = Parsed (k, rest).
Proof.
  rewrite quote_string_app. unfold parse_string. simpl.
  change (parse_units (S (length (quote_units k ++ dquote :: rest)))
            (quote_units k ++ dquote :: rest) = Parsed (k, rest)).
  apply parse_units_quote. rewrite length_app. assert (H := length_quote_units k). lia.
Qed.

(** *** Values *)

Lemma json_nested_ind (P : json -> Prop) :
  P JNull -> (forall b, P (JBool b)) -> (forall n, P (JNum n)) ->
  (forall s, P (JStr s)) ->
  (forall l, Forall P l -> P (JArr l)) ->
  (forall ms, Forall (fun m => P (snd m)) ms -> P (JObj ms)) ->
  forall v, P v.
Proof.
  intros Hnull Hbool Hnum Hstr Harr Hobj. fix IH 1. intros [ |b|n|s|l|ms].
  - exact Hnull.
  - apply Hbool.
  - apply Hnum.
  - apply Hstr.
  - apply Harr. revert l. fix IHl 1. intros [|x l]; constructor.
    + apply IH.
    + apply IHl.
  - apply Hobj. revert ms. fix IHm 1. intros [|[k x] ms]; constructor.
    + apply IH.
    + apply IHm.
Qed.

Lemma print_array e es :
  print (JArr (e :: es)) = "["%char :: print e ++ print_rest es ++ ["]"%char].
Proof.
  change (print (JArr (e :: es)))
    with ("["%char :: (print e ++ print_rest es) ++ ["]"%char]).
  rewrite <- app_assoc. reflexivity.
Qed.

Lemma print_object k e ms :
  print (JObj ((k, e) :: ms))
  = "{"%char :: quote_string k ++ ":"%char :: print e
               ++ print_members_rest ms ++ ["}"%char].
Proof.
  change (print (JObj ((k, e) :: ms)))
    with ("{"%char :: (quote_string k ++ ":"%char :: print e ++ print_members_rest ms)
                      ++ ["}"%char]).
  f_equal. rewrite <- app_assoc. f_equal. rewrite <- app_comm_cons. f_equal.
  rewrite <- app_assoc. reflexivity.
Qed.

Lemma print_number_cases n :
  exists d, canonical d /\
    ((print_number n = print_uint d /\ Z.of_int (Decimal.Pos d) = n) \/
     (print_number n = "-"%char :: print_uint d /\ Z.of_int (Decimal.Neg d) = n
      /\ (n < 0)%Z)).
Proof.
  unfold print_number. assert (E := DecimalZ.of_to n).
  destruct n as [|p|p]; simpl in *.
  - exists (Decimal.D0 Decimal.Nil). split; [apply canonical_zero|]. left. tauto.
  - exists (Pos.to_uint p). split; [apply canonical_to_uint|]. left. tauto.
  - exists (Pos.to_uint p). split; [apply canonical_to_uint|]. right.
    split; [reflexivity|]. split; [exact E | lia].
Qed.

Lemma print_uint_head d rest :
  canonical d ->
  exists c r, print_uint d ++ rest = c :: r /\ digit_of c <> None.
Proof.
  intros [Hn _]. destruct d; try contradiction; simpl;
    eexists; eexists; (split; [reflexivity | discriminate]).
Qed.

Lemma digit_starts c r : digit_of c <> None -> starts_value (c :: r) = true.
Proof.
  destruct c as [[] [] [] [] [] [] [] []]; simpl; intros H;
    try reflexivity; exfalso; apply H; reflexivity.
Qed.

Lemma print_starts v rest : starts_value (print v ++ rest) = true.
Proof.
  destruct v as [ |[]|n|s|[|e es]|[|[k e] ms]]; try reflexivity.
  destruct (print_number_cases n) as [d [Hc [[E _]|[E _]]]]; simpl; rewrite E.
  - destruct (print_uint_head d rest Hc) as [c [r [E' Hd]]]. rewrite E'.
    apply digit_starts, Hd.
  - reflexivity.
Qed.

Lemma skip_ws_starts s : starts_value s = true -> skip_ws s = s.
Proof.
  destruct s as [|c s]; simpl; [reflexivity|].
  destruct (is_ws c); simpl; [discriminate | reflexivity].
Qed.

Lemma length_print_pos v : 1 <= length (print v).
Proof.
  assert (H := print_starts v []). rewrite List.app_nil_r in H.
  destruct (print v); [discriminate | simpl; lia].
Qed.

Lemma number_value_pos d n :
  Z.of_int (Decimal.Pos d) = n ->
  number_value false d = if isSafeInteger n then Parsed (JNum n) else Unmodelled.
Proof. intros E. unfold number_value. cbv beta iota zeta. rewrite E. reflexivity. Qed.

Lemma number_value_neg d n :
  Z.of_int (Decimal.Neg d) = n -> (n < 0)%Z ->
  number_value true d = if isSafeInteger n then Parsed (JNum n) else Unmodelled.
Proof.
  intros E L. unfold number_value. cbv beta iota zeta. rewrite E.
  destruct (Z.eqb_spec n 0) as [Z0|_]; [lia | reflexivity].
Qed.

Lemma parse_value_digit f c r :
  digit_of c <> None ->
  parse_value (S f) (c :: r)
  = andThen (parse_uint (c :: r)) (fun dr =>
    andThen (number_value false (fst dr)) (fun v => Parsed (v, snd dr))).
Proof.
  destruct c as [[] [] [] [] [] [] [] []]; intros H;
    try reflexivity; exfalso; apply H; reflexivity.
Qed.

Lemma parse_elements_S f s :
  parse_elements (S f) s
  = andThen (parse_value f s) (fun vr =>
    match skip_ws (snd vr) with
    | c :: r' =>
        if (N_of_ascii c =? 44)%N then
          andThen (parse_elements f (skip_ws r')) (fun vsr =>
          Parsed (fst vr :: fst vsr, snd vsr))
        else if (N_of_ascii c =? 93)%N then Parsed ([fst vr], r')
        else SyntaxError
    | [] => SyntaxError
    end).
Proof. reflexivity. Qed.

Lemma parse_members_S f s :
  parse_members (S f) s
  = andThen (parse_string s) (fun kr =>
    match skip_ws (snd kr) with
    | c :: r1 =>
        if (N_of_ascii c =? 58)%N then
          andThen (parse_value f (skip_ws r1)) (fun vr =>
          match skip_ws (snd vr) with
          | c' :: r3 =>
              if (N_of_ascii c' =? 44)%N then
                andThen (parse_members f (skip_ws r3)) (fun msr =>
                Parsed ((fst kr, fst vr) :: fst msr, snd msr))
              else if (N_of_ascii c' =? 125)%N then Parsed ([(fst kr, fst vr)], r3)
              else SyntaxError
          | [] => SyntaxError
          end)
        else SyntaxError
    | [] => SyntaxError
    end).
Proof. reflexivity. Qed.

Lemma parse_value_array f r :
  parse_value (S f) ("["%char :: r)
  = match skip_ws r with
    | c' :: r' =>
        if (N_of_ascii c' =? 93)%N then Parsed (JArr [], r')
        else
          andThen (parse_elements f (c' :: r')) (fun vr =>
          Parsed (JArr (fst vr), snd vr))
    | [] => SyntaxError
    end.
Proof. reflexivity. Qed.

Lemma parse_value_object f r :
  parse_value (S f) ("{"%char :: r)
  = match skip_ws r with
    | c' :: r' =>
        if (N_of_ascii c' =? 125)%N then Parsed (JObj [], r')
        else
          andThen (parse_members f (c' :: r')) (fun mr =>
          if keysOk (map fst (fst mr)) then Parsed (JObj (fst mr), snd mr)
          else Unmodelled)
    | [] => SyntaxError
    end.
Proof. reflexivity. Qed.

Lemma starts_not_closing c r :
  starts_value (c :: r) = true ->
  (N_of_ascii c =? 93)%N = false /\ (N_of_ascii c =? 125)%N = false.
Proof.
  simpl. intros H. apply andb_prop in H. destruct H as [H H2].
  apply andb_prop in H. destruct H as [_ H1].
  apply negb_true_iff in H1. apply negb_true_iff in H2. tauto.
Qed.

Lemma parse_value_minus f r :
  parse_value (S f) ("-"%char :: r)
  = andThen (parse_uint r) (fun dr =>
    andThen (number_value true (fst dr)) (fun v => Parsed (v, snd dr))).
Proof. reflexivity. Qed.

Lemma parse_value_quote f r :
  parse_value (S f) (dquote :: r)
  = andThen (parse_string (dquote :: r)) (fun sr => Parsed (JStr (fst sr), snd sr)).
Proof. reflexivity. Qed.

Lemma follows_print_rest es rest : follows (print_rest es ++ "]"%char :: rest) = true.
Proof. destruct es; reflexivity. Qed.

Lemma follows_print_members_rest ms rest :
  follows (print_members_rest ms ++ "}"%char :: rest) = true.
Proof. destruct ms as [|[k x] ms]; reflexivity. Qed.

Lemma skip_ws_quote k rest : skip_ws (quote_string k ++ rest) = quote_string k ++ rest.
Proof. rewrite quote_string_app. reflexivity. Qed.

(** The elements of an array, given what the reading makes of each. *)
Lemma parse_print_elements es : forall e fuel rest,
  Forall (fun v => forall fuel rest,
            length (print v) <= fuel -> follows rest = true ->
            parse_value fuel (print v ++ rest)
            = if jsValue v then Parsed (v, rest) else Unmodelled) (e :: es) ->
  length (print e) + length (print_rest es) + 1 <= fuel ->
  parse_elements fuel (print e ++ print_rest es ++ "]"%char :: rest)
  = if forallb jsValue (e :: es) then Parsed (e :: es, rest) else Unmodelled.
Proof.
  induction es as [|x es IH]; intros e fuel rest H Hf;
    inversion H as [|e' l He Hes]; subst;
    (destruct fuel as [|f]; [lia|]); rewrite parse_elements_S.
  - rewrite He; [|simpl in Hf; lia | reflexivity].
    cbn [forallb]. rewrite andb_true_r. destruct (jsValue e); reflexivity.
  - rewrite He; [|simpl in Hf; lia | apply follows_print_rest].
    change (forallb jsValue (e :: x :: es))
      with (jsValue e && forallb jsValue (x :: es)).
    destruct (jsValue e); [|reflexivity].
    change (print_rest (x :: es) ++ "]"%char :: rest)
      with (","%char :: (print x ++ print_rest es) ++ "]"%char :: rest).
    rewrite <- List.app_assoc.
    cbn [andThen fst snd andb].
    change (skip_ws (","%char :: print x ++ print_rest es ++ "]"%char :: rest))
      with (","%char :: print x ++ print_rest es ++ "]"%char :: rest).
    cbv beta iota.
    change ((N_of_ascii ","%char =? 44)%N) with true. cbv beta iota.
    rewrite (skip_ws_starts _ (print_starts x _)).
    rewrite (IH x f rest Hes).
    + destruct (forallb jsValue (x :: es)); reflexivity.
    + simpl in Hf. rewrite length_app in Hf. assert (L := length_print_pos e). lia.
Qed.

(** The members of an object, given what the reading makes of each
    value. *)
Lemma parse_print_members ms : forall k e fuel rest,
  Forall (fun m => forall fuel rest,
            length (print (snd m)) <= fuel -> follows rest = true ->
            parse_value fuel (print (snd m) ++ rest)
            = if jsValue (snd m) then Parsed (snd m, rest) else Unmodelled)
         ((k, e) :: ms) ->
  length (print e) + length (print_members_rest ms) + 1 <= fuel ->
  parse_members fuel (quote_string k ++ ":"%char :: print e
                        ++ print_members_rest ms ++ "}"%char :: rest)
  = if forallb (fun m => jsValue (snd m)) ((k, e) :: ms)
    then Parsed ((k, e) :: ms, rest) else Unmodelled.
Proof.
  induction ms as [|[k' x] ms IH]; intros k e fuel rest H Hf;
    inversion H as [|m l He Hms]; subst; simpl in He;
    (destruct fuel as [|f]; [lia|]); rewrite parse_members_S, parse_string_quote;
    cbn [andThen fst snd];
    change (skip_ws (":"%char :: print e ++ ?t)) with (":"%char :: print e ++ t);
    cbv beta iota; change ((N_of_ascii ":"%char =? 58)%N) with true; cbv beta iota;
    rewrite (skip_ws_starts _ (print_starts e _)).
  - rewrite He; [|simpl in Hf; lia | reflexivity].
    cbn [forallb snd]. rewrite andb_true_r. destruct (jsValue e); reflexivity.
  - rewrite He; [|simpl in Hf; lia | apply follows_print_members_rest].
    change (forallb (fun m => jsValue (snd m)) ((k, e) :: (k', x) :: ms))
      with (jsValue e && forallb (fun m => jsValue (snd m)) ((k', x) :: ms)).
    destruct (jsValue e); [|reflexivity].
    change (print_members_rest ((k', x) :: ms) ++ "}"%char :: rest)
      with (","%char :: (quote_string k' ++ ":"%char :: print x
                           ++ print_members_rest ms) ++ "}"%char :: rest).
    rewrite <- List.app_assoc. rewrite <- List.app_comm_cons, <- List.app_assoc.
    cbn [andThen fst snd andb].
    change (skip_ws (","%char :: ?t)) with (","%char :: t).
    cbv beta iota.
    change ((N_of_ascii ","%char =? 44)%N) with true. cbv beta iota.
    rewrite skip_ws_quote.
    rewrite (IH k' x f rest Hms).
    + destruct (forallb (fun m => jsValue (snd m)) ((k', x) :: ms)); reflexivity.
    + simpl in Hf. rewrite !length_app in Hf. simpl in Hf. rewrite length_app in Hf.
      assert (L := length_print_pos e). lia.
Qed.

Lemma jsValue_members ms :
  forallb (fun m : string * json => match m with (_, x) => jsValue x end) ms
  = forallb (fun m => jsValue (snd m)) ms.
Proof. induction ms as [|[k x] ms IH]; simpl; [reflexivity | rewrite IH; reflexivity]. Qed.

(** What the reading makes of the text of a value, whatever follows
    it: the value itself when it is a value of the program, and else
    nothing. *)
Lemma parse_print v : forall fuel rest,
  length (print v) <= fuel -> follows rest = true ->
  parse_value fuel (print v ++ rest)
  = if jsValue v then Parsed (v, rest) else Unmodelled.
Proof.
  induction v as [ |b|n|s|l H|ms H] using json_nested_ind; intros fuel rest Hf Hr;
    (destruct fuel as [|f];
     [match type of Hf with
      | length (print ?v) <= _ => assert (L := length_print_pos v); lia
      end|]).
  - reflexivity.
  - destruct b; reflexivity.
  - change (print (JNum n)) with (print_number n).
    change (jsValue (JNum n)) with (isSafeInteger n).
    destruct (print_number_cases n) as [d [Hc [[E Ez]|[E [Ez Hn]]]]]; rewrite E.
    + destruct (print_uint_head d rest Hc) as [c [r [E' Hd]]].
      rewrite E', (parse_value_digit f c r Hd), <- E'.
      rewrite (parse_uint_print d rest Hc Hr). cbn [andThen fst snd].
      rewrite (number_value_pos d n Ez). destruct (isSafeInteger n); reflexivity.
    + rewrite <- List.app_comm_cons, parse_value_minus.
      rewrite (parse_uint_print d rest Hc Hr). cbn [andThen fst snd].
      rewrite (number_value_neg d n Ez Hn). destruct (isSafeInteger n); reflexivity.
  - change (print (JStr s)) with (quote_string s).
    rewrite quote_string_app, parse_value_quote, <- quote_string_app.
    rewrite parse_string_quote. reflexivity.
  - destruct l as [|e es]; [reflexivity|].
    rewrite print_array in Hf |- *.
    rewrite <- List.app_comm_cons, <- !List.app_assoc, parse_value_array.
    change (["]"%char] ++ rest) with ("]"%char :: rest).
    rewrite (skip_ws_starts _ (print_starts e _)).
    remember (print e ++ print_rest es ++ "]"%char :: rest) as t eqn:Et.
    assert (Hs : starts_value t = true) by (rewrite Et; apply print_starts).
    destruct t as [|c' r']; [discriminate|].
    destruct (starts_not_closing c' r' Hs) as [H93 _]. rewrite H93, Et.
    rewrite (parse_print_elements es e f rest H).
    + change (jsValue (JArr (e :: es))) with (forallb jsValue (e :: es)).
      destruct (forallb jsValue (e :: es)); reflexivity.
    + simpl in Hf. rewrite !length_app in Hf. simpl in Hf. lia.
  - destruct ms as [|[k e] ms]; [reflexivity|].
    rewrite print_object in Hf |- *.
    rewrite <- List.app_comm_cons, <- !List.app_assoc, parse_value_object.
    rewrite <- List.app_comm_cons, <- !List.app_assoc.
    change (["}"%char] ++ rest) with ("}"%char :: rest).
    rewrite skip_ws_quote.
    remember (quote_string k ++ ":"%char :: print e
                ++ print_members_rest ms ++ "}"%char :: rest) as t eqn:Et.
    assert (Hs : starts_value t = true) by (rewrite Et, quote_string_app; reflexivity).
    destruct t as [|c' r']; [discriminate|].
    destruct (starts_not_closing c' r' Hs) as [_ H125]. rewrite H125, Et.
    rewrite (parse_print_members ms k e f rest H).
    + change (jsValue (JObj ((k, e) :: ms)))
        with (keysOk (map fst ((k, e) :: ms))
              && forallb (fun m : string * json => match m with (_, x) => jsValue x end)
                         ((k, e) :: ms)).
      rewrite jsValue_members.
      destruct (forallb (fun m => jsValue (snd m)) ((k, e) :: ms));
        [|rewrite andb_false_r; reflexivity].
      cbn [andThen fst snd]. rewrite andb_true_r.
      destruct (keysOk (map fst ((k, e) :: ms))); reflexivity.
    + simpl in Hf. rewrite !length_app in Hf. simpl in Hf. rewrite !length_app in Hf.
      simpl in Hf. lia.
Qed.

Lemma chars_of_list l : chars (string_of_list_ascii l) = l.
Proof. apply list_ascii_of_string_of_list_ascii. Qed.

(** [JSON.parse(JSON.stringify(v))]: [v] for a value of the program;
    the text of any other term of [json] is not followed. *)
Lemma JSON_parse_stringify_cases v :
  JSON_parse (JSON_stringify v) = if jsValue v then Parsed v else Unmodelled.
Proof.
  unfold JSON_parse, JSON_stringify. rewrite chars_of_list.
  rewrite (skip_ws_starts (print v)).
  - assert (E := parse_print v (S (length (print v))) []).
    rewrite List.app_nil_r in E. rewrite E; [|lia | reflexivity].
    destruct (jsValue v); reflexivity.
  - assert (H := print_starts v []). rewrite List.app_nil_r in H. exact H.
Qed.

Lemma JSON_parse_stringify v :
  jsValue v = true -> JSON_parse (JSON_stringify v) = Parsed v.
Proof. intros H. rewrite JSON_parse_stringify_cases, H. reflexivity. Qed.

(** *** Records *)

Lemma statusOfName_statusName st : statusOfName (statusName st) = Some st.
Proof. destruct st; reflexivity. Qed.

Lemma forallb_filter {A : Type} (p f : A -> bool) l :
  forallb p l = true -> forallb p (filter f l) = true.
Proof.
  rewrite !forallb_forall. intros H x Hx. apply filter_In in Hx. apply H. tauto.
Qed.

Lemma distinct_NoDup l : distinct l = true <-> NoDup l.
Proof.
  induction l as [|x l IH]; simpl.
  - split; [constructor | reflexivity].
  - rewrite andb_true_iff, negb_true_iff, IH. fold (includes l x).
    rewrite includes_false. split.
    + intros [H1 H2]. constructor; assumption.
    + intros H. inversion H. tauto.
Qed.

Lemma distinct_filter (f : string -> bool) l :
  distinct l = true -> distinct (filter f l) = true.
Proof. rewrite !distinct_NoDup. apply NoDup_filter. Qed.

Lemma getMember_app k ms1 ms2 :
  getMember k (ms1 ++ ms2)
  = match getMember k ms2 with
    | Some v => Some v
    | None => getMember k ms1
    end.
Proof.
  induction ms1 as [|[k' v] ms1 IH]; simpl.
  - destruct (getMember k ms2); reflexivity.
  - rewrite IH. destruct (getMember k ms2); reflexivity.
Qed.

(** Reading a property of the object that [jsonOfImage] writes. *)
Lemma getMember_members img k ks :
  getMember k (flat_map (fun k' => optMember k' (member img k')) ks)
  = if includes ks k then member img k else None.
Proof.
  induction ks as [|k' ks IH]; [reflexivity|].
  cbn [flat_map]. rewrite getMember_app, IH.
  unfold includes. cbn [existsb]. fold (includes ks k).
  destruct (String.eqb_spec k k') as [E|N]; cbn [orb].
  - subst k'. destruct (member img k) as [v|]; cbn [optMember getMember].
    + rewrite String.eqb_refl. destruct (includes ks k); reflexivity.
    + destruct (includes ks k); reflexivity.
  - assert (G : getMember k (optMember k' (member img k')) = None).
    { destruct (member img k') as [v|]; cbn [optMember getMember]; [|reflexivity].
      destruct (String.eqb_spec k k'); [contradiction | reflexivity]. }
    rewrite G. destruct (includes ks k); [destruct (member img k)|]; reflexivity.
Qed.

Lemma keys_members img ks :
  map fst (flat_map (fun k => optMember k (member img k)) ks)
  = filter (present img) ks.
Proof.
  induction ks as [|k ks IH]; [reflexivity|].
  cbn [flat_map filter]. rewrite map_app, IH. unfold present.
  destruct (member img k); reflexivity.
Qed.

Lemma ownKeysOk_parts img :
  ownKeysOk img = true ->
  distinct (GeneratedImage.keys img) = true /\
  forallb (includes interfaceKeys) (GeneratedImage.keys img) = true /\
  (forall k, includes interfaceKeys k = true -> present img k = true ->
             includes (GeneratedImage.keys img) k = true).
Proof.
  unfold ownKeysOk. intros H.
  apply andb_prop in H. destruct H as [H H3].
  apply andb_prop in H. destruct H as [H1 H2].
  split; [exact H1|]. split; [exact H2|].
  intros k Hk Hp. rewrite forallb_forall in H3.
  apply includes_In in Hk. specialize (H3 k Hk). rewrite Hp in H3. exact H3.
Qed.

Lemma storable_parts img :
  storable img = true ->
  ownKeysOk img = true /\
  isSafeInteger (GeneratedImage.startTime img) = true /\
  (forall c, GeneratedImage.completionTime img = Some c -> isSafeInteger c = true).
Proof.
  unfold storable. intros H.
  apply andb_prop in H. destruct H as [H H3].
  apply andb_prop in H. destruct H as [H1 H2].
  split; [exact H1|]. split; [exact H2|].
  intros c E. rewrite E in H3. exact H3.
Qed.

(** A record of the program is read back from its text, but for the
    keys that had no value. *)
Lemma imageOfJson_jsonOfImage img :
  storable img = true -> imageOfJson (jsonOfImage img) = Some (normalise img).
Proof.
  intros S. destruct (storable_parts img S) as [W [St Sc]].
  destruct (ownKeysOk_parts img W) as [W1 [W2 W3]].
  unfold imageOfJson, jsonOfImage. cbv zeta. rewrite keys_members.
  rewrite (distinct_filter _ _ W1), (forallb_filter _ _ _ W2). cbn [andb].
  rewrite !getMember_members.
  rewrite (W3 "id"%string eq_refl eq_refl), (W3 "prompt"%string eq_refl eq_refl),
    (W3 "status"%string eq_refl eq_refl), (W3 "startTime"%string eq_refl eq_refl).
  assert (Hu : (if includes (GeneratedImage.keys img) "url" then member img "url" else None)
               = option_map JStr (GeneratedImage.url img)).
  { destruct (GeneratedImage.url img) as [u|] eqn:U.
    - rewrite (W3 "url"%string eq_refl); [unfold member; simpl; rewrite U; reflexivity|].
      unfold present, member. simpl. rewrite U. reflexivity.
    - unfold member. simpl. rewrite U. destruct (includes (GeneratedImage.keys img) "url"); reflexivity. }
  assert (He : (if includes (GeneratedImage.keys img) "error"
                then member img "error" else None)
               = option_map JStr (GeneratedImage.error img)).
  { destruct (GeneratedImage.error img) as [e|] eqn:U.
    - rewrite (W3 "error"%string eq_refl); [unfold member; simpl; rewrite U; reflexivity|].
      unfold present, member. simpl. rewrite U. reflexivity.
    - unfold member. simpl. rewrite U. destruct (includes (GeneratedImage.keys img) "error"); reflexivity. }
  assert (Hc : (if includes (GeneratedImage.keys img) "completionTime"
                then member img "completionTime" else None)
               = option_map JNum (GeneratedImage.completionTime img)).
  { destruct (GeneratedImage.completionTime img) as [c|] eqn:U.
    - rewrite (W3 "completionTime"%string eq_refl);
        [unfold member; simpl; rewrite U; reflexivity|].
      unfold present, member. simpl. rewrite U. reflexivity.
    - unfold member. simpl. rewrite U. destruct (includes (GeneratedImage.keys img) "completionTime"); reflexivity. }
  rewrite Hu, He, Hc. unfold member at 1 2 3 4. simpl.
  rewrite statusOfName_statusName, St.
  destruct img as [i p st u e t c ks]. simpl in *.
  destruct u, e, c as [c|]; simpl; try rewrite (Sc c eq_refl); reflexivity.
Qed.

Lemma interfaceKey_not_index k :
  includes interfaceKeys k = true -> isIndexKey k = false.
Proof.
  unfold includes, interfaceKeys. simpl. intros H.
  repeat (apply orb_prop in H; destruct H as [H|H]); try discriminate;
    apply String.eqb_eq in H; subst k; reflexivity.
Qed.

Lemma jsValue_member img k v :
  storable img = true -> member img k = Some v -> jsValue v = true.
Proof.
  intros S. destruct (storable_parts img S) as [_ [St Sc]]. unfold member.
  repeat match goal with
         | |- context [String.eqb k ?x] => destruct (String.eqb k x)
         end; intros E; try discriminate; try (inversion E; reflexivity).
  - destruct (GeneratedImage.url img); inversion E; reflexivity.
  - destruct (GeneratedImage.error img); inversion E; reflexivity.
  - inversion E. exact St.
  - destruct (GeneratedImage.completionTime img) as [c|] eqn:C; inversion E.
    apply (Sc c eq_refl).
Qed.

Lemma jsValue_jsonOfImage img : storable img = true -> jsValue (jsonOfImage img) = true.
Proof.
  intros S. destruct (storable_parts img S) as [W _].
  destruct (ownKeysOk_parts img W) as [W1 [W2 _]].
  unfold jsonOfImage. cbn [jsValue]. rewrite keys_members, jsValue_members.
  apply andb_true_intro. split.
  - unfold keysOk. rewrite (distinct_filter _ _ W1). apply forallb_forall.
    intros k Hk. apply filter_In in Hk. destruct Hk as [Hk _].
    rewrite forallb_forall in W2. rewrite (interfaceKey_not_index k (W2 k Hk)).
    reflexivity.
  - apply forallb_forall. intros [k v] Hm. apply in_flat_map in Hm.
    destruct Hm as [k' [_ Hm]]. destruct (member img k') as [v'|] eqn:M;
      [|destruct Hm].
    destruct Hm as [E|[]]. inversion E. subst. apply (jsValue_member img k v S M).
Qed.

Lemma imagesOfJson_jsonOfImages imgs :
  forallb storable imgs = true ->
  imagesOfJson (jsonOfImages imgs) = Some (map normalise imgs).
Proof.
  unfold jsonOfImages, imagesOfJson.
  induction imgs as [|img imgs IH]; intros H; [reflexivity|].
  cbn [forallb] in H. apply andb_prop in H. destruct H as [Hi H].
  change (map jsonOfImage (img :: imgs)) with (jsonOfImage img :: map jsonOfImage imgs).
  change (imagesOfElems (jsonOfImage img :: map jsonOfImage imgs))
    with (match imageOfJson (jsonOfImage img), imagesOfElems (map jsonOfImage imgs) with
          | Some x, Some xs => Some (x :: xs)
          | _, _ => None
          end).
  rewrite (imageOfJson_jsonOfImage img Hi), (IH H). reflexivity.
Qed.

Lemma jsValue_jsonOfImages imgs :
  forallb storable imgs = true -> jsValue (jsonOfImages imgs) = true.
Proof.
  unfold jsonOfImages. cbn [jsValue]. rewrite !forallb_forall.
  intros H v Hv. apply in_map_iff in Hv. destruct Hv as [img [E Hi]]. subst v.
  apply jsValue_jsonOfImage, H, Hi.
Qed.

Lemma fields_normalise imgs : map fields (map normalise imgs) = map fields imgs.
Proof. rewrite map_map. apply map_ext. intros img. reflexivity. Qed.

Lemma truthy_stringify v : truthy (JSON_stringify v) = true.
Proof.
  unfold JSON_stringify. assert (L := length_print_pos v).
  destruct (print v); [simpl in L; lia | reflexivity].
Qed.

Lemma initialImages_persisted imgs :
  forallb storable imgs = true ->
  initialImages true (Some (persisted imgs)) = Returns (jsonOfImages imgs).
Proof.
  intros H. unfold initialImages, persisted. rewrite truthy_stringify.
  rewrite (JSON_parse_stringify _ (jsValue_jsonOfImages imgs H)). reflexivity.
Qed.

Lemma mount_persisted imgs :
  forallb storable imgs = true ->
  mount (Some (persisted imgs))
  = Mounted (pollingEffect (persistEffect
      (mkHome "" (map normalise imgs) [] (Some (persisted imgs))
              [] 0 None [] 0 [] [] [] [] []))).
Proof.
  intros H. unfold mount.
  rewrite (initialImages_persisted imgs H), (imagesOfJson_jsonOfImages imgs H).
  reflexivity.
Qed.

(** C10.  Whatever update of the store the page makes, the persistence
    effect writes the text of the new store, and the initializer reads
    that text back as the same sequence of records, in the same order,
    with every field (id, prompt, status, url, error, startTime,
    completionTime) as it was; the session mounted on that text starts
    with that store.  The records are those of the program: stamps that
    are safe integers, keys that account for an object. *)
Theorem persist_restore_roundtrip (s : Home) (f : list Image -> list Image) :
  forallb storable (f (images s)) = true ->
  localStorage (setImages f s)
  = Some (JSON_stringify (jsonOfImages (f (images s)))) /\
  JSON_parse (JSON_stringify (jsonOfImages (f (images s))))
  = Parsed (jsonOfImages (f (images s))) /\
  exists s',
    mount (localStorage (setImages f s)) = Mounted s' /\
    images s' = map normalise (f (images s)) /\
    map fields (images s') = map fields (f (images s)).
Proof.
  intros H.
  assert (E : localStorage (setImages f s)
              = Some (JSON_stringify (jsonOfImages (f (images s)))))
    by reflexivity.
  split; [exact E|].
  split; [apply JSON_parse_stringify, jsValue_jsonOfImages, H|].
  rewrite E. fold (persisted (f (images s))). rewrite (mount_persisted _ H).
  eexists. split; [reflexivity|]. effects.
  split; [reflexivity | apply fields_normalise].
Qed.

(** A job completes: the store that the page writes then is read back. *)
Lemma persist_restore_roundtrip_witness :
  map fields
    (markComplete "abc123" (Some "https://x/img.jpg"%string) 200 (images polling))
  = [("abc123"%string, "a red fox"%string, Complete,
      Some "https://x/img.jpg"%string, None, 100%Z, Some 200%Z)] /\
  exists s',
    mount (localStorage
             (setImages (markComplete "abc123" (Some "https://x/img.jpg"%string) 200)
                        polling)) = Mounted s' /\
    images s'
    = map normalise
        (markComplete "abc123" (Some "https://x/img.jpg"%string) 200 (images polling)) /\
    map fields (images s')
    = map fields
        (markComplete "abc123" (Some "https://x/img.jpg"%string) 200 (images polling)).
Proof.
  split; [vm_compute; reflexivity|].
  apply (persist_restore_roundtrip polling
           (markComplete "abc123" (Some "https://x/img.jpg"%string) 200)).
  vm_compute; reflexivity.
Defined.

(** C6, as stated, fails: a stored text that is not JSON makes the
    initializer throw; the store is not started empty. *)
Lemma corrupt_storage_throws :
  JSON_parse "{" = SyntaxError /\
  initialImages true (Some "{"%string) = Throws /\
  mount (Some "{"%string) = MountThrows.
Proof. repeat split; vm_compute; reflexivity. Qed.

(** C6, as the code has it.  With nothing in storage, or with the empty
    text, the store starts empty.  Any other text goes through
    [JSON.parse] unguarded: when it is not JSON the initializer throws,
    and the component does not mount.  The text written by the
    persistence effect never throws. *)
Theorem load_missing_or_corrupt :
  (exists s, mount None = Mounted s /\ images s = []) /\
  (exists s, mount (Some ""%string) = Mounted s /\ images s = []) /\
  (forall text, truthy text = true -> JSON_parse text = SyntaxError ->
     initialImages true (Some text) = Throws /\ mount (Some text) = MountThrows) /\
  (forall imgs, mount (Some (persisted imgs)) <> MountThrows).
Proof.
  split; [eexists; split; reflexivity|].
  split; [eexists; split; reflexivity|].
  split.
  - intros text Ht Hp. unfold mount, initialImages. rewrite Ht, Hp. tauto.
  - intros imgs. unfold mount, initialImages, persisted.
    rewrite truthy_stringify, JSON_parse_stringify_cases.
    destruct (jsValue (jsonOfImages imgs)); [|discriminate].
    destruct (imagesOfJson (jsonOfImages imgs)); discriminate.
Qed.

Lemma load_missing_or_corrupt_witness :
  initialImages true (Some "not json"%string) = Throws /\
  mount (Some "not json"%string) = MountThrows.
Proof.
  apply (proj1 (proj2 (proj2 load_missing_or_corrupt)) "not json"%string);
    vm_compute; reflexivity.
Defined.

(* ================================================================= *)
(** * Further properties *)

(** ** Reloading (page.tsx 42-56) *)

Lemma mounted_shape saved s0 :
  mount saved = Mounted s0 ->
  pendingJobs s0 = [] /\ intervals s0 = [] /\ rounds s0 = [] /\ requests s0 = [] /\
  localStorage s0 = Some (persisted (images s0)).
Proof.
  unfold mount. destruct (initialImages true saved) as [v| |]; [|discriminate|discriminate].
  destruct (imagesOfJson v) as [imgs|]; [|discriminate].
  intros E. inversion E. repeat split; reflexivity.
Qed.

(** ** Jobs that are out of the working set *)

Lemma offers_delete s j :
  offers s (Delete j) = true ->
  exists img, In img (recordsOf j (images s)) /\ isComplete img = true.
Proof.
  simpl. intros H. apply existsb_exists in H. destruct H as [img [Hi H]].
  apply andb_prop in H. destruct H as [Hc Hj]. exists img. split; [|exact Hc].
  apply filter_In. tauto.
Qed.

Lemma requests_runLoop_incl r jobs : forall c s q,
  In q (requests (runLoop r jobs c s)) ->
  In q (requests s) \/ exists j, In j jobs /\ q = GET_results j.
Proof.
  induction jobs as [|j jobs IH]; intros c s q H; simpl in H.
  - rewrite requests_finishRound in H. left. exact H.
  - destruct (malformed j).
    + destruct (IH _ _ _ H) as [H'|[j' [Hj Hq]]]; [left; exact H'|].
      right. exists j'. split; [right; exact Hj | exact Hq].
    + simpl in H. apply in_app_or in H. destruct H as [H|[H|[]]]; [left; exact H|].
      right. exists j. split; [left; reflexivity | symmetry; exact H].
Qed.

(** No query goes out for an id that is out of the working set. *)
Lemma requests_step_retired e s j :
  isRetired j s ->
  In (GET_results j) (requests (step e s)) -> In (GET_results j) (requests s).
Proof.
  intros [H1 [H2 H3]].
  destruct e as [text| |k a now|j'|u text f|i|r a now]; simpl; intros H; trivial.
  - unfold generateImage in H. destruct (negb _); [exact H|].
    simpl in H. apply in_app_or in H. destruct H as [H|[H|[]]]; [exact H | discriminate].
  - destruct (nth_error (submissions s) k) as [text|]; [|exact H].
    unfold generateImageResume in H.
    destruct a as [| | |[j'|]]; try exact H.
    destruct (truthy j'); [|exact H]. effects_in H. exact H.
  - unfold downloadImage in H.
    assert (R : In (GET_results j) (requests (request (GET_url u) s)) ->
                In (GET_results j) (requests s)).
    { simpl. intros Hi. apply in_app_or in Hi.
      destruct Hi as [Hi|[Hi|[]]]; [exact Hi | discriminate]. }
    destruct f; apply R; exact H.
  - destruct (findInterval i (intervals s)) as [[i' jobs]|] eqn:F; [|exact H].
    apply findInterval_Some in F. destruct F as [F _].
    unfold intervalFires in H. apply requests_runLoop_incl in H.
    destruct H as [H|[j0 [Hj Hq]]]; [exact H|].
    inversion Hq. subst j0. exfalso. exact (H2 _ F Hj).
  - destruct (findRound r (rounds s)) as [x|] eqn:F; [|exact H].
    apply findRound_Some in F. destruct F as [F _].
    unfold roundResumes in H. destruct (todo x) as [|jh rest] eqn:Et; [exact H|].
    destruct (reconcile_shape jh a now (completedJobs x)
                (withRounds (dropRound (rid x) (rounds s)) (nextRoundId s) s))
      as [c' [s' [E [_ [_ [_ [_ R4]]]]]]].
    rewrite E in H. apply requests_runLoop_incl in H.
    destruct H as [H|[j0 [Hj Hq]]]; [rewrite R4 in H; exact H|].
    inversion Hq. subst j0. exfalso. apply (H3 x F). rewrite Et. right. exact Hj.
Qed.

(** A job without a complete record that is out of the working set:
    nothing the page lets happen changes, deletes or queries it. *)
Lemma unfinished_run j tr : forall s,
  isRetired j s ->
  forallb (fun img => negb (isComplete img)) (recordsOf j (images s)) = true ->
  uiDriven tr s = true ->
  forallb (fun e => negb (submitsId j e)) tr = true ->
  recordsOf j (images (run tr s)) = recordsOf j (images s) /\
  (In (GET_results j) (requests (run tr s)) -> In (GET_results j) (requests s)).
Proof.
  induction tr as [|e tr IH]; intros s R U Hu Hs; simpl in *; [tauto|].
  apply andb_prop in Hu. destruct Hu as [Ho Hu].
  apply andb_prop in Hs. destruct Hs as [He Hs]. apply negb_true_iff in He.
  assert (Hd : deletesId j e = false).
  { destruct e; try reflexivity. simpl. apply String.eqb_neq. intros E. subst jobId.
    destruct (offers_delete s j Ho) as [img [Hi Hc]].
    rewrite forallb_forall in U. specialize (U img Hi). rewrite Hc in U. discriminate. }
  destruct (isRetired_step e s j He R) as [R' Ha].
  assert (E : recordsOf j (images (step e s)) = recordsOf j (images s)).
  { apply recordsOf_step; trivial. rewrite Ha. discriminate. }
  destruct (IH (step e s) R') as [H1 H2]; trivial.
  - rewrite E. exact U.
  - split; [rewrite H1; exact E|].
    intros Hq. apply (requests_step_retired e s j R), H2, Hq.
Qed.

(** X2.  A job that a reload finds in storage without a complete record
    (pending or failed) stays as it is for the rest of the session: the
    page offers no button to delete it, no query is ever sent for it,
    and no event changes its records, unless the gateway hands out its
    id again. *)
Theorem restored_unfinished_job_is_stuck
        (saved : option string) (s0 : Home) (j : string) (tr : list Event) :
  mount saved = Mounted s0 ->
  forallb (fun img => negb (isComplete img)) (recordsOf j (images s0)) = true ->
  uiDriven tr s0 = true ->
  forallb (fun e => negb (submitsId j e)) tr = true ->
  recordsOf j (images (run tr s0)) = recordsOf j (images s0) /\
  ~ In (GET_results j) (requests (run tr s0)).
Proof.
  intros Hm U Hu Hs.
  destruct (mounted_shape saved s0 Hm) as [Hp [Hi [Hr [Hq _]]]].
  assert (R : isRetired j s0).
  { unfold isRetired. rewrite Hp, Hi, Hr. simpl. repeat split; try tauto; intros ? []. }
  destruct (unfinished_run j tr s0 R U Hu Hs) as [H1 H2].
  split; [exact H1|]. intros H. apply H2 in H. rewrite Hq in H. destruct H.
Qed.

Lemma restored_unfinished_job_is_stuck_witness :
  map outcome (recordsOf "A" (images stuck)) = [(Loading, None, None)] /\
  ids (images (run browsing stuck)) = ["B"%string; "A"%string] /\
  (recordsOf "A" (images (run browsing stuck)) = recordsOf "A" (images stuck) /\
   ~ In (GET_results "A") (requests (run browsing stuck))).
Proof.
  split; [vm_compute; reflexivity|].
  split; [vm_compute; reflexivity|].
  apply (restored_unfinished_job_is_stuck
           (Some (persisted
                    [GeneratedImage.mk "B" "a blue heron" Error None
                       (Some "OOM"%string) 110 (Some 300%Z)
                       ["id"; "prompt"; "status"; "startTime"; "error";
                        "completionTime"]%string;
                     newImage "A" "a red fox" 100]))
           stuck "A"%string browsing);
    vm_compute; reflexivity.
Defined.

(** ** Durations (page.tsx 19-38, 278-282) *)

Lemma chars_append a b : chars (a ++ b)%string = chars a ++ chars b.
Proof.
  unfold chars. induction a as [|c a IH]; simpl; [reflexivity|].
  rewrite IH. reflexivity.
Qed.

Lemma chars_numberToString n : chars (numberToString n) = print_number n.
Proof. apply chars_of_list. Qed.

Lemma print_number_nonneg n :
  (0 <= n)%Z ->
  exists d, canonical d /\ print_number n = print_uint d /\ Z.of_uint d = n.
Proof.
  intros H. unfold print_number. assert (E := DecimalZ.of_to n).
  destruct n as [|p|p]; simpl in *.
  - exists (Decimal.D0 Decimal.Nil). split; [apply canonical_zero|]. tauto.
  - exists (Pos.to_uint p). split; [apply canonical_to_uint|]. tauto.
  - lia.
Qed.

Lemma scan_digits_stop d : forall c s,
  digit_of c = None -> scan_digits (print_uint d ++ c :: s) = (d, c :: s).
Proof.
  induction d; intros c s H; simpl; try (rewrite (IHd c s H); reflexivity).
  rewrite H. reflexivity.
Qed.

Lemma readDuration_seconds d :
  canonical d ->
  readDuration (string_of_list_ascii (print_uint d ++ ["s"%char])) = Some (Z.of_uint d).
Proof.
  intros [Hn _]. unfold readDuration. rewrite chars_of_list.
  rewrite (scan_digits_stop d "s"%char [] eq_refl).
  destruct d; try contradiction; reflexivity.
Qed.

Lemma readDuration_minutes dm dr :
  canonical dm -> canonical dr ->
  readDuration (string_of_list_ascii
                  (print_uint dm ++ "m"%char :: " "%char :: print_uint dr ++ ["s"%char]))
  = Some (60 * Z.of_uint dm + Z.of_uint dr)%Z.
Proof.
  intros [Hm _] [Hr _]. unfold readDuration. rewrite chars_of_list.
  rewrite (scan_digits_stop dm "m"%char _ eq_refl).
  assert (E : scan_digits (print_uint dr ++ ["s"%char]) = (dr, ["s"%char]))
    by apply (scan_digits_stop dr "s"%char [] eq_refl).
  destruct dm; try contradiction; cbn [Ascii.eqb andb]; cbv beta iota;
    change (Ascii.eqb "m" "m" && Ascii.eqb " " " ") with true; cbv beta iota;
    rewrite E; destruct dr; try contradiction; reflexivity.
Qed.

Lemma string_of_chars s : string_of_list_ascii (chars s) = s.
Proof. apply string_of_list_ascii_of_string. Qed.

(** The text of a duration that is not negative, by cases. *)
Lemma formatDuration_nonneg ms :
  (0 <= ms)%Z ->
  exists dm dr,
    canonical dm /\ canonical dr /\
    (60 * Z.of_uint dm + Z.of_uint dr = ms / 1000)%Z /\
    (0 <= Z.of_uint dr < 60)%Z /\
    formatDuration ms
    = (if (0 <? Z.of_uint dm)%Z
       then string_of_list_ascii
              (print_uint dm ++ "m"%char :: " "%char :: print_uint dr ++ ["s"%char])
       else string_of_list_ascii (print_uint dr ++ ["s"%char])).
Proof.
  intros H. unfold formatDuration.
  assert (Hs : (0 <= ms / 1000)%Z) by (apply Z.div_pos; lia).
  assert (Hm : (0 <= ms / 1000 / 60)%Z) by (apply Z.div_pos; lia).
  assert (Hr : Z.rem (ms / 1000) 60 = ((ms / 1000) mod 60)%Z)
    by (apply Z.rem_mod_nonneg; lia).
  assert (Hb := Z.mod_pos_bound (ms / 1000) 60 ltac:(lia)).
  assert (Hd := Z.div_mod (ms / 1000) 60 ltac:(lia)).
  destruct (print_number_nonneg (ms / 1000 / 60) Hm) as [dm [Cm [Pm Vm]]].
  destruct (print_number_nonneg (Z.rem (ms / 1000) 60)) as [dr [Cr [Pr Vr]]];
    [rewrite Hr; lia|].
  exists dm, dr.
  split; [exact Cm|]. split; [exact Cr|]. split; [lia|]. split; [lia|].
  rewrite Vm. destruct (0 <? ms / 1000 / 60)%Z.
  - rewrite <- (string_of_chars (_ ++ _)%string).
    rewrite !chars_append, !chars_numberToString, Pm, Pr.
    simpl. rewrite <- List.app_assoc. reflexivity.
  - rewrite <- (string_of_chars (_ ++ _)%string).
    rewrite !chars_append, !chars_numberToString, Pr. reflexivity.
Qed.

Lemma readDuration_formatDuration ms :
  (0 <= ms)%Z -> readDuration (formatDuration ms) = Some (ms / 1000)%Z.
Proof.
  intros H.
  destruct (formatDuration_nonneg ms H) as [dm [dr [Cm [Cr [E [B F]]]]]].
  rewrite F. destruct (0 <? Z.of_uint dm)%Z eqn:L.
  - rewrite (readDuration_minutes dm dr Cm Cr), E. reflexivity.
  - rewrite (readDuration_seconds dr Cr). f_equal.
    apply Z.ltb_ge in L.
    assert (0 <= Z.of_uint dm)%Z.
    { assert (Hm : (0 <= ms / 1000 / 60)%Z) by (apply Z.div_pos; [apply Z.div_pos|]; lia).
      assert (Hq : (ms / 1000 / 60 = Z.of_uint dm)%Z).
      { assert (D := Z.div_mod (ms / 1000) 60 ltac:(lia)).
        assert (Bm := Z.mod_pos_bound (ms / 1000) 60 ltac:(lia)).
        nia. }
      lia. }
    lia.
Qed.

(** X3.  [formatDuration] on a duration that is a safe integer and not
    negative: the text reads back to the whole seconds of the duration,
    the seconds shown after the minutes being below 60; so two such
    durations have the same text exactly when they have the same whole
    seconds. *)
Theorem formatDuration_reads_back (ms ms' : Z) :
  isSafeInteger ms = true -> isSafeInteger ms' = true ->
  (0 <= ms)%Z -> (0 <= ms')%Z ->
  readDuration (formatDuration ms) = Some (ms / 1000)%Z /\
  (formatDuration ms = formatDuration ms' <-> (ms / 1000 = ms' / 1000)%Z).
Proof.
  intros _ _ H H'. split; [apply readDuration_formatDuration, H|]. split.
  - intros E. assert (R := readDuration_formatDuration ms H).
    rewrite E, (readDuration_formatDuration ms' H') in R. inversion R. reflexivity.
  - intros E. unfold formatDuration. rewrite E. reflexivity.
Qed.

Lemma formatDuration_reads_back_witness :
  formatDuration 125999 = "2m 5s"%string /\
  formatDuration 59999 = "59s"%string /\
  (readDuration (formatDuration 125999) = Some (125999 / 1000)%Z /\
   (formatDuration 125999 = formatDuration 125000
    <-> (125999 / 1000 = 125000 / 1000)%Z)).
Proof.
  split; [vm_compute; reflexivity|].
  split; [vm_compute; reflexivity|].
  apply (formatDuration_reads_back 125999 125000); try reflexivity; lia.
Defined.

(** X4.  [formatDuration] on a negative duration (the clock was set
    back), a safe integer: the minutes are never shown, only the
    remainder of the seconds with its sign, so whole minutes are lost,
    and a duration a minute longer, when it is a safe integer too, has
    the same text. *)
Theorem formatDuration_negative (ms : Z) :
  isSafeInteger ms = true ->
  isSafeInteger (ms - 60000) = true ->
  (ms < 0)%Z ->
  formatDuration ms = (numberToString (Z.rem (ms / 1000) 60) ++ "s")%string /\
  (-60 < Z.rem (ms / 1000) 60 <= 0)%Z /\
  formatDuration (ms - 60000) = formatDuration ms.
Proof.
  intros _ _ H.
  assert (Hs : (ms / 1000 < 0)%Z) by (apply Z.div_lt_upper_bound; lia).
  assert (Hm : forall x, (x < 0)%Z -> (0 <? x / 60)%Z = false).
  { intros x Hx. apply Z.ltb_ge. assert (x / 60 < 0)%Z by (apply Z.div_lt_upper_bound; lia).
    lia. }
  assert (Hrem : forall x, (x < 0)%Z -> Z.rem x 60 = (- ((- x) mod 60))%Z).
  { intros x Hx. replace x with (- - x)%Z at 1 by lia.
    rewrite Z.rem_opp_l', Z.rem_mod_nonneg by lia. reflexivity. }
  split; [|split].
  - unfold formatDuration. rewrite (Hm _ Hs). reflexivity.
  - rewrite (Hrem _ Hs). assert (B := Z.mod_pos_bound (- (ms / 1000)) 60 ltac:(lia)). lia.
  - unfold formatDuration.
    replace (ms - 60000)%Z with (ms + (-60) * 1000)%Z by lia.
    rewrite Z.div_add by lia.
    rewrite (Hm _ Hs), (Hm (ms / 1000 + -60)%Z) by lia.
    rewrite (Hrem _ Hs), (Hrem (ms / 1000 + -60)%Z) by lia.
    replace (- (ms / 1000 + -60))%Z with (- (ms / 1000) + 1 * 60)%Z by lia.
    rewrite Z.mod_add by lia. reflexivity.
Qed.

Lemma formatDuration_negative_witness :
  formatDuration (-61000) = "-1s"%string /\
  (formatDuration (-1000)
   = (numberToString (Z.rem (-1000 / 1000) 60) ++ "s")%string /\
   (-60 < Z.rem (-1000 / 1000) 60 <= 0)%Z /\
   formatDuration (-1000 - 60000) = formatDuration (-1000)).
Proof.
  split; [vm_compute; reflexivity|].
  apply (formatDuration_negative (-1000)); try reflexivity; lia.
Defined.

(** ** What polling leaves alone (page.tsx 58-115) *)

Lemma prompt_pollingEffect s : prompt (pollingEffect s) = prompt s.
Proof. unfold pollingEffect. destruct (Nat.eqb _ 0); reflexivity. Qed.

Lemma downloads_pollingEffect s : downloads (pollingEffect s) = downloads s.
Proof. unfold pollingEffect. destruct (Nat.eqb _ 0); reflexivity. Qed.

(** The loop touches neither the notices, nor the prompt box, nor the
    submissions that are out. *)
Lemma quiet_runLoop r jobs : forall c s,
  alerts (runLoop r jobs c s) = alerts s /\
  prompt (runLoop r jobs c s) = prompt s /\
  submissions (runLoop r jobs c s) = submissions s.
Proof.
  induction jobs as [|j jobs IH]; intros c s; simpl.
  - unfold finishRound. destruct (Nat.ltb 0 (length c)); [|tauto].
    unfold setPendingJobs.
    rewrite alerts_pollingEffect, prompt_pollingEffect, submissions_pollingEffect.
    tauto.
  - destruct (malformed j); [apply IH | tauto].
Qed.

Lemma core_markComplete j u now imgs :
  map core (markComplete j u now imgs) = map core imgs.
Proof.
  unfold markComplete. rewrite map_map. apply map_ext.
  intros img. destruct (String.eqb _ j); reflexivity.
Qed.

Lemma core_markError j m now imgs :
  map core (markError j m now imgs) = map core imgs.
Proof.
  unfold markError. rewrite map_map. apply map_ext.
  intros img. destruct (String.eqb _ j); reflexivity.
Qed.

Lemma quiet_step e s :
  isPolling e = true ->
  map core (images (step e s)) = map core (images s) /\
  alerts (step e s) = alerts s /\
  prompt (step e s) = prompt s /\
  submissions (step e s) = submissions s.
Proof.
  destruct e as [text| |k a now|j'|u text f|i|r a now]; try discriminate; intros _; simpl.
  - destruct (findInterval i (intervals s)) as [[i' jobs]|]; [|tauto].
    unfold intervalFires. rewrite images_runLoop.
    destruct (quiet_runLoop (nextRoundId s) jobs []
                (withRounds (rounds s) (S (nextRoundId s)) s)) as [E1 [E2 E3]].
    rewrite E1, E2, E3. tauto.
  - destruct (findRound r (rounds s)) as [x|]; [|tauto].
    split.
    + rewrite images_roundResumes. destruct (todo x); [reflexivity|].
      destruct a as [| | |[u|m|]]; try reflexivity.
      * apply core_markComplete.
      * apply core_markError.
    + unfold roundResumes. destruct (todo x) as [|jh rest]; [tauto|].
      destruct (reconcile jh a now (completedJobs x) _) as [c' s'] eqn:E.
      destruct (quiet_runLoop (rid x) rest c' s') as [E1 [E2 E3]].
      rewrite E1, E2, E3.
      destruct a as [| | |[u|m|]]; simpl in E; inversion E; subst; tauto.
Qed.

(** X5.  Ticks and answers of queries, in any number and order, never
    add, remove or reorder records and never change the id, the prompt
    or the start time of a record; they show no notice and leave the
    prompt box and the submissions in flight alone. *)
Theorem polling_keeps_records_in_place (tr : list Event) (s : Home) :
  forallb isPolling tr = true ->
  map core (images (run tr s)) = map core (images s) /\
  alerts (run tr s) = alerts s /\
  prompt (run tr s) = prompt s /\
  submissions (run tr s) = submissions s.
Proof.
  revert s. induction tr as [|e tr IH]; intros s H; simpl in *; [tauto|].
  apply andb_prop in H. destruct H as [He H].
  destruct (quiet_step e s He) as [E1 [E2 [E3 E4]]].
  destruct (IH (step e s) H) as [F1 [F2 [F3 F4]]].
  rewrite F1, F2, F3, F4. tauto.
Qed.

Lemma polling_keeps_records_in_place_witness :
  map outcome (images (run [Tick 0; Tick 0;
                            Polled 0 (Ok (SUCCESS (Some "https://x/img.jpg"%string))) 200;
                            Polled 1 (Ok (ERROR (Some "OOM"%string))) 300] submitted))
  = [(Error, Some "https://x/img.jpg"%string, Some "OOM"%string)] /\
  (map core (images (run [Tick 0; Tick 0;
                          Polled 0 (Ok (SUCCESS (Some "https://x/img.jpg"%string))) 200;
                          Polled 1 (Ok (ERROR (Some "OOM"%string))) 300] submitted))
   = map core (images submitted) /\
   alerts (run [Tick 0; Tick 0;
                Polled 0 (Ok (SUCCESS (Some "https://x/img.jpg"%string))) 200;
                Polled 1 (Ok (ERROR (Some "OOM"%string))) 300] submitted)
   = alerts submitted /\
   prompt (run [Tick 0; Tick 0;
                Polled 0 (Ok (SUCCESS (Some "https://x/img.jpg"%string))) 200;
                Polled 1 (Ok (ERROR (Some "OOM"%string))) 300] submitted)
   = prompt submitted /\
   submissions (run [Tick 0; Tick 0;
                     Polled 0 (Ok (SUCCESS (Some "https://x/img.jpg"%string))) 200;
                     Polled 1 (Ok (ERROR (Some "OOM"%string))) 300] submitted)
   = submissions submitted).
Proof.
  split; [vm_compute; reflexivity|].
  apply (polling_keeps_records_in_place
           [Tick 0; Tick 0;
            Polled 0 (Ok (SUCCESS (Some "https://x/img.jpg"%string))) 200;
            Polled 1 (Ok (ERROR (Some "OOM"%string))) 300] submitted).
  vm_compute; reflexivity.
Defined.

(** ** The routes between the page and the backend *)

Lemma received_json data :
  received (NextResponse_json data 200) = if jsValue data then Some (Ok data) else None.
Proof.
  unfold received, NextResponse_json. simpl. rewrite JSON_parse_stringify_cases.
  destruct (jsValue data); reflexivity.
Qed.

Lemma resultsGET_failure jobId backend :
  backendOk backend = false ->
  resultsGET (Some jobId) backend
  = NextResponse_json (errorBody "Failed to fetch results") 500.
Proof. destruct backend as [|[] [data|]]; try reflexivity; discriminate. Qed.

Lemma generatePOST_failure text backend :
  backendOk backend = false ->
  generatePOST (Form text) backend
  = NextResponse_json (errorBody "Failed to generate image") 500.
Proof. destruct backend as [|[] [data|]]; try reflexivity; discriminate. Qed.

(** X6.  Polling through the results route: whatever goes wrong behind
    the route (the backend is unreachable, answers with a status that is
    not ok, or with a body that is not JSON, even one that reports an
    error for the job), the route answers 500 with its own fixed body,
    the page sees an answer that is not ok, and the answer changes no
    record and shows no notice: the job is not marked as failed. *)
Theorem backend_failure_is_not_ok
        (s : Home) (r : nat) (jobId : string) (backend : BackendAnswer) (now : Z) :
  backendOk backend = false ->
  httpStatus (resultsGET (Some jobId) backend) = 500 /\
  body (resultsGET (Some jobId) backend)
  = JSON_stringify (errorBody "Failed to fetch results") /\
  pollAnswer jobId backend = Some NotOk /\
  images (step (Polled r NotOk now) s) = images s /\
  alerts (step (Polled r NotOk now) s) = alerts s.
Proof.
  intros H. unfold pollAnswer, throughRoute. rewrite (resultsGET_failure jobId backend H).
  split; [reflexivity|]. split; [reflexivity|]. split; [reflexivity|].
  simpl. destruct (findRound r (rounds s)) as [x|]; [|tauto].
  rewrite images_roundResumes. split; [destruct (todo x); reflexivity|].
  unfold roundResumes. destruct (todo x) as [|jh rest]; [reflexivity|]. simpl.
  match goal with
  | |- alerts (runLoop ?r ?jobs ?c ?s0) = _ =>
      destruct (quiet_runLoop r jobs c s0) as [E _]; rewrite E
  end.
  reflexivity.
Qed.

Lemma backend_failure_is_not_ok_witness :
  pollAnswer "abc123"
    (BackendSays false
       (Some (JObj [("status"%string, JStr "ERROR"); ("message"%string, JStr "OOM")])))
  = Some NotOk /\
  map outcome (images (step (Polled 0 NotOk 200) polling)) = [(Loading, None, None)].
Proof.
  split.
  - apply (backend_failure_is_not_ok polling 0 "abc123"%string
             (BackendSays false
                (Some (JObj [("status"%string, JStr "ERROR");
                             ("message"%string, JStr "OOM")]))) 200%Z).
    reflexivity.
  - vm_compute; reflexivity.
Defined.

(** X7.  Both routes are transparent for an answer of the backend that
    is ok and whose body is a JSON value of the embedding (safe integers,
    strings of units below 256, objects without a repeated key or a key
    of digits; a body with a fraction, say, is not among them): the page
    reads from the answer of the route exactly what it would read from
    the body of the backend. *)
Theorem routes_pass_ok_answers (jobId text : string) (data : json) :
  jsValue data = true ->
  received (resultsGET (Some jobId) (BackendSays true (Some data))) = Some (Ok data) /\
  pollAnswer jobId (BackendSays true (Some data)) = readPoll data /\
  submitAnswer text (BackendSays true (Some data)) = readJobId data.
Proof.
  intros H. unfold pollAnswer, submitAnswer, throughRoute. simpl.
  rewrite !received_json, H. tauto.
Qed.

Lemma routes_pass_ok_answers_witness :
  pollAnswer "abc123"
    (BackendSays true (Some (JObj [("status"%string, JStr "PENDING");
                                   ("progress"%string, JNum 50)])))
  = Some (Ok OTHER) /\
  submitAnswer "a red fox"
    (BackendSays true (Some (JObj [("job-id"%string, JStr "abc123")])))
  = Some (Ok (Some "abc123"%string)).
Proof.
  split.
  - destruct (routes_pass_ok_answers "abc123"%string "a red fox"%string
                (JObj [("status"%string, JStr "PENDING");
                       ("progress"%string, JNum 50)]) eq_refl) as [_ [H _]].
    rewrite H. reflexivity.
  - destruct (routes_pass_ok_answers "abc123"%string "a red fox"%string
                (JObj [("job-id"%string, JStr "abc123")]) eq_refl) as [_ [_ H]].
    rewrite H. reflexivity.
Defined.

(** X8.  A submission through the generate route: whatever goes wrong
    behind the route, the route answers 500, [generateImage] shows its
    failure notice and adds no record; the working set and the storage
    item stay as they were. *)
Theorem backend_failure_fails_submission
        (s : Home) (k : nat) (text : string) (backend : BackendAnswer) (now : Z) :
  nth_error (submissions s) k = Some text ->
  backendOk backend = false ->
  httpStatus (generatePOST (Form (Some text)) backend) = 500 /\
  submitAnswer text backend = Some NotOk /\
  images (step (Generated k NotOk now) s) = images s /\
  pendingJobs (step (Generated k NotOk now) s) = pendingJobs s /\
  localStorage (step (Generated k NotOk now) s) = localStorage s /\
  alerts (step (Generated k NotOk now) s) = alerts s ++ [failureNotice].
Proof.
  intros Hk H. unfold submitAnswer, throughRoute.
  rewrite (generatePOST_failure (Some text) backend H).
  split; [reflexivity|]. split; [reflexivity|].
  simpl. rewrite Hk. repeat split; reflexivity.
Qed.

Lemma backend_failure_fails_submission_witness :
  submitAnswer "a red fox" BackendDown = Some NotOk /\
  alerts (step (Generated 0 NotOk 100) submitting) = [failureNotice].
Proof.
  assert (Hk : nth_error (submissions submitting) 0 = Some "a red fox"%string)
    by (vm_compute; reflexivity).
  destruct (backend_failure_fails_submission submitting 0 "a red fox"%string
              BackendDown 100%Z Hk eq_refl) as [_ [H1 [_ [_ [_ H2]]]]].
  split; [exact H1 | exact H2].
Defined.

(** ** The query sent to the backend (generate/route.ts 8-11) *)

Lemma formDecodeUnit_encode c r : formDecodeUnit (formEncodeUnit c ++ r) = Some (c, r).
Proof. destruct c as [[] [] [] [] [] [] [] []]; reflexivity. Qed.

Lemma formEncodeUnits_inj p : forall q,
  formEncodeUnits p = formEncodeUnits q -> p = q.
Proof.
  induction p as [|c p IH]; intros [|c' q] E; simpl in E.
  - reflexivity.
  - apply (f_equal formDecodeUnit) in E. rewrite formDecodeUnit_encode in E. discriminate.
  - apply (f_equal formDecodeUnit) in E. rewrite formDecodeUnit_encode in E. discriminate.
  - apply (f_equal formDecodeUnit) in E. rewrite !formDecodeUnit_encode in E.
    inversion E. subst. f_equal. apply IH. assumption.
Qed.

Lemma queryUnits_of_unit c : forallb isQueryUnit (formEncodeUnit c) = true.
Proof. destruct c as [[] [] [] [] [] [] [] []]; reflexivity. Qed.

Lemma queryUnits_of_units p : forallb isQueryUnit (formEncodeUnits p) = true.
Proof.
  induction p as [|c p IH]; simpl; [reflexivity|].
  rewrite forallb_app, queryUnits_of_unit, IH. reflexivity.
Qed.

(** X9.  The query that the generate route sends to the backend: the
    encoded prompt is made of letters, digits and the characters
    * - . _ + % only, so a prompt cannot close the parameter or open
    another; two prompts with the same query are the same prompt; and a
    request without the text field sends the prompt null. *)
Theorem generateQuery_safe_and_faithful (p q : string) :
  forallb isQueryUnit (chars (formEncode p)) = true /\
  (generateQuery (Some p) = generateQuery (Some q) -> p = q) /\
  generateQuery None = generateQuery (Some "null"%string).
Proof.
  split; [|split].
  - unfold formEncode. rewrite chars_of_list. apply queryUnits_of_units.
  - unfold generateQuery, formEncode. simpl. intros E. inversion E as [E'].
    apply formEncodeUnits_inj.
    rewrite <- (chars_of_list (formEncodeUnits p)), <- (chars_of_list (formEncodeUnits q)).
    rewrite E'. reflexivity.
  - reflexivity.
Qed.

(** ** The shape of the records (page.tsx 76-104, 142-149, 235-282) *)

(** The writes to the store, step by step. *)
Lemma images_step e s :
  images (step e s) = images s \/
  (exists k j text now,
     e = Generated k (Ok (Some j)) now /\ truthy j = true /\
     nth_error (submissions s) k = Some text /\
     images (step e s) = newImage j text now :: images s) \/
  (exists j,
     e = Delete j /\
     images (step e s)
     = filter (fun img => negb (String.eqb (GeneratedImage.id img) j)) (images s)) \/
  (exists r a now j,
     e = Polled r a now /\
     ((exists u, a = Ok (SUCCESS u) /\
                 images (step e s) = markComplete j u now (images s)) \/
      (exists m, a = Ok (ERROR m) /\
                 images (step e s) = markError j m now (images s)))).
Proof.
  destruct e as [text| |k a now|j'|u text f|i|r a now]; simpl.
  - left; reflexivity.
  - left. unfold generateImage. destruct (negb _); reflexivity.
  - destruct (nth_error (submissions s) k) as [text|] eqn:E; [|left; reflexivity].
    unfold generateImageResume. destruct a as [| | |[j|]]; try (left; reflexivity).
    destruct (truthy j) eqn:T; [|left; reflexivity].
    right; left. exists k, j, text, now.
    split; [reflexivity|]. split; [exact T|]. split; [exact E|].
    effects. reflexivity.
  - right; right; left. exists j'. split; [reflexivity|].
    unfold deleteImage. effects. reflexivity.
  - left. unfold downloadImage. destruct f; reflexivity.
  - left. destruct (findInterval i (intervals s)) as [[i' jobs]|]; [|reflexivity].
    unfold intervalFires. rewrite images_runLoop. reflexivity.
  - destruct (findRound r (rounds s)) as [x|]; [|left; reflexivity].
    rewrite images_roundResumes. destruct (todo x) as [|j rest]; [left; reflexivity|].
    destruct a as [| | |[u|m|]]; try (left; reflexivity).
    + right; right; right. exists r, (Ok (SUCCESS u)), now, j.
      split; [reflexivity|]. left. exists u. split; reflexivity.
    + right; right; right. exists r, (Ok (ERROR m)), now, j.
      split; [reflexivity|]. right. exists m. split; reflexivity.
Qed.

Lemma wellShaped_markComplete j u now imgs :
  forallb wellShaped imgs = true ->
  forallb wellShaped (markComplete j u now imgs) = true.
Proof.
  unfold markComplete. rewrite !forallb_forall. intros H img Hi.
  apply in_map_iff in Hi. destruct Hi as [x [E Hx]]. subst img.
  destruct (String.eqb _ j); [reflexivity | apply H, Hx].
Qed.

Lemma wellShaped_markError j m now imgs :
  forallb wellShaped imgs = true ->
  forallb wellShaped (markError j m now imgs) = true.
Proof.
  unfold markError. rewrite !forallb_forall. intros H img Hi.
  apply in_map_iff in Hi. destruct Hi as [x [E Hx]]. subst img.
  destruct (String.eqb _ j); [reflexivity | apply H, Hx].
Qed.

Lemma wellShaped_step e s :
  forallb wellShaped (images s) = true ->
  forallb wellShaped (images (step e s)) = true.
Proof.
  intros H.
  destruct (images_step e s)
    as [E|[[k [j [text [now [_ [_ [_ E]]]]]]]
          |[[j [_ E]]|[r [a [now [j [_ [[u [_ E]]|[m [_ E]]]]]]]]]]];
    rewrite E.
  - exact H.
  - simpl. exact H.
  - apply forallb_filter, H.
  - apply wellShaped_markComplete, H.
  - apply wellShaped_markError, H.
Qed.

Lemma wellShaped_card img :
  wellShaped img = true ->
  (card img = LoadingCard (GeneratedImage.startTime img) <-> caption img = NoCaption).
Proof.
  destruct img as [i p st u e t c]. unfold wellShaped, card, caption. simpl.
  destruct st, u, e, c as [c|]; try discriminate; intros _;
    try destruct (c =? 0)%Z; split; intros E; try reflexivity; discriminate.
Qed.

(** X10.  The records that the page writes keep their shape: a pending
    record has no result, no error and no completion stamp, a terminal
    record has a completion stamp.  From a store of that shape (the
    empty store is one) every session keeps it, and each card shows the
    running timer exactly when it shows no caption under the prompt. *)
Theorem records_keep_their_shape (tr : list Event) (s : Home) :
  forallb wellShaped (images s) = true ->
  forallb wellShaped (images (run tr s)) = true /\
  (forall img, In img (images (run tr s)) ->
     (card img = LoadingCard (GeneratedImage.startTime img)
      <-> caption img = NoCaption)).
Proof.
  intros H.
  assert (W : forallb wellShaped (images (run tr s)) = true).
  { revert s H. induction tr as [|e tr IH]; intros s H; simpl; [exact H|].
    apply IH, wellShaped_step, H. }
  split; [exact W|].
  intros img Hi. apply wellShaped_card.
  rewrite forallb_forall in W. apply W, Hi.
Qed.

Lemma records_keep_their_shape_witness :
  map card (images (run (laterJob ++ [Type_ "a green frog"; Generate;
                                      Generated 0 (Ok (Some "ghi789"%string)) 600])
                        finished))
  = [LoadingCard 600;
     ImageCard (Some "https://x/heron.jpg"%string) "a blue heron";
     ImageCard (Some "https://x/img.jpg"%string) "a red fox"] /\
  forallb wellShaped
    (images (run (laterJob ++ [Type_ "a green frog"; Generate;
                               Generated 0 (Ok (Some "ghi789"%string)) 600])
                 finished)) = true.
Proof.
  split; [vm_compute; reflexivity|].
  apply (records_keep_their_shape
           (laterJob ++ [Type_ "a green frog"; Generate;
                         Generated 0 (Ok (Some "ghi789"%string)) 600]) finished).
  vm_compute; reflexivity.
Defined.

(** ** The storage item (page.tsx 42-53, 76-104, 142-149) *)

Lemma getMember_key k ms : forall v,
  getMember k ms = Some v -> includes (map fst ms) k = true.
Proof.
  induction ms as [|[k' x] ms IH]; intros v; simpl; [discriminate|].
  unfold includes in *. simpl. destruct (getMember k ms) as [v'|].
  - intros _. rewrite (IH v' eq_refl). apply orb_true_r.
  - destruct (String.eqb k k'); [reflexivity | discriminate].
Qed.

(** Every record that the reading of a stored value gives is a record
    of the program. *)
Lemma imageOfJson_storable v img : imageOfJson v = Some img -> storable img = true.
Proof.
  destruct v as [ | | | | |ms]; try discriminate. unfold imageOfJson. cbv zeta.
  destruct (distinct (map fst ms)) eqn:D; [|discriminate].
  destruct (forallb (includes interfaceKeys) (map fst ms)) eqn:F; [|discriminate].
  cbn [andb].
  destruct (getMember "id" ms) as [[ | | |i| | ]|] eqn:Gi; try discriminate.
  destruct (getMember "prompt" ms) as [[ | | |p| | ]|] eqn:Gp; try discriminate.
  destruct (getMember "status" ms) as [[ | | |st| | ]|] eqn:Gs; try discriminate.
  destruct (getMember "startTime" ms) as [[ | |t| | | ]|] eqn:Gt; try discriminate.
  destruct (statusOfName st) as [st'|]; [|discriminate].
  destruct (optString (getMember "url" ms)) as [u|] eqn:Gu; [|discriminate].
  destruct (optString (getMember "error" ms)) as [e|] eqn:Ge; [|discriminate].
  destruct (optNumber (getMember "completionTime" ms)) as [c|] eqn:Gc; [|discriminate].
  destruct (isSafeInteger t) eqn:St; [|discriminate].
  intros E. inversion E. subst img. clear E.
  unfold storable, ownKeysOk. cbn [GeneratedImage.keys GeneratedImage.startTime
                                   GeneratedImage.completionTime].
  rewrite D, F, St. cbn [andb].
  assert (Hc : match c with Some c0 => isSafeInteger c0 | None => true end = true).
  { destruct (getMember "completionTime" ms) as [[ | |n| | | ]|]; simpl in Gc;
      try discriminate.
    - destruct (isSafeInteger n) eqn:Sn; inversion Gc. exact Sn.
    - inversion Gc. reflexivity. }
  rewrite Hc, andb_true_r.
  unfold interfaceKeys. cbn [forallb]. unfold present, member. simpl.
  rewrite (getMember_key _ _ _ Gi), (getMember_key _ _ _ Gp),
    (getMember_key _ _ _ Gs), (getMember_key _ _ _ Gt). simpl.
  assert (Hu : implb (match option_map JStr u with Some _ => true | None => false end)
                     (includes (map fst ms) "url") = true).
  { destruct (getMember "url" ms) as [[ | | |x| | ]|] eqn:G; simpl in Gu;
      inversion Gu; subst; simpl; [|reflexivity].
    apply (getMember_key _ _ _ G). }
  assert (He : implb (match option_map JStr e with Some _ => true | None => false end)
                     (includes (map fst ms) "error") = true).
  { destruct (getMember "error" ms) as [[ | | |x| | ]|] eqn:G; simpl in Ge;
      inversion Ge; subst; simpl; [|reflexivity].
    apply (getMember_key _ _ _ G). }
  assert (Hk : implb (match option_map JNum c with Some _ => true | None => false end)
                     (includes (map fst ms) "completionTime") = true).
  { destruct (getMember "completionTime" ms) as [[ | |n| | | ]|] eqn:G; simpl in Gc;
      try discriminate.
    - destruct (isSafeInteger n); inversion Gc; subst; simpl.
      apply (getMember_key _ _ _ G).
    - inversion Gc. reflexivity. }
  rewrite Hu, He, Hk. reflexivity.
Qed.

Lemma imagesOfElems_storable l : forall imgs,
  imagesOfElems l = Some imgs -> forallb storable imgs = true.
Proof.
  induction l as [|v l IH]; intros imgs E; simpl in E.
  - inversion E. reflexivity.
  - destruct (imageOfJson v) as [img|] eqn:Ev; [|discriminate].
    destruct (imagesOfElems l) as [imgs'|]; [|discriminate].
    inversion E. simpl. rewrite (imageOfJson_storable v img Ev), (IH imgs' eq_refl).
    reflexivity.
Qed.

Lemma mounted_storable saved s0 :
  mount saved = Mounted s0 -> forallb storable (images s0) = true.
Proof.
  unfold mount. destruct (initialImages true saved) as [v| |]; [|discriminate|discriminate].
  destruct (imagesOfJson v) as [imgs|] eqn:E; [|discriminate].
  intros M. inversion M. effects.
  destruct v; try discriminate. apply (imagesOfElems_storable _ _ E).
Qed.

Lemma includes_setKey ks k x :
  includes (setKey ks k) x = includes ks x || String.eqb x k.
Proof.
  unfold setKey. destruct (includes ks k) eqn:E.
  - destruct (String.eqb_spec x k) as [Ex|_]; [subst; rewrite E|];
      rewrite ?orb_true_r, ?orb_false_r; reflexivity.
  - apply includes_app_single.
Qed.

Lemma distinct_setKey ks k : distinct ks = true -> distinct (setKey ks k) = true.
Proof.
  rewrite !distinct_NoDup. unfold setKey. destruct (includes ks k) eqn:E; [tauto|].
  intros N. apply NoDup_app; [exact N | repeat constructor; intros [] |].
  intros x Hx [Ex|[]]. subst x. apply includes_false in E. tauto.
Qed.

Lemma forallb_setKey (P : string -> bool) ks k :
  forallb P ks = true -> P k = true -> forallb P (setKey ks k) = true.
Proof.
  intros H Hk. unfold setKey. destruct (includes ks k); [exact H|].
  rewrite forallb_app, H. simpl. rewrite Hk. reflexivity.
Qed.

(** A record after [{ ...img, status, k, completionTime }]. *)
Lemma ownKeysOk_set img img' k :
  includes interfaceKeys k = true ->
  GeneratedImage.keys img'
  = setKeys (GeneratedImage.keys img) ["status"%string; k; "completionTime"%string] ->
  (forall x, x <> k -> x <> "completionTime"%string -> x <> "status"%string ->
             present img' x = present img x) ->
  ownKeysOk img = true -> ownKeysOk img' = true.
Proof.
  intros Hk Ek Hp W. destruct (ownKeysOk_parts img W) as [W1 [W2 W3]].
  unfold ownKeysOk. rewrite Ek. unfold setKeys. cbn [fold_left].
  apply andb_true_intro. split; [apply andb_true_intro; split|].
  - apply distinct_setKey, distinct_setKey, distinct_setKey, W1.
  - apply forallb_setKey; [apply forallb_setKey; [apply forallb_setKey|]|];
      trivial.
  - apply forallb_forall. intros x Hx. rewrite !includes_setKey.
    destruct (String.eqb_spec x "completionTime") as [|N1];
      [rewrite orb_true_r; apply implb_true_r|].
    destruct (String.eqb_spec x k) as [|N2];
      [rewrite !orb_true_r; apply implb_true_r|].
    destruct (String.eqb_spec x "status") as [|N3];
      [rewrite !orb_true_r; apply implb_true_r|].
    rewrite !orb_false_r, (Hp x N2 N1 N3).
    destruct (present img x) eqn:P; [|reflexivity].
    apply includes_In in Hx. rewrite (W3 x Hx P). reflexivity.
Qed.

Lemma present_other (img img' : Image) x :
  member img' x = member img x -> present img' x = present img x.
Proof. unfold present. intros E. rewrite E. reflexivity. Qed.

Lemma storable_markComplete j u now imgs :
  isSafeInteger now = true -> forallb storable imgs = true ->
  forallb storable (markComplete j u now imgs) = true.
Proof.
  unfold markComplete. rewrite !forallb_forall. intros Hn H img Hi.
  apply in_map_iff in Hi. destruct Hi as [x [E Hx]]. subst img.
  assert (Sx := H x Hx). destruct (String.eqb _ j); [|exact Sx].
  destruct (storable_parts x Sx) as [W [St _]].
  unfold storable. cbn [GeneratedImage.startTime GeneratedImage.completionTime].
  rewrite St, Hn, !andb_true_r.
  apply (ownKeysOk_set x _ "url"%string eq_refl); [reflexivity| |exact W].
  intros k N2 N1 N3. apply present_other. unfold member.
  apply String.eqb_neq in N1, N2, N3. rewrite N1, N2, N3. reflexivity.
Qed.

Lemma storable_markError j m now imgs :
  isSafeInteger now = true -> forallb storable imgs = true ->
  forallb storable (markError j m now imgs) = true.
Proof.
  unfold markError. rewrite !forallb_forall. intros Hn H img Hi.
  apply in_map_iff in Hi. destruct Hi as [x [E Hx]]. subst img.
  assert (Sx := H x Hx). destruct (String.eqb _ j); [|exact Sx].
  destruct (storable_parts x Sx) as [W [St _]].
  unfold storable. cbn [GeneratedImage.startTime GeneratedImage.completionTime].
  rewrite St, Hn, !andb_true_r.
  apply (ownKeysOk_set x _ "error"%string eq_refl); [reflexivity| |exact W].
  intros k N2 N1 N3. apply present_other. unfold member.
  apply String.eqb_neq in N1, N2, N3. rewrite N1, N2, N3. reflexivity.
Qed.

Lemma storable_step e s :
  forallb storable (images s) = true -> safeClock [e] = true ->
  forallb storable (images (step e s)) = true.
Proof.
  intros H C.
  destruct (images_step e s)
    as [E|[[k [j [text [now [Ee [_ [_ E]]]]]]]
          |[[j [_ E]]|[r [a [now [j [Ee [[u [_ E]]|[m [_ E]]]]]]]]]]];
    rewrite E.
  - exact H.
  - subst e. simpl in C. rewrite andb_true_r in C. cbn [forallb]. rewrite H.
    unfold storable, newImage. cbn [GeneratedImage.startTime GeneratedImage.completionTime].
    rewrite C. reflexivity.
  - apply forallb_filter, H.
  - subst e. simpl in C. rewrite andb_true_r in C.
    apply storable_markComplete; assumption.
  - subst e. simpl in C. rewrite andb_true_r in C.
    apply storable_markError; assumption.
Qed.

Lemma storable_run tr : forall s,
  forallb storable (images s) = true -> safeClock tr = true ->
  forallb storable (images (run tr s)) = true.
Proof.
  induction tr as [|e tr IH]; intros s H C; [exact H|].
  simpl in C. apply andb_prop in C. destruct C as [C1 C2].
  apply IH; [|exact C2]. apply storable_step; [exact H|].
  simpl. rewrite C1. reflexivity.
Qed.

(** X1.  Along a session that was mounted on a stored list of records
    of the declared type (or on nothing), with a clock that gives safe
    integers: the records of the store are records of the program, the
    storage item is [JSON.stringify] of the store, with the properties
    of each record in the order of their creation, and a reload at that
    point starts a session with the same records in the same order, field
    by field, with an empty working set and no interval. *)
Theorem storage_mirrors_store (saved : option string) (s0 : Home) (tr : list Event) :
  mount saved = Mounted s0 ->
  safeClock tr = true ->
  forallb storable (images (run tr s0)) = true /\
  localStorage (run tr s0)
  = Some (JSON_stringify (jsonOfImages (images (run tr s0)))) /\
  exists s',
    mount (localStorage (run tr s0)) = Mounted s' /\
    images s' = map normalise (images (run tr s0)) /\
    map fields (images s') = map fields (images (run tr s0)) /\
    pendingJobs s' = [] /\ intervals s' = [].
Proof.
  intros Hm C.
  assert (S := storable_run tr s0 (mounted_storable saved s0 Hm) C).
  destruct (mounted_shape saved s0 Hm) as [_ [_ [_ [_ Hs]]]].
  assert (H := storage_run tr s0 Hs).
  split; [exact S|]. split; [exact H|].
  rewrite H, (mount_persisted _ S). eexists. split; [reflexivity|]. effects.
  split; [reflexivity|]. split; [apply fields_normalise|]. split; reflexivity.
Qed.

(** The job is answered SUCCESS by one call and ERROR by another. *)
Lemma storage_mirrors_store_witness :
  map GeneratedImage.keys
    (images (run [Type_ "a red fox"; Generate;
                  Generated 0 (Ok (Some "abc123"%string)) 100; Tick 0; Tick 0;
                  Polled 0 (Ok (SUCCESS (Some "https://x/img.jpg"%string))) 200;
                  Polled 1 (Ok (ERROR (Some "OOM"%string))) 300] fresh))
  = [["id"; "prompt"; "status"; "startTime"; "url"; "completionTime"; "error"]%string] /\
  localStorage (run [Type_ "a red fox"; Generate;
                     Generated 0 (Ok (Some "abc123"%string)) 100; Tick 0; Tick 0;
                     Polled 0 (Ok (SUCCESS (Some "https://x/img.jpg"%string))) 200;
                     Polled 1 (Ok (ERROR (Some "OOM"%string))) 300] fresh)
  = Some (JSON_stringify (jsonOfImages
            (images (run [Type_ "a red fox"; Generate;
                          Generated 0 (Ok (Some "abc123"%string)) 100; Tick 0; Tick 0;
                          Polled 0 (Ok (SUCCESS (Some "https://x/img.jpg"%string))) 200;
                          Polled 1 (Ok (ERROR (Some "OOM"%string))) 300] fresh)))).
Proof.
  split; [vm_compute; reflexivity|].
  apply (storage_mirrors_store None fresh
           [Type_ "a red fox"; Generate;
            Generated 0 (Ok (Some "abc123"%string)) 100; Tick 0; Tick 0;
            Polled 0 (Ok (SUCCESS (Some "https://x/img.jpg"%string))) 200;
            Polled 1 (Ok (ERROR (Some "OOM"%string))) 300]);
    vm_compute; reflexivity.
Defined.

(** ** The clock of a session (page.tsx 84, 98, 146, 278-282) *)

Lemma stampsBy_mono t t' img :
  (t <= t')%Z -> stampsBy t img = true -> stampsBy t' img = true.
Proof.
  unfold stampsBy. intros L H.
  apply andb_prop in H. destruct H as [H1 H2]. apply Z.leb_le in H1.
  apply andb_true_intro. split; [apply Z.leb_le; lia|].
  destruct (GeneratedImage.completionTime img) as [c|]; [|reflexivity].
  apply andb_prop in H2. destruct H2 as [H2 H3]. apply Z.leb_le in H3.
  rewrite H2. apply Z.leb_le. lia.
Qed.

Lemma stampsBy_all_mono t t' imgs :
  (t <= t')%Z -> forallb (stampsBy t) imgs = true -> forallb (stampsBy t') imgs = true.
Proof.
  rewrite !forallb_forall. intros L H img Hi. apply (stampsBy_mono t t' img L), H, Hi.
Qed.

Lemma stampsBy_markComplete t j u now imgs :
  (t <= now)%Z -> forallb (stampsBy t) imgs = true ->
  forallb (stampsBy now) (markComplete j u now imgs) = true.
Proof.
  unfold markComplete. rewrite !forallb_forall. intros L H img Hi.
  apply in_map_iff in Hi. destruct Hi as [x [E Hx]]. subst img.
  assert (Sx := H x Hx).
  destruct (String.eqb _ j); [|apply (stampsBy_mono t now x L Sx)].
  unfold stampsBy in *. simpl.
  apply andb_prop in Sx. destruct Sx as [S1 _]. apply Z.leb_le in S1.
  rewrite Z.leb_refl, andb_true_r.
  apply andb_true_intro; split; apply Z.leb_le; lia.
Qed.

Lemma stampsBy_markError t j m now imgs :
  (t <= now)%Z -> forallb (stampsBy t) imgs = true ->
  forallb (stampsBy now) (markError j m now imgs) = true.
Proof.
  unfold markError. rewrite !forallb_forall. intros L H img Hi.
  apply in_map_iff in Hi. destruct Hi as [x [E Hx]]. subst img.
  assert (Sx := H x Hx).
  destruct (String.eqb _ j); [|apply (stampsBy_mono t now x L Sx)].
  unfold stampsBy in *. simpl.
  apply andb_prop in Sx. destruct Sx as [S1 _]. apply Z.leb_le in S1.
  rewrite Z.leb_refl, andb_true_r.
  apply andb_true_intro; split; apply Z.leb_le; lia.
Qed.

Lemma stampsBy_step t e s :
  forallb (stampsBy t) (images s) = true ->
  clockFrom t [e] = true ->
  forallb (stampsBy (lastStamp t [e])) (images (step e s)) = true.
Proof.
  intros H C.
  assert (L : (t <= lastStamp t [e])%Z).
  { simpl in *. destruct (stampOf e) as [now|]; [|lia].
    apply andb_prop in C. destruct C as [C _]. apply Z.leb_le in C. exact C. }
  destruct (images_step e s)
    as [E|[[k [j [text [now [Ee [_ [_ E]]]]]]]
          |[[j [_ E]]|[r [a [now [j [Ee [[u [_ E]]|[m [_ E]]]]]]]]]]];
    rewrite E.
  - apply (stampsBy_all_mono t _ _ L H).
  - subst e. simpl in *. apply andb_true_intro. split.
    + unfold stampsBy. simpl. rewrite Z.leb_refl. reflexivity.
    + apply (stampsBy_all_mono t _ _ L H).
  - apply forallb_filter, (stampsBy_all_mono t _ _ L H).
  - subst e. simpl in *. apply (stampsBy_markComplete t); assumption.
  - subst e. simpl in *. apply (stampsBy_markError t); assumption.
Qed.

Lemma clockFrom_cons t e tr :
  clockFrom t (e :: tr) = clockFrom t [e] && clockFrom (lastStamp t [e]) tr.
Proof. simpl. destruct (stampOf e); [rewrite andb_true_r|]; reflexivity. Qed.

Lemma lastStamp_cons t e tr : lastStamp t (e :: tr) = lastStamp (lastStamp t [e]) tr.
Proof. simpl. destruct (stampOf e); reflexivity. Qed.

Lemma stampsBy_run tr : forall t s,
  forallb (stampsBy t) (images s) = true ->
  clockFrom t tr = true ->
  forallb (stampsBy (lastStamp t tr)) (images (run tr s)) = true.
Proof.
  induction tr as [|e tr IH]; intros t s H C; [exact H|].
  rewrite clockFrom_cons in C. apply andb_prop in C. destruct C as [C1 C2].
  rewrite lastStamp_cons. change (run (e :: tr) s) with (run tr (step e s)).
  apply IH; [apply stampsBy_step; assumption | exact C2].
Qed.

Lemma startsFrom_step lo e s :
  forallb (fun img => (lo <=? GeneratedImage.startTime img)%Z) (images s) = true ->
  (forall now, stampOf e = Some now -> (lo <= now)%Z) ->
  forallb (fun img => (lo <=? GeneratedImage.startTime img)%Z) (images (step e s)) = true.
Proof.
  intros H C.
  destruct (images_step e s)
    as [E|[[k [j [text [now [Ee [_ [_ E]]]]]]]
          |[[j [_ E]]|[r [a [now [j [Ee [[u [_ E]]|[m [_ E]]]]]]]]]]];
    rewrite E.
  - exact H.
  - subst e. cbn [forallb]. rewrite H, andb_true_r.
    apply Z.leb_le, (C now eq_refl).
  - apply forallb_filter, H.
  - unfold markComplete. rewrite forallb_forall in *. intros img Hi.
    apply in_map_iff in Hi. destruct Hi as [x [Ex Hx]]. subst img.
    destruct (String.eqb _ j); apply (H x Hx).
  - unfold markError. rewrite forallb_forall in *. intros img Hi.
    apply in_map_iff in Hi. destruct Hi as [x [Ex Hx]]. subst img.
    destruct (String.eqb _ j); apply (H x Hx).
Qed.

Lemma startsFrom_run lo tr : forall t s,
  (lo <= t)%Z ->
  forallb (fun img => (lo <=? GeneratedImage.startTime img)%Z) (images s) = true ->
  clockFrom t tr = true ->
  forallb (fun img => (lo <=? GeneratedImage.startTime img)%Z) (images (run tr s)) = true.
Proof.
  induction tr as [|e tr IH]; intros t s L H C; [exact H|].
  simpl in C. change (run (e :: tr) s) with (run tr (step e s)).
  destruct (stampOf e) as [now|] eqn:Es.
  - apply andb_prop in C. destruct C as [C1 C2]. apply Z.leb_le in C1.
    apply (IH now); [lia | | exact C2].
    apply startsFrom_step; [exact H|]. intros n En. rewrite Es in En.
    inversion En. lia.
  - apply (IH t); [exact L | | exact C].
    apply startsFrom_step; [exact H|]. intros n En. rewrite Es in En. discriminate.
Qed.

(** X11.  While the clock of the browser does not go back and stays
    within the safe integers, from 0 on, no record is completed before
    it was started: the difference of the two stamps is a safe integer
    that is not negative, and the caption of a record that has one reads
    back to the whole seconds between its submission and its
    completion. *)
Theorem caption_reads_back
        (t : Z) (tr : list Event) (s : Home) (img : Image) (c : Z) :
  (0 <= t)%Z ->
  forallb (fun img => (0 <=? GeneratedImage.startTime img)%Z) (images s) = true ->
  forallb (stampsBy t) (images s) = true ->
  clockFrom t tr = true ->
  isSafeInteger (lastStamp t tr) = true ->
  In img (images (run tr s)) ->
  GeneratedImage.completionTime img = Some c ->
  c <> 0%Z ->
  (0 <= GeneratedImage.startTime img <= c)%Z /\
  (c <= lastStamp t tr)%Z /\
  isSafeInteger (c - GeneratedImage.startTime img) = true /\
  caption img = GeneratedIn (formatDuration (c - GeneratedImage.startTime img)) /\
  readDuration (formatDuration (c - GeneratedImage.startTime img))
  = Some ((c - GeneratedImage.startTime img) / 1000)%Z.
Proof.
  intros T0 H0 H C Hs Hi Hc Hz.
  assert (W := stampsBy_run tr t s H C).
  rewrite forallb_forall in W. specialize (W img Hi).
  unfold stampsBy in W. rewrite Hc in W.
  apply andb_prop in W. destruct W as [_ W].
  apply andb_prop in W. destruct W as [W1 W2].
  apply Z.leb_le in W1. apply Z.leb_le in W2.
  assert (W0 := startsFrom_run 0 tr t s T0 H0 C).
  rewrite forallb_forall in W0. specialize (W0 img Hi). apply Z.leb_le in W0.
  unfold isSafeInteger in Hs |- *. apply Z.leb_le in Hs.
  split; [lia|]. split; [exact W2|]. split; [apply Z.leb_le; lia|]. split.
  - unfold caption. rewrite Hc.
    destruct (Z.eqb_spec c 0) as [E|_]; [contradiction | reflexivity].
  - apply readDuration_formatDuration. lia.
Qed.

Lemma caption_reads_back_witness :
  caption (markedComplete "abc123" "a red fox" "https://x/img.jpg" 100 75200)
  = GeneratedIn "1m 15s" /\
  readDuration "1m 15s" = Some 75%Z.
Proof.
  destruct (caption_reads_back 0
              [Type_ "a red fox"; Generate;
               Generated 0 (Ok (Some "abc123"%string)) 100; Tick 0;
               Polled 0 (Ok (SUCCESS (Some "https://x/img.jpg"%string))) 75200]
              fresh
              (markedComplete "abc123" "a red fox" "https://x/img.jpg" 100 75200)
              75200%Z) as [_ [_ [_ [H1 H2]]]].
  - lia.
  - vm_compute; reflexivity.
  - vm_compute; reflexivity.
  - vm_compute; reflexivity.
  - vm_compute; reflexivity.
  - vm_compute. left; reflexivity.
  - reflexivity.
  - discriminate.
  - split; [exact H1 | exact H2].
Defined.

(** ** The ids the loop sees (page.tsx 61-65, 138-150) *)

Lemma truthyIds_same s s0 :
  truthyIds s0 -> pendingJobs s = pendingJobs s0 -> intervals s = intervals s0 ->
  rounds s = rounds s0 -> truthyIds s.
Proof. unfold truthyIds. intros H E1 E2 E3. rewrite E1, E2, E3. exact H. Qed.

Lemma truthyIds_pollingEffect s : truthyIds s -> truthyIds (pollingEffect s).
Proof.
  intros [H1 [H2 H3]]. unfold truthyIds.
  rewrite pendingJobs_pollingEffect, rounds_pollingEffect.
  split; [exact H1|]. split; [|exact H3].
  assert (Hts : forall t j,
             In t (match pollCleanup s with
                   | Some i => clearInterval i (intervals s)
                   | None => intervals s
                   end) -> In j (snd t) -> truthy j = true).
  { intros t j Ht. apply H2. destruct (pollCleanup s); [|exact Ht].
    unfold clearInterval in Ht. apply filter_In in Ht. tauto. }
  unfold pollingEffect. destruct (Nat.eqb _ 0); simpl; [exact Hts|].
  intros t j Ht Hj. apply in_app_or in Ht. destruct Ht as [Ht|[Ht|[]]].
  - apply (Hts t j Ht Hj).
  - subst t. apply H1, Hj.
Qed.

Lemma truthyIds_setPendingJobs f s :
  truthyIds s -> (forall j, In j (f (pendingJobs s)) -> truthy j = true) ->
  truthyIds (setPendingJobs f s).
Proof.
  intros [H1 [H2 H3]] Hf. unfold setPendingJobs. apply truthyIds_pollingEffect.
  split; [exact Hf|]. split; [exact H2 | exact H3].
Qed.

Lemma truthyIds_finishRound c s : truthyIds s -> truthyIds (finishRound c s).
Proof.
  intros H. unfold finishRound. destruct (Nat.ltb 0 (length c)); [|exact H].
  apply truthyIds_setPendingJobs; [exact H|].
  intros j Hj. apply filter_In in Hj. apply (proj1 H). tauto.
Qed.

Lemma truthyIds_runLoop r jobs : forall c s,
  truthyIds s -> (forall j, In j jobs -> truthy j = true) ->
  truthyIds (runLoop r jobs c s).
Proof.
  induction jobs as [|j jobs IH]; intros c s H Hjobs; simpl.
  - apply truthyIds_finishRound, H.
  - destruct (malformed j).
    + apply IH; [exact H|]. intros j' Hj'. apply Hjobs. right. exact Hj'.
    + destruct H as [H1 [H2 H3]]. split; [exact H1|]. split; [exact H2|].
      simpl. intros x j' Hx Hj'. apply in_app_or in Hx. destruct Hx as [Hx|[Hx|[]]].
      * apply (H3 x j' Hx Hj').
      * subst x. apply Hjobs, Hj'.
Qed.

Lemma truthyIds_step e s : truthyIds s -> truthyIds (step e s).
Proof.
  destruct e as [text| |k a now|j'|u text f|i|r a now]; simpl; intros H.
  - apply (truthyIds_same _ s H); reflexivity.
  - unfold generateImage. destruct (negb _); [exact H|].
    apply (truthyIds_same _ s H); reflexivity.
  - destruct (nth_error (submissions s) k) as [text|]; [|exact H].
    unfold generateImageResume.
    destruct a as [| | |[j|]]; try (apply (truthyIds_same _ s H); reflexivity).
    destruct (truthy j) eqn:T; [|apply (truthyIds_same _ s H); reflexivity].
    match goal with
    | |- truthyIds (withPrompt _ ?s1) =>
        apply (truthyIds_same _ s1); [|reflexivity|reflexivity|reflexivity]
    end.
    apply truthyIds_setPendingJobs.
    + apply (truthyIds_same _ s H); reflexivity.
    + effects. intros j0 Hj. apply in_app_or in Hj. destruct Hj as [Hj|[Hj|[]]].
      * apply (proj1 H), Hj.
      * subst j0. exact T.
  - apply (truthyIds_same _ s H); reflexivity.
  - unfold downloadImage. destruct f; apply (truthyIds_same _ s H); reflexivity.
  - destruct (findInterval i (intervals s)) as [[i' jobs]|] eqn:E; [|exact H].
    apply findInterval_Some in E. destruct E as [E _].
    unfold intervalFires. apply truthyIds_runLoop.
    + apply (truthyIds_same _ s H); reflexivity.
    + intros j Hj. apply (proj1 (proj2 H) (i', jobs) j E Hj).
  - destruct (findRound r (rounds s)) as [x|] eqn:E; [|exact H].
    apply findRound_Some in E. destruct E as [E _].
    unfold roundResumes. destruct (todo x) as [|jh rest] eqn:Et; [exact H|].
    assert (Hd : truthyIds (withRounds (dropRound (rid x) (rounds s)) (nextRoundId s) s)).
    { destruct H as [H1 [H2 H3]]. split; [exact H1|]. split; [exact H2|].
      simpl. intros y j Hy. unfold dropRound in Hy. apply filter_In in Hy.
      apply H3. tauto. }
    assert (Hr : forall j, In j rest -> truthy j = true).
    { intros j Hj. apply (proj2 (proj2 H) x j E). rewrite Et. right. exact Hj. }
    destruct a as [| | |[u|m|]]; simpl; apply truthyIds_runLoop; try exact Hr;
      try (eapply truthyIds_same; [exact Hd|reflexivity|reflexivity|reflexivity]).
Qed.

Lemma truthyIds_loopIds s : truthyIds s -> forallb truthy (loopIds s) = true.
Proof.
  intros [H1 [H2 H3]]. apply forallb_forall. intros j Hj. unfold loopIds in Hj.
  apply in_app_or in Hj. destruct Hj as [Hj|Hj]; [apply H1, Hj|].
  apply in_app_or in Hj. destruct Hj as [Hj|Hj]; apply in_flat_map in Hj;
    destruct Hj as [y [Hy Hj]]; [apply (H2 y j Hy Hj) | apply (H3 y j Hy Hj)].
Qed.

(** X12.  The loop never meets an empty id: an id enters the working
    set only through line 150, behind the test of line 138, and the
    working set is not restored from storage.  So the first half of the
    guard of line 62 never fires in a session, and the guard stops
    exactly the id spelled undefined. *)
Theorem guard_stops_undefined_only (s : Home) :
  reachable s ->
  forallb truthy (loopIds s) = true /\
  (forall j, In j (loopIds s) -> (malformed j = true <-> j = "undefined"%string)).
Proof.
  intros [saved [s0 [tr [Hm E]]]]. subst s.
  assert (H0 : truthyIds s0).
  { destruct (mounted_shape saved s0 Hm) as [E1 [E2 [E3 _]]].
    unfold truthyIds. rewrite E1, E2, E3. repeat split; intros; contradiction. }
  clear Hm.
  assert (H : truthyIds (run tr s0)).
  { revert s0 H0. induction tr as [|e tr IH]; intros s0 H0; simpl; [exact H0|].
    apply IH, truthyIds_step, H0. }
  assert (T := truthyIds_loopIds _ H). split; [exact T|].
  intros j Hj. rewrite forallb_forall in T. unfold malformed.
  rewrite (T j Hj). simpl. apply String.eqb_eq.
Qed.

Lemma guard_stops_undefined_only_witness :
  loopIds corrupted
  = ["undefined"%string; "abc123"%string; "undefined"%string; "abc123"%string] /\
  forallb truthy (loopIds corrupted) = true.
Proof.
  split; [vm_compute; reflexivity|].
  apply (guard_stops_undefined_only corrupted), reachable_corrupted.
Defined.

(** ** A call of the callback that runs alone (page.tsx 58-115) *)

Lemma pendingJobs_finishRound c s :
  pendingJobs (finishRound c s)
  = filter (fun j => negb (includes c j)) (pendingJobs s).
Proof.
  unfold finishRound. destruct c as [|x c]; simpl.
  - induction (pendingJobs s) as [|j l IH]; simpl; [reflexivity|].
    rewrite <- IH. reflexivity.
  - effects. reflexivity.
Qed.

(** The small steps of a call that runs alone add up to the loop of the
    source read in one go. *)
Lemma runLoop_alone_store r jobs : forall c s answers,
  roundLive r s = false ->
  length answers = length (queries jobs) ->
  images (run (answersOf r answers) (runLoop r jobs c s))
  = snd (loopAlone jobs answers c (images s)) /\
  pendingJobs (run (answersOf r answers) (runLoop r jobs c s))
  = filter (fun j => negb (includes (fst (loopAlone jobs answers c (images s))) j))
           (pendingJobs s).
Proof.
  unfold queries. setoid_rewrite length_map.
  induction jobs as [|j jobs IH]; intros c s answers Hl Hn; simpl in *.
  - destruct answers; [|discriminate]. simpl.
    rewrite images_finishRound, pendingJobs_finishRound. tauto.
  - unfold wellFormed in Hn at 1. destruct (malformed j) eqn:M; simpl in Hn |- *.
    + apply IH; assumption.
    + destruct answers as [|[a now] answers]; [discriminate|]. simpl.
      assert (Hno := proj1 (roundLive_false r s) Hl).
      rewrite (findRound_app_new r (rounds s) (mkRound r (j :: jobs) c) Hno eq_refl).
      unfold roundResumes. simpl.
      rewrite (dropRound_app_new r (rounds s) (mkRound r (j :: jobs) c) Hno eq_refl).
      injection Hn as Hn.
      destruct a as [| | |[u|m|]]; simpl;
        match goal with
        | |- images (run _ (runLoop _ _ ?c' ?s')) = _ /\ _ =>
            destruct (IH c' s' answers) as [H1 H2];
              [unfold roundLive; exact Hl | exact Hn |];
              rewrite H1, H2; split; reflexivity
        end.
Qed.

(** X13.  A call of the interval callback that is answered at each of
    its queries before anything else happens does what lines 58-115 say
    when read as one loop: the store after the call is the store of the
    loop, the working set loses exactly the ids the loop pushed to
    [completedJobs], and the queries are those of the well-formed ids of
    the closure, in order. *)
Theorem round_alone_is_the_loop
        (s : Home) (i : nat) (jobs : list string)
        (answers : list (Response PollData * Z)) :
  reachable s ->
  In (i, jobs) (intervals s) ->
  length answers = length (queries jobs) ->
  images (nextRound i answers s) = snd (loopAlone jobs answers [] (images s)) /\
  pendingJobs (nextRound i answers s)
  = filter (fun j => negb (includes (fst (loopAlone jobs answers [] (images s))) j))
           (pendingJobs s) /\
  requests (nextRound i answers s) = requests s ++ queries jobs.
Proof.
  intros R Hi Hn.
  assert (T := reachable_timersOk s R).
  destruct (reachable_invariants s R) as [_ Ok].
  unfold timersOk in T. destruct (pendingJobs s) as [|j0 l] eqn:Ep.
  - destruct T as [T _]. rewrite T in Hi. destruct Hi.
  - destruct T as [i' [T _]]. rewrite T in Hi. destruct Hi as [Hi|[]].
    inversion Hi. subst i' jobs. rewrite <- Ep in *.
    assert (L : roundLive (nextRoundId s)
                  (withRounds (rounds s) (S (nextRoundId s)) s) = false).
    { apply roundLive_false. simpl. intros x Hx E.
      destruct (Ok x Hx) as [Hlt _]. lia. }
    split; [|split].
    + unfold nextRound. simpl. rewrite T. unfold findInterval. simpl.
      rewrite Nat.eqb_refl. unfold intervalFires.
      apply (runLoop_alone_store (nextRoundId s) (pendingJobs s) []
               (withRounds (rounds s) (S (nextRoundId s)) s) answers L Hn).
    + unfold nextRound. simpl. rewrite T. unfold findInterval. simpl.
      rewrite Nat.eqb_refl. unfold intervalFires.
      apply (runLoop_alone_store (nextRoundId s) (pendingJobs s) []
               (withRounds (rounds s) (S (nextRoundId s)) s) answers L Hn).
    + apply nextRound_requests; assumption.
Qed.

Lemma reachable_twoJobs : reachable twoJobs.
Proof.
  exists None, fresh,
    [Type_ "a red fox"; Generate; Generated 0 (Ok (Some "A"%string)) 100;
     Type_ "a blue heron"; Generate; Generated 0 (Ok (Some "B"%string)) 110].
  split; vm_compute; reflexivity.
Qed.

Lemma round_alone_is_the_loop_witness :
  map outcome (images (nextRound 1 oneFailsOneSucceeds twoJobs))
  = [(Complete, Some "https://x/b.jpg"%string, None); (Loading, None, None)] /\
  pendingJobs (nextRound 1 oneFailsOneSucceeds twoJobs) = ["A"%string] /\
  images (nextRound 1 oneFailsOneSucceeds twoJobs)
  = snd (loopAlone ["A"%string; "B"%string] oneFailsOneSucceeds [] (images twoJobs)).
Proof.
  split; [vm_compute; reflexivity|]. split; [vm_compute; reflexivity|].
  apply (round_alone_is_the_loop twoJobs 1 ["A"%string; "B"%string] oneFailsOneSucceeds).
  - exact reachable_twoJobs.
  - vm_compute. left; reflexivity.
  - reflexivity.
Defined.

(** ** What the page lets the user delete (page.tsx 158-160, 246-270) *)

Lemma same_id_same_record (imgs : list Image) : forall a b,
  NoDup (ids imgs) -> In a imgs -> In b imgs ->
  GeneratedImage.id a = GeneratedImage.id b -> a = b.
Proof.
  induction imgs as [|x imgs IH]; intros a b N Ha Hb E; [destruct Ha|].
  simpl in N. inversion N as [|? ? Hx N']. subst.
  destruct Ha as [Ha|Ha], Hb as [Hb|Hb].
  - congruence.
  - subst a. exfalso. apply Hx. rewrite E. apply in_map, Hb.
  - subst b. exfalso. apply Hx. rewrite <- E. apply in_map, Ha.
  - apply IH; assumption.
Qed.

(** X14.  While the ids of the store are distinct, the Delete button
    that the page shows removes one record, a complete one, and every
    other record stays where it was; the working set is not touched.  A
    pending or failed record has no Delete button. *)
Theorem offered_delete_removes_one_complete_record (s : Home) (j : string) :
  NoDup (ids (images s)) ->
  offers s (Delete j) = true ->
  (exists img, recordsOf j (images s) = [img] /\ isComplete img = true) /\
  images (step (Delete j) s)
  = filter (fun img => negb (hasId j img)) (images s) /\
  (forall img, In img (images s) -> isComplete img = false ->
               In img (images (step (Delete j) s))) /\
  pendingJobs (step (Delete j) s) = pendingJobs s.
Proof.
  intros N O. destruct (offers_delete s j O) as [img [Hi Hc]].
  assert (Hin := Hi). apply filter_In in Hin. destruct Hin as [Hin Hid].
  unfold hasId in Hid. apply String.eqb_eq in Hid.
  assert (U : forall x, In x (images s) -> GeneratedImage.id x = j -> x = img).
  { intros x Hx Ex. apply (same_id_same_record (images s)); congruence. }
  assert (E : images (step (Delete j) s)
              = filter (fun img => negb (hasId j img)) (images s)).
  { simpl. unfold deleteImage. effects. reflexivity. }
  split; [|split; [exact E|split]].
  - exists img. split; [|exact Hc].
    assert (L : forall x, In x (recordsOf j (images s)) -> x = img).
    { intros x Hx. apply filter_In in Hx. destruct Hx as [Hx Ex].
      apply String.eqb_eq in Ex. apply U; assumption. }
    assert (N2 : NoDup (recordsOf j (images s))).
    { apply NoDup_filter. apply (NoDup_map_inv GeneratedImage.id). exact N. }
    destruct (recordsOf j (images s)) as [|a [|b l]].
    + destruct Hi.
    + rewrite (L a (or_introl eq_refl)). reflexivity.
    + exfalso. inversion N2 as [|? ? Ha _]. apply Ha. left.
      rewrite (L a (or_introl eq_refl)), (L b (or_intror (or_introl eq_refl))).
      reflexivity.
  - intros x Hx Hl. rewrite E. apply filter_In. split; [exact Hx|].
    apply negb_true_iff. unfold hasId. apply String.eqb_neq. intros Ex.
    rewrite (U x Hx Ex) in Hl. congruence.
  - apply (deleteImage_keeps_pendingJobs j s).
Qed.

Lemma offered_delete_removes_one_complete_record_witness :
  offers (run laterJob finished) (Delete "def456") = true /\
  offers submitted (Delete "abc123") = false /\
  ids (images (step (Delete "def456") (run laterJob finished))) = ["abc123"%string].
Proof.
  split; [vm_compute; reflexivity|]. split; [vm_compute; reflexivity|].
  assert (N : NoDup (ids (images (run laterJob finished)))).
  { vm_compute. repeat constructor; simpl; intuition discriminate. }
  destruct (offered_delete_removes_one_complete_record
              (run laterJob finished) "def456"%string N eq_refl) as [_ [E _]].
  rewrite E. vm_compute. reflexivity.
Defined.

(** ** The prompt of a submission (page.tsx 120-151, 206) *)

Lemma run_app tr1 : forall tr2 s, run (tr1 ++ tr2) s = run tr2 (run tr1 s).
Proof. induction tr1 as [|e tr1 IH]; intros tr2 s; simpl; [reflexivity | apply IH]. Qed.

Lemma typing_run tr : forall s,
  forallb isTyping tr = true ->
  images (run tr s) = images s /\ pendingJobs (run tr s) = pendingJobs s /\
  submissions (run tr s) = submissions s /\ alerts (run tr s) = alerts s.
Proof.
  induction tr as [|e tr IH]; intros s H; simpl in *; [tauto|].
  apply andb_prop in H. destruct H as [He H].
  destruct e; try discriminate. destruct (IH (step (Type_ text) s) H) as [E1 [E2 [E3 E4]]].
  rewrite E1, E2, E3, E4. simpl. tauto.
Qed.

(** X15.  A submission keeps the prompt it was made with: what is typed
    while the gateway has not answered does not reach the record, and
    the answer empties the prompt box, whatever was typed meanwhile. *)
Theorem submission_keeps_its_prompt
        (s : Home) (tr : list Event) (j : string) (now : Z) :
  truthy (trim (prompt s)) = true ->
  forallb isTyping tr = true ->
  truthy j = true ->
  images (run (Generate :: tr
               ++ [Generated (length (submissions s)) (Ok (Some j)) now]) s)
  = newImage j (prompt s) now :: images s /\
  pendingJobs (run (Generate :: tr
                    ++ [Generated (length (submissions s)) (Ok (Some j)) now]) s)
  = pendingJobs s ++ [j] /\
  prompt (run (Generate :: tr
               ++ [Generated (length (submissions s)) (Ok (Some j)) now]) s)
  = ""%string /\
  alerts (run (Generate :: tr
               ++ [Generated (length (submissions s)) (Ok (Some j)) now]) s)
  = alerts s.
Proof.
  intros Hp Ht Hj.
  change (run (Generate :: tr
               ++ [Generated (length (submissions s)) (Ok (Some j)) now]) s)
    with (run (tr ++ [Generated (length (submissions s)) (Ok (Some j)) now])
              (generateImage s)).
  rewrite run_app.
  destruct (typing_run tr (generateImage s) Ht) as [E1 [E2 [E3 E4]]].
  remember (run tr (generateImage s)) as s1 eqn:Es1.
  unfold generateImage in E1, E2, E3, E4. rewrite Hp in E1, E2, E3, E4.
  simpl in E1, E2, E3, E4.
  simpl. rewrite E3.
  rewrite nth_error_app2, Nat.sub_diag by apply le_n. simpl.
  rewrite Hj. effects. rewrite E1, E2, E4. tauto.
Qed.

Lemma submission_keeps_its_prompt_witness :
  images (run [Generate; Type_ "a blue"; Type_ "a blue heron";
               Generated 0 (Ok (Some "abc123"%string)) 100]
              (step (Type_ "a red fox") fresh))
  = [newImage "abc123" "a red fox" 100] /\
  prompt (run [Generate; Type_ "a blue"; Type_ "a blue heron";
               Generated 0 (Ok (Some "abc123"%string)) 100]
              (step (Type_ "a red fox") fresh))
  = ""%string.
Proof.
  destruct (submission_keeps_its_prompt (step (Type_ "a red fox") fresh)
              [Type_ "a blue"; Type_ "a blue heron"] "abc123"%string 100%Z)
    as [H1 [_ [H2 _]]]; try reflexivity.
  split; [exact H1 | exact H2].
Defined.

(** ** What the page reads from the answers (page.tsx 74-104, 136-150) *)



(** X17.  The polling loop changes the store only for a body that is an
    object whose member status is the string SUCCESS or the string ERROR,
    spelled so; any other body of an ok answer that the page reads leaves
    every record as it was. *)
Theorem only_success_and_error_are_read
        (s : Home) (r : nat) (jobId : string) (data : json)
        (a : Response PollData) (now : Z) :
  pollAnswer jobId (BackendSays true (Some data)) = Some a ->
  images (step (Polled r a now) s) <> images s ->
  exists ms st,
    data = JObj ms /\ getMember "status" ms = Some (JStr st) /\
    (st = "SUCCESS"%string \/ st = "ERROR"%string).
Proof.
  intros Ha Hd. unfold pollAnswer, throughRoute in Ha. simpl in Ha.
  rewrite received_json in Ha. destruct (jsValue data); [|discriminate].
  assert (Q : a = Ok OTHER \/ a = JsonThrows ->
              images (step (Polled r a now) s) = images s).
  { intros Ea. simpl. destruct (findRound r (rounds s)) as [x|]; [|reflexivity].
    rewrite images_roundResumes. destruct (todo x); [reflexivity|].
    destruct Ea; subst a; reflexivity. }
  destruct data as [| b | n | str | l | ms]; simpl in Ha;
    try (inversion Ha; subst a; exfalso; apply Hd, Q; tauto).
  destruct (getMember "status" ms) as [[| b | n | st | l | ms']|] eqn:G;
    try (inversion Ha; subst a; exfalso; apply Hd, Q; tauto).
  exists ms, st. split; [reflexivity|]. split; [exact G|].
  destruct (String.eqb_spec st "SUCCESS") as [E|_]; [left; exact E|].
  destruct (String.eqb_spec st "ERROR") as [E|_]; [right; exact E|].
  inversion Ha; subst a; exfalso; apply Hd, Q; tauto.
Qed.

Lemma only_success_and_error_are_read_witness :
  pollAnswer "abc123"
    (BackendSays true (Some (JObj [("status"%string, JStr "success");
                                   ("url"%string, JStr "https://x/img.jpg")])))
  = Some (Ok OTHER) /\
  exists ms st,
    JObj [("status"%string, JStr "SUCCESS"); ("url"%string, JStr "https://x/img.jpg")]
    = JObj ms /\ getMember "status" ms = Some (JStr st) /\
    (st = "SUCCESS"%string \/ st = "ERROR"%string).
Proof.
  split; [vm_compute; reflexivity|].
  apply (only_success_and_error_are_read polling 0 "abc123"%string
           (JObj [("status"%string, JStr "SUCCESS");
                  ("url"%string, JStr "https://x/img.jpg")])
           (Ok (SUCCESS (Some "https://x/img.jpg"%string))) 200%Z).
  - vm_compute; reflexivity.
  - vm_compute. discriminate.
Defined.

(** X18.  A route answers ok exactly when its request could be read and
    the backend answered ok with a JSON body; the results route answers
    400 to a job id that is no string, before any request to the
    backend. *)
Theorem routes_ok_iff_backend_ok
        (jobId : option string) (form : FormRead) (backend : BackendAnswer) :
  (responseOk (resultsGET jobId backend) = true
   <-> jobId <> None /\ backendOk backend = true) /\
  (responseOk (generatePOST form backend) = true
   <-> form <> FormThrows /\ backendOk backend = true) /\
  httpStatus (resultsGET None backend) = 400.
Proof.
  split; [|split; [|reflexivity]].
  - destruct jobId as [j|], backend as [|[] [data|]]; simpl;
      split; try discriminate; try (intros [H1 H2]; congruence);
      intros _; split; [discriminate | reflexivity].
  - destruct form as [|text], backend as [|[] [data|]]; simpl;
      split; try discriminate; try (intros [H1 H2]; congruence);
      intros _; split; [discriminate | reflexivity].
Qed.

Lemma routes_ok_iff_backend_ok_witness :
  responseOk (resultsGET (Some "abc123"%string)
                (BackendSays true (Some (JObj [("status"%string, JStr "PENDING")]))))
  = true /\
  responseOk (generatePOST FormThrows (BackendSays true (Some JNull))) = false.
Proof.
  split.
  - destruct (routes_ok_iff_backend_ok (Some "abc123"%string) FormThrows
                (BackendSays true (Some (JObj [("status"%string, JStr "PENDING")]))))
      as [[_ H] _].
    apply H. split; [discriminate | reflexivity].
  - reflexivity.
Defined.

(** X19.  The base address of the backend is never empty: a missing or
    empty variable gives the default, any other value is taken as it
    is. *)
Theorem BACKEND_URL_never_empty (env : option string) :
  truthy (BACKEND_URL env) = true /\
  (forall u, env = Some u -> truthy u = true -> BACKEND_URL env = u) /\
  (env = None \/ env = Some ""%string
   -> BACKEND_URL env = "http://localhost:9080"%string).
Proof.
  split; [|split].
  - destruct env as [[|c u]|]; reflexivity.
  - intros u E T. subst env. simpl. rewrite T. reflexivity.
  - intros [E|E]; subst env; reflexivity.
Qed.

Lemma BACKEND_URL_never_empty_witness :
  BACKEND_URL (Some "http://backend:9080"%string) = "http://backend:9080"%string /\
  BACKEND_URL (Some ""%string) = "http://localhost:9080"%string.
Proof.
  split.
  - apply (BACKEND_URL_never_empty (Some "http://backend:9080"%string));
      reflexivity.
  - apply (BACKEND_URL_never_empty (Some ""%string)). right; reflexivity.
Defined.

(** ** The initializer and the timer (page.tsx 26-48) *)

(** X20.  The initializer trusts the storage item: for a JSON value of
    the embedding (safe integers, strings of units below 256, objects
    without a repeated key or a key of digits), the item that holds its
    text makes the initializer return that very value, checked against
    nothing; a value that is no list of records is taken all the same.
    Without a window the store starts empty. *)
Theorem initializer_trusts_storage (v : json) :
  jsValue v = true ->
  initialImages true (Some (JSON_stringify v)) = Returns v /\
  (imagesOfJson v = None -> mount (Some (JSON_stringify v)) = MountUntyped v) /\
  (forall saved, initialImages false saved = Returns (JArr [])).
Proof.
  intros J.
  assert (E : initialImages true (Some (JSON_stringify v)) = Returns v).
  { unfold initialImages. rewrite truthy_stringify, (JSON_parse_stringify v J).
    reflexivity. }
  split; [exact E|]. split; [|reflexivity].
  intros H. unfold mount. rewrite E, H. reflexivity.
Qed.

Lemma initializer_trusts_storage_witness :
  JSON_parse "[7]" = Parsed (JArr [JNum 7]) /\
  mount (Some (JSON_stringify (JObj [("id"%string, JNum 7)])))
  = MountUntyped (JObj [("id"%string, JNum 7)]).
Proof.
  split; [vm_compute; reflexivity|].
  apply (initializer_trusts_storage (JObj [("id"%string, JNum 7)])); reflexivity.
Defined.

(** X21.  The timer of a pending card shows 0s until its interval
    fires for the first time, whenever the job was started; after that it
    shows the time between the start of the job and the last firing,
    which reads back to whole seconds when the clock did not go back (the
    stamps and their difference being safe integers). *)
Theorem timer_shows_last_tick (startTime : Z) (ticks : list Z) (now : Z) :
  isSafeInteger startTime = true ->
  isSafeInteger now = true ->
  isSafeInteger (now - startTime) = true ->
  (startTime <= now)%Z ->
  timerText startTime [] = "0s"%string /\
  timerText startTime (ticks ++ [now]) = formatDuration (now - startTime) /\
  readDuration (timerText startTime (ticks ++ [now]))
  = Some ((now - startTime) / 1000)%Z.
Proof.
  intros _ _ _ H.
  assert (E : timerText startTime (ticks ++ [now]) = formatDuration (now - startTime)).
  { unfold timerText, timerElapsed. rewrite fold_left_app. reflexivity. }
  split; [reflexivity|]. split; [exact E|].
  rewrite E. apply readDuration_formatDuration. lia.
Qed.

Lemma timer_shows_last_tick_witness :
  timerText 100 [1100; 2100; 63100]%Z = "1m 3s"%string /\
  readDuration (timerText 100 [1100; 2100; 63100]%Z) = Some 63%Z.
Proof.
  destruct (timer_shows_last_tick 100 [1100; 2100]%Z 63100%Z) as [_ [H1 H2]];
    try reflexivity; [lia|].
  split; [vm_compute; reflexivity | exact H2].
Defined.
